(** * doc-utils: the regex-driven Markdown-to-HTML transducer and the
      command-line drivers, embedded in Rocq.

    Python strings are modelled as lists of characters over the code points
    0..255 (the range of [ascii]); the character classes [\w], [\s], [\d],
    [str.lower] and [str.strip] follow CPython 3 on that range.  Regular
    expressions are run by a backtracking matcher with the priorities of
    Python's [re] (leftmost match, greedy and lazy repetition, ordered
    alternation, capture groups). *)

From Stdlib Require Import Ascii String DecimalString.
From Stdlib Require Import List Bool Arith Lia.
From Stdlib Require Import Sorting.Sorted Sorting.Permutation.
Import ListNotations.

Set Implicit Arguments.

(* ------------------------------------------------------------------ *)
(** ** Python strings and their methods *)

Module Py.

Definition str := list ascii.

Definition lit (s : string) : str := list_ascii_of_string s.

Definition nl : ascii := "010"%char.
Definition dq : ascii := "034"%char.

Definition code (c : ascii) : nat := nat_of_ascii c.

Definition in_range (lo hi : nat) (c : ascii) : bool :=
  (lo <=? code c) && (code c <=? hi).

Definition is_char (a c : ascii) : bool := Ascii.eqb a c.

(** [\d] : decimal digits. *)
Definition is_digit (c : ascii) : bool := in_range 48 57 c.

(** [\s] and the characters removed by [str.strip()]. *)
Definition is_space (c : ascii) : bool :=
  in_range 9 13 c || in_range 28 32 c || (code c =? 133) || (code c =? 160).

(** [\w] : alphanumeric characters and the underscore. *)
Definition is_word (c : ascii) : bool :=
  in_range 48 57 c || in_range 65 90 c || (code c =? 95) || in_range 97 122 c
  || (code c =? 170) || in_range 178 179 c || (code c =? 181)
  || in_range 185 186 c || in_range 188 190 c
  || in_range 192 214 c || in_range 216 246 c || in_range 248 255 c.

Definition is_upper (c : ascii) : bool :=
  in_range 65 90 c || in_range 192 214 c || in_range 216 222 c.

(** [str.lower()], one character at a time. *)
Definition lower_char (c : ascii) : ascii :=
  if is_upper c then ascii_of_nat (code c + 32) else c.

Definition lower (s : str) : str := map lower_char s.

(** [s.startswith(p)] *)
Fixpoint startswith (p s : str) : bool :=
  match p, s with
  | [], _ => true
  | a :: p', c :: s' => Ascii.eqb a c && startswith p' s'
  | _ :: _, [] => false
  end.

(** [p in s] *)
Fixpoint contains (p s : str) : bool :=
  startswith p s || match s with [] => false | _ :: s' => contains p s' end.

Definition endswith (p s : str) : bool := startswith (rev p) (rev s).

(** [s.lstrip()], [s.rstrip()], [s.strip()] with a set of characters; the
    set is the white space when Python's argument is omitted. *)
Fixpoint lstrip_by (f : ascii -> bool) (s : str) : str :=
  match s with
  | c :: s' => if f c then lstrip_by f s' else s
  | [] => []
  end.

Definition rstrip_by (f : ascii -> bool) (s : str) : str :=
  rev (lstrip_by f (rev s)).

Definition strip_by (f : ascii -> bool) (s : str) : str :=
  rstrip_by f (lstrip_by f s).

Definition strip (s : str) : str := strip_by is_space s.

(** [s.split(sep)] for a one-character separator. *)
Fixpoint split (sep : ascii) (s : str) : list str :=
  match s with
  | [] => [[]]
  | c :: s' =>
      if Ascii.eqb sep c then [] :: split sep s'
      else match split sep s' with
           | l :: ls => (c :: l) :: ls
           | [] => [[c]]
           end
  end.

(** [s.split('\n\n')]: separators are found from left to right and do not
    overlap. *)
Fixpoint split_blank (s : str) : list str :=
  match s with
  | [] => [[]]
  | c :: s' =>
      match s' with
      | c2 :: s'' =>
          if Ascii.eqb c nl && Ascii.eqb c2 nl then [] :: split_blank s''
          else match split_blank s' with
               | l :: ls => (c :: l) :: ls
               | [] => [[c]]
               end
      | [] => [[c]]
      end
  end.

(** [sep.join(parts)] *)
Fixpoint join (sep : str) (parts : list str) : str :=
  match parts with
  | [] => []
  | [p] => p
  | p :: ps => p ++ sep ++ join sep ps
  end.

(** [s.replace(old, new)] for a one-character [old]. *)
Definition replace (old : ascii) (new : str) (s : str) : str :=
  flat_map (fun c => if Ascii.eqb old c then new else [c]) s.

(** [l[1:-1]] *)
Definition slice_1_m1 {A} (l : list A) : list A := removelast (tl l).

End Py.

(* ------------------------------------------------------------------ *)
(** ** Regular expressions with the matching priorities of [re] *)

Module Re.
Import Py.

Inductive re : Type :=
| Eps
| Cls (p : ascii -> bool)       (* one character of a class *)
| Seq (r1 r2 : re)
| Alt (r1 r2 : re)              (* ordered alternation *)
| Star (greedy : bool) (r : re) (* r* and r*? *)
| Grp (n : nat) (r : re)        (* capture group number n *)
| Bol (multiline : bool)        (* ^ *)
| Eol (multiline : bool).       (* $ *)

Definition Plus (greedy : bool) (r : re) : re := Seq r (Star greedy r).
Definition Opt (r : re) : re := Alt r Eps.
Definition Chr (a : ascii) : re := Cls (is_char a).
Definition NotChr (a : ascii) : re := Cls (fun c => negb (is_char a c)).

Fixpoint Lit_chars (s : str) : re :=
  match s with
  | [] => Eps
  | [c] => Chr c
  | c :: s' => Seq (Chr c) (Lit_chars s')
  end.
Definition Lit (s : string) : re := Lit_chars (lit s).

(** [.] without and with DOTALL. *)
Definition Dot : re := NotChr nl.
Definition DotAll : re := Cls (fun _ => true).

(** Captured groups; a group that did not take part is absent. *)
Definition caps := list (nat * str).

Fixpoint group (n : nat) (cs : caps) : option str :=
  match cs with
  | [] => None
  | (k, v) :: cs' => if Nat.eqb k n then Some v else group n cs'
  end.

(** [\n] in a replacement template: an absent group expands to nothing. *)
Definition group_or_empty (n : nat) (cs : caps) : str :=
  match group n cs with Some v => v | None => [] end.

Definition at_bol (multiline : bool) (prev : option ascii) : bool :=
  match prev with
  | None => true
  | Some c => multiline && Ascii.eqb c nl
  end.

Definition at_eol (multiline : bool) (s : str) : bool :=
  match s with
  | [] => true
  | c :: s' =>
      Ascii.eqb c nl && (multiline || match s' with [] => true | _ => false end)
  end.

(** The matcher, in continuation-passing style: [prev] is the character
    before the current position, [s] the rest of the subject. *)
Definition result := (str * caps)%type.
Definition cont := option ascii -> str -> caps -> option result.
Definition matcher := option ascii -> str -> caps -> cont -> option result.

Fixpoint star_loop (body : matcher) (greedy : bool) (fuel : nat) : matcher :=
  fun prev s cs k =>
    match fuel with
    | 0 => k prev s cs
    | S fuel' =>
        let again (_ : unit) :=
          body prev s cs (fun prev' s' cs' =>
            if length s' <? length s
            then star_loop body greedy fuel' prev' s' cs' k
            else None) in
        if greedy then
          match again tt with
          | Some x => Some x
          | None => k prev s cs
          end
        else
          match k prev s cs with
          | Some x => Some x
          | None => again tt
          end
    end.

Fixpoint m (r : re) : matcher :=
  match r with
  | Eps => fun prev s cs k => k prev s cs
  | Cls p => fun prev s cs k =>
      match s with
      | c :: s' => if p c then k (Some c) s' cs else None
      | [] => None
      end
  | Seq r1 r2 => fun prev s cs k =>
      m r1 prev s cs (fun prev' s' cs' => m r2 prev' s' cs' k)
  | Alt r1 r2 => fun prev s cs k =>
      match m r1 prev s cs k with
      | Some x => Some x
      | None => m r2 prev s cs k
      end
  | Star g r1 => fun prev s cs k => star_loop (m r1) g (length s) prev s cs k
  | Grp n r1 => fun prev s cs k =>
      m r1 prev s cs (fun prev' s' cs' =>
        k prev' s' ((n, firstn (length s - length s') s) :: cs'))
  | Bol ml => fun prev s cs k => if at_bol ml prev then k prev s cs else None
  | Eol ml => fun prev s cs k => if at_eol ml s then k prev s cs else None
  end.

(** A match of [r] at the current position: the number of characters it
    takes and its groups. *)
Definition match_at (r : re) (prev : option ascii) (s : str)
  : option (nat * caps) :=
  match m r prev s [] (fun _ s' cs => Some (s', cs)) with
  | Some (s', cs) => Some (length s - length s', cs)
  | None => None
  end.

(** [re.match(r, s)] as a truth value. *)
Definition matches (r : re) (s : str) : bool :=
  match match_at r None s with Some _ => true | None => false end.

(** [re.search(r, s)] as a truth value. *)
Fixpoint search_from (r : re) (prev : option ascii) (s : str) : bool :=
  match match_at r prev s with
  | Some _ => true
  | None => match s with
            | [] => false
            | c :: s' => search_from r (Some c) s'
            end
  end.
Definition search (r : re) (s : str) : bool := search_from r None s.

(** [re.sub(r, repl, s)]: [repl] receives the matched text and the groups.
    [skip] counts the characters of the current match still to be passed
    over; an empty match is replaced and the scan moves on by one
    character. *)
Fixpoint sub_from (r : re) (repl : str -> caps -> str)
    (skip : nat) (prev : option ascii) (s : str) : str :=
  match skip, s with
  | S k, c :: s' => sub_from r repl k (Some c) s'
  | S _, [] => []
  | 0, _ =>
      match match_at r prev s with
      | Some (n, cs) =>
          repl (firstn n s) cs ++
          match n, s with
          | 0, c :: s' => c :: sub_from r repl 0 (Some c) s'
          | S k, c :: s' => sub_from r repl k (Some c) s'
          | _, [] => []
          end
      | None =>
          match s with
          | [] => []
          | c :: s' => c :: sub_from r repl 0 (Some c) s'
          end
      end
  end.

Definition sub (r : re) (repl : str -> caps -> str) (s : str) : str :=
  sub_from r repl 0 None s.

End Re.

(* ------------------------------------------------------------------ *)
(** ** The items that the table loops append to their result *)

Module Markup.
Import Py.

(** What the loop appends to [result]: a tag of its own, a cell, or an
    input line passed through. *)
Inductive elem : Type := Table | Thead | Tbody | Tr.

Inductive out : Type :=
| Open (e : elem)
| Close (e : elem)
| Cell (header : bool) (content : str)
| Line (text : str).

Definition elem_name (e : elem) : str :=
  match e with
  | Table => lit "table"
  | Thead => lit "thead"
  | Tbody => lit "tbody"
  | Tr => lit "tr"
  end.

Definition render (o : out) : str :=
  match o with
  | Open e => lit "<" ++ elem_name e ++ lit ">"
  | Close e => lit "</" ++ elem_name e ++ lit ">"
  | Cell true c => lit "<th>" ++ c ++ lit "</th>"
  | Cell false c => lit "<td>" ++ c ++ lit "</td>"
  | Line l => l
  end.

End Markup.

(* ------------------------------------------------------------------ *)
(** ** utils/generate_kindle.py: the Markdown-to-HTML transducer *)

Module Kindle.
Import Py Re Markup.

(** [text.replace('&', '&amp;').replace('<', '&lt;').replace('>', '&gt;')] *)
Definition escape_html (text : str) : str :=
  replace ">" (lit "&gt;") (replace "<" (lit "&lt;") (replace "&" (lit "&amp;") text)).

(** [<[^>]+>] *)
Definition re_tag : re :=
  Seq (Chr "<") (Seq (Plus true (NotChr ">")) (Chr ">")).

(** [[^\w\s-]] *)
Definition re_special : re :=
  Cls (fun c => negb (is_word c || is_space c || is_char "-" c)).

(** [[-\s]+] *)
Definition re_dashes : re :=
  Plus true (Cls (fun c => is_char "-" c || is_space c)).

Definition create_anchor_id (text : str) : str :=
  let text := sub re_tag (fun _ _ => []) text in
  let text := lower text in
  let text := sub re_special (fun _ _ => []) text in
  let text := sub re_dashes (fun _ _ => lit "-") text in
  strip_by (is_char "-") text.

(** [\d+\.\s] *)
Definition re_numbered : re :=
  Seq (Plus true (Cls is_digit)) (Seq (Chr ".") (Cls is_space)).

Definition wrap_list_items (whole : str) (cs : caps) : str :=
  let content := group_or_empty 1 cs in
  if search re_numbered content
  then lit "<ol>" ++ content ++ lit "</ol>"
  else lit "<ul>" ++ content ++ lit "</ul>".

Definition is_html_block (text : str) : bool :=
  let block_tags :=
    map lit ["<div"; "<section"; "<article"; "<header"; "<footer"; "<nav";
             "<aside"; "<main"; "<pre"; "<blockquote"; "<ul"; "<ol"; "<li";
             "<table"; "<tr"; "<td"; "<th"]%string in
  existsb (fun tag => startswith tag (strip text)) block_tags.

Definition contains_block_elements (text : str) : bool :=
  let block_tags :=
    map lit ["<h1"; "<h2"; "<h3"; "<h4"; "<h5"; "<h6"; "<div"; "<section";
             "<pre"; "<blockquote"; "<ul"; "<ol"; "<table"]%string in
  existsb (fun tag => contains tag text) block_tags.

(** *** convert_tables *)

(** ['|' in line and line.strip().startswith('|') and
    line.strip().endswith('|')] *)
Definition is_table_line (line : str) : bool :=
  contains (lit "|") line && startswith (lit "|") (strip line)
  && endswith (lit "|") (strip line).

(** [^\|[-:\s|]+\|$] *)
Definition re_separator : re :=
  Seq (Bol false)
    (Seq (Chr "|")
       (Seq (Plus true (Cls (fun c => is_char "-" c || is_char ":" c
                                      || is_space c || is_char "|" c)))
          (Seq (Chr "|") (Eol false)))).

Definition is_separator (line : str) : bool := matches re_separator (strip line).

(** [[cell.strip() for cell in line.strip().split('|')[1:-1]]] *)
Definition cells (line : str) : list str :=
  map strip (slice_1_m1 (split "|" (strip line))).

Definition row (header : bool) (line : str) : list out :=
  [Open Tr] ++ map (Cell header) (cells line) ++ [Close Tr].

(** The [for i, line in enumerate(lines)] loop; the rest of [lines] after
    the current one stands for the index [i]. *)
Fixpoint convert_tables_loop (in_table : bool) (lines : list str) : list out :=
  match lines with
  | [] => if in_table then [Close Tbody; Close Table] else []
  | line :: rest =>
      if is_table_line line then
        if negb in_table then
          if match rest with next :: _ => is_separator next | [] => false end
          then
            [Open Table; Open Thead] ++ row true line
            ++ [Close Thead; Open Tbody] ++ convert_tables_loop true rest
          else
            [Open Table; Open Tbody] ++
            (if is_separator line then convert_tables_loop true rest
             else row false line ++ convert_tables_loop true rest)
        else
          if is_separator line then convert_tables_loop true rest
          else row false line ++ convert_tables_loop true rest
      else
        (if in_table then [Close Tbody; Close Table] else [])
        ++ [Line line] ++ convert_tables_loop false rest
  end.

Definition convert_tables_out (html : str) : list out :=
  convert_tables_loop false (split nl html).

Definition convert_tables (html : str) : str :=
  join [nl] (map render (convert_tables_out html)).

(** *** simple_markdown_to_html *)

(** [^<marker>(.*?)$] with MULTILINE *)
Definition re_line (marker : re) : re :=
  Seq (Bol true) (Seq marker (Seq (Grp 1 (Star false Dot)) (Eol true))).

Definition header_repl (tag : string) (whole : str) (cs : caps) : str :=
  lit "<" ++ lit tag ++ lit " id=" ++ [dq]
  ++ create_anchor_id (group_or_empty 1 cs) ++ [dq] ++ lit ">"
  ++ group_or_empty 1 cs ++ lit "</" ++ lit tag ++ lit ">".

(** [```(\w+)?\n(.*?)\n```] with DOTALL *)
Definition re_code_block : re :=
  Seq (Lit "```")
    (Seq (Opt (Grp 1 (Plus true (Cls is_word))))
       (Seq (Chr nl)
          (Seq (Grp 2 (Star false DotAll)) (Seq (Chr nl) (Lit "```"))))).

(** [m.group(1) or "text"] *)
Definition code_block_repl (whole : str) (cs : caps) : str :=
  lit "<pre><code class=" ++ [dq] ++ lit "language-"
  ++ match group 1 cs with
     | Some (c :: l) => c :: l
     | _ => lit "text"
     end
  ++ [dq] ++ lit ">" ++ escape_html (group_or_empty 2 cs)
  ++ lit "</code></pre>".

(** [`([^`]+)`] *)
Definition re_inline_code : re :=
  Seq (Chr "`") (Seq (Grp 1 (Plus true (NotChr "`"))) (Chr "`")).

(** [<delim>(.*?)<delim>] *)
Definition re_emph (delim : string) : re :=
  Seq (Lit delim) (Seq (Grp 1 (Star false Dot)) (Lit delim)).

(** [\[([^\]]+)\]\(([^)]+)\)] *)
Definition re_link : re :=
  Seq (Chr "[")
    (Seq (Grp 1 (Plus true (NotChr "]")))
       (Seq (Lit "](") (Seq (Grp 2 (Plus true (NotChr ")"))) (Chr ")")))).

(** [^(\d+)\. (.*?)$] with MULTILINE *)
Definition re_numbered_item : re :=
  Seq (Bol true)
    (Seq (Grp 1 (Plus true (Cls is_digit)))
       (Seq (Lit ". ") (Seq (Grp 2 (Star false Dot)) (Eol true)))).

(** [^[-*+] (.*?)$] with MULTILINE *)
Definition re_bullet_item : re :=
  re_line (Seq (Cls (fun c => is_char "-" c || is_char "*" c || is_char "+" c))
             (Chr " ")).

(** One group holding [<li>.*?</li>] and then the greedy repetition of
    [\s*<li>.*?</li>], with DOTALL. *)
Definition re_list_items : re :=
  Grp 1
    (Seq (Lit "<li>")
       (Seq (Star false DotAll)
          (Seq (Lit "</li>")
             (Star true
                (Seq (Star true (Cls is_space))
                   (Seq (Lit "<li>")
                      (Seq (Star false DotAll) (Lit "</li>")))))))).

(** [^---+$] with MULTILINE *)
Definition re_rule : re :=
  Seq (Bol true) (Seq (Lit "--") (Seq (Plus true (Chr "-")) (Eol true))).

(** A replacement template [open \n close]. *)
Definition wrap_group (n : nat) (open close : string) (whole : str) (cs : caps)
  : str :=
  lit open ++ group_or_empty n cs ++ lit close.

Definition link_repl (whole : str) (cs : caps) : str :=
  lit "<a href=" ++ [dq] ++ group_or_empty 2 cs ++ [dq] ++ lit ">"
  ++ group_or_empty 1 cs ++ lit "</a>".

(** The body of the [for para in paragraphs] loop. *)
Definition convert_paragraph (para : str) : str :=
  let para := strip para in
  if negb (match para with [] => true | _ => false end)
     && negb (startswith (lit "<") para)
     && negb (startswith (lit "<!--") para)
     && negb (is_html_block para)
  then
    if negb (contains_block_elements para)
    then lit "<p>" ++ para ++ lit "</p>"
    else para
  else para.

Definition simple_markdown_to_html (markdown_content : str) : str :=
  let html := markdown_content in
  (* Convert headers (with IDs for table of contents) *)
  let html := sub (re_line (Lit "# ")) (header_repl "h1") html in
  let html := sub (re_line (Lit "## ")) (header_repl "h2") html in
  let html := sub (re_line (Lit "### ")) (header_repl "h3") html in
  let html := sub (re_line (Lit "#### ")) (header_repl "h4") html in
  let html := sub (re_line (Lit "##### ")) (header_repl "h5") html in
  (* Convert code blocks with language support *)
  let html := sub re_code_block code_block_repl html in
  (* Convert inline code *)
  let html := sub re_inline_code (wrap_group 1 "<code>" "</code>") html in
  (* Convert bold and italic *)
  let html := sub (re_emph "***") (wrap_group 1 "<strong><em>" "</em></strong>") html in
  let html := sub (re_emph "**") (wrap_group 1 "<strong>" "</strong>") html in
  let html := sub (re_emph "*") (wrap_group 1 "<em>" "</em>") html in
  (* Convert links *)
  let html := sub re_link link_repl html in
  (* Convert numbered lists *)
  let html := sub re_numbered_item (wrap_group 2 "<li>" "</li>") html in
  (* Convert bullet lists *)
  let html := sub re_bullet_item (wrap_group 1 "<li>" "</li>") html in
  (* Wrap consecutive list items in ul/ol tags *)
  let html := sub re_list_items wrap_list_items html in
  (* Convert blockquotes *)
  let html := sub (re_line (Lit "> ")) (wrap_group 1 "<blockquote>" "</blockquote>") html in
  (* Convert horizontal rules *)
  let html := sub re_rule (fun _ _ => lit "<hr>") html in
  (* Convert tables (basic support) *)
  let html := convert_tables html in
  (* Convert paragraphs (preserve existing HTML tags) *)
  let paragraphs := split_blank html in
  let html_paragraphs := map convert_paragraph paragraphs in
  join [nl; nl] html_paragraphs.

End Kindle.


(* ------------------------------------------------------------------ *)
(** ** utils/generate_html_flexible.py: the same transducer, as that file has it *)

Module HtmlFlexibleUtils.
Import Py Re Markup.

(** [text.replace('&', '&amp;').replace('<', '&lt;').replace('>', '&gt;')] *)
Definition escape_html (text : str) : str :=
  replace ">" (lit "&gt;") (replace "<" (lit "&lt;") (replace "&" (lit "&amp;") text)).

(** [<[^>]+>] *)
Definition re_tag : re :=
  Seq (Chr "<") (Seq (Plus true (NotChr ">")) (Chr ">")).

(** [[^\w\s-]] *)
Definition re_special : re :=
  Cls (fun c => negb (is_word c || is_space c || is_char "-" c)).

(** [[-\s]+] *)
Definition re_dashes : re :=
  Plus true (Cls (fun c => is_char "-" c || is_space c)).

Definition create_anchor_id (text : str) : str :=
  let text := sub re_tag (fun _ _ => []) text in
  let text := lower text in
  let text := sub re_special (fun _ _ => []) text in
  let text := sub re_dashes (fun _ _ => lit "-") text in
  strip_by (is_char "-") text.

(** [\d+\.\s] *)
Definition re_numbered : re :=
  Seq (Plus true (Cls is_digit)) (Seq (Chr ".") (Cls is_space)).

Definition wrap_list_items (whole : str) (cs : caps) : str :=
  let content := group_or_empty 1 cs in
  if search re_numbered content
  then lit "<ol>" ++ content ++ lit "</ol>"
  else lit "<ul>" ++ content ++ lit "</ul>".

Definition is_html_block (text : str) : bool :=
  let block_tags :=
    map lit ["<div"; "<section"; "<article"; "<header"; "<footer"; "<nav";
             "<aside"; "<main"; "<pre"; "<blockquote"; "<ul"; "<ol"; "<li";
             "<table"; "<tr"; "<td"; "<th"]%string in
  existsb (fun tag => startswith tag (strip text)) block_tags.

Definition contains_block_elements (text : str) : bool :=
  let block_tags :=
    map lit ["<h1"; "<h2"; "<h3"; "<h4"; "<h5"; "<h6"; "<div"; "<section";
             "<pre"; "<blockquote"; "<ul"; "<ol"; "<table"]%string in
  existsb (fun tag => contains tag text) block_tags.

(** *** convert_tables *)

(** ['|' in line and line.strip().startswith('|') and
    line.strip().endswith('|')] *)
Definition is_table_line (line : str) : bool :=
  contains (lit "|") line && startswith (lit "|") (strip line)
  && endswith (lit "|") (strip line).

(** [^\|[-:\s|]+\|$] *)
Definition re_separator : re :=
  Seq (Bol false)
    (Seq (Chr "|")
       (Seq (Plus true (Cls (fun c => is_char "-" c || is_char ":" c
                                      || is_space c || is_char "|" c)))
          (Seq (Chr "|") (Eol false)))).

Definition is_separator (line : str) : bool := matches re_separator (strip line).

(** [[cell.strip() for cell in line.strip().split('|')[1:-1]]] *)
Definition cells (line : str) : list str :=
  map strip (slice_1_m1 (split "|" (strip line))).

Definition row (header : bool) (line : str) : list out :=
  [Open Tr] ++ map (Cell header) (cells line) ++ [Close Tr].

(** The [for i, line in enumerate(lines)] loop; the rest of [lines] after
    the current one stands for the index [i]. *)
Fixpoint convert_tables_loop (in_table : bool) (lines : list str) : list out :=
  match lines with
  | [] => if in_table then [Close Tbody; Close Table] else []
  | line :: rest =>
      if is_table_line line then
        if negb in_table then
          if match rest with next :: _ => is_separator next | [] => false end
          then
            [Open Table; Open Thead] ++ row true line
            ++ [Close Thead; Open Tbody] ++ convert_tables_loop true rest
          else
            [Open Table; Open Tbody] ++
            (if is_separator line then convert_tables_loop true rest
             else row false line ++ convert_tables_loop true rest)
        else
          if is_separator line then convert_tables_loop true rest
          else row false line ++ convert_tables_loop true rest
      else
        (if in_table then [Close Tbody; Close Table] else [])
        ++ [Line line] ++ convert_tables_loop false rest
  end.

Definition convert_tables_out (html : str) : list out :=
  convert_tables_loop false (split nl html).

Definition convert_tables (html : str) : str :=
  join [nl] (map render (convert_tables_out html)).

(** *** simple_markdown_to_html *)

(** [^<marker>(.*?)$] with MULTILINE *)
Definition re_line (marker : re) : re :=
  Seq (Bol true) (Seq marker (Seq (Grp 1 (Star false Dot)) (Eol true))).

Definition header_repl (tag : string) (whole : str) (cs : caps) : str :=
  lit "<" ++ lit tag ++ lit " id=" ++ [dq]
  ++ create_anchor_id (group_or_empty 1 cs) ++ [dq] ++ lit ">"
  ++ group_or_empty 1 cs ++ lit "</" ++ lit tag ++ lit ">".

(** [```(\w+)?\n(.*?)\n```] with DOTALL *)
Definition re_code_block : re :=
  Seq (Lit "```")
    (Seq (Opt (Grp 1 (Plus true (Cls is_word))))
       (Seq (Chr nl)
          (Seq (Grp 2 (Star false DotAll)) (Seq (Chr nl) (Lit "```"))))).

(** [m.group(1) or "text"] *)
Definition code_block_repl (whole : str) (cs : caps) : str :=
  lit "<pre><code class=" ++ [dq] ++ lit "language-"
  ++ match group 1 cs with
     | Some (c :: l) => c :: l
     | _ => lit "text"
     end
  ++ [dq] ++ lit ">" ++ escape_html (group_or_empty 2 cs)
  ++ lit "</code></pre>".

(** [`([^`]+)`] *)
Definition re_inline_code : re :=
  Seq (Chr "`") (Seq (Grp 1 (Plus true (NotChr "`"))) (Chr "`")).

(** [<delim>(.*?)<delim>] *)
Definition re_emph (delim : string) : re :=
  Seq (Lit delim) (Seq (Grp 1 (Star false Dot)) (Lit delim)).

(** [\[([^\]]+)\]\(([^)]+)\)] *)
Definition re_link : re :=
  Seq (Chr "[")
    (Seq (Grp 1 (Plus true (NotChr "]")))
       (Seq (Lit "](") (Seq (Grp 2 (Plus true (NotChr ")"))) (Chr ")")))).

(** [^(\d+)\. (.*?)$] with MULTILINE *)
Definition re_numbered_item : re :=
  Seq (Bol true)
    (Seq (Grp 1 (Plus true (Cls is_digit)))
       (Seq (Lit ". ") (Seq (Grp 2 (Star false Dot)) (Eol true)))).

(** [^[-*+] (.*?)$] with MULTILINE *)
Definition re_bullet_item : re :=
  re_line (Seq (Cls (fun c => is_char "-" c || is_char "*" c || is_char "+" c))
             (Chr " ")).

(** One group holding [<li>.*?</li>] and then the greedy repetition of
    [\s*<li>.*?</li>], with DOTALL. *)
Definition re_list_items : re :=
  Grp 1
    (Seq (Lit "<li>")
       (Seq (Star false DotAll)
          (Seq (Lit "</li>")
             (Star true
                (Seq (Star true (Cls is_space))
                   (Seq (Lit "<li>")
                      (Seq (Star false DotAll) (Lit "</li>")))))))).

(** [^---+$] with MULTILINE *)
Definition re_rule : re :=
  Seq (Bol true) (Seq (Lit "--") (Seq (Plus true (Chr "-")) (Eol true))).

(** A replacement template [open \n close]. *)
Definition wrap_group (n : nat) (open close : string) (whole : str) (cs : caps)
  : str :=
  lit open ++ group_or_empty n cs ++ lit close.

Definition link_repl (whole : str) (cs : caps) : str :=
  lit "<a href=" ++ [dq] ++ group_or_empty 2 cs ++ [dq] ++ lit ">"
  ++ group_or_empty 1 cs ++ lit "</a>".

(** The body of the [for para in paragraphs] loop. *)
Definition convert_paragraph (para : str) : str :=
  let para := strip para in
  if negb (match para with [] => true | _ => false end)
     && negb (startswith (lit "<") para)
     && negb (startswith (lit "<!--") para)
     && negb (is_html_block para)
  then
    if negb (contains_block_elements para)
    then lit "<p>" ++ para ++ lit "</p>"
    else para
  else para.

Definition simple_markdown_to_html (markdown_content : str) : str :=
  let html := markdown_content in
  (* Convert headers (with IDs for table of contents) *)
  let html := sub (re_line (Lit "# ")) (header_repl "h1") html in
  let html := sub (re_line (Lit "## ")) (header_repl "h2") html in
  let html := sub (re_line (Lit "### ")) (header_repl "h3") html in
  let html := sub (re_line (Lit "#### ")) (header_repl "h4") html in
  let html := sub (re_line (Lit "##### ")) (header_repl "h5") html in
  (* Convert code blocks with language support *)
  let html := sub re_code_block code_block_repl html in
  (* Convert inline code *)
  let html := sub re_inline_code (wrap_group 1 "<code>" "</code>") html in
  (* Convert bold and italic *)
  let html := sub (re_emph "***") (wrap_group 1 "<strong><em>" "</em></strong>") html in
  let html := sub (re_emph "**") (wrap_group 1 "<strong>" "</strong>") html in
  let html := sub (re_emph "*") (wrap_group 1 "<em>" "</em>") html in
  (* Convert links *)
  let html := sub re_link link_repl html in
  (* Convert numbered lists *)
  let html := sub re_numbered_item (wrap_group 2 "<li>" "</li>") html in
  (* Convert bullet lists *)
  let html := sub re_bullet_item (wrap_group 1 "<li>" "</li>") html in
  (* Wrap consecutive list items in ul/ol tags *)
  let html := sub re_list_items wrap_list_items html in
  (* Convert blockquotes *)
  let html := sub (re_line (Lit "> ")) (wrap_group 1 "<blockquote>" "</blockquote>") html in
  (* Convert horizontal rules *)
  let html := sub re_rule (fun _ _ => lit "<hr>") html in
  (* Convert tables (basic support) *)
  let html := convert_tables html in
  (* Convert paragraphs (preserve existing HTML tags) *)
  let paragraphs := split_blank html in
  let html_paragraphs := map convert_paragraph paragraphs in
  join [nl; nl] html_paragraphs.

End HtmlFlexibleUtils.

(* ------------------------------------------------------------------ *)
(** ** src/generate_html_flexible.py: the same transducer, as that file has it *)

Module HtmlFlexibleSrc.
Import Py Re Markup.

(** [text.replace('&', '&amp;').replace('<', '&lt;').replace('>', '&gt;')] *)
Definition escape_html (text : str) : str :=
  replace ">" (lit "&gt;") (replace "<" (lit "&lt;") (replace "&" (lit "&amp;") text)).

(** [<[^>]+>] *)
Definition re_tag : re :=
  Seq (Chr "<") (Seq (Plus true (NotChr ">")) (Chr ">")).

(** [[^\w\s-]] *)
Definition re_special : re :=
  Cls (fun c => negb (is_word c || is_space c || is_char "-" c)).

(** [[-\s]+] *)
Definition re_dashes : re :=
  Plus true (Cls (fun c => is_char "-" c || is_space c)).

Definition create_anchor_id (text : str) : str :=
  let text := sub re_tag (fun _ _ => []) text in
  let text := lower text in
  let text := sub re_special (fun _ _ => []) text in
  let text := sub re_dashes (fun _ _ => lit "-") text in
  strip_by (is_char "-") text.

(** [\d+\.\s] *)
Definition re_numbered : re :=
  Seq (Plus true (Cls is_digit)) (Seq (Chr ".") (Cls is_space)).

Definition wrap_list_items (whole : str) (cs : caps) : str :=
  let content := group_or_empty 1 cs in
  if search re_numbered content
  then lit "<ol>" ++ content ++ lit "</ol>"
  else lit "<ul>" ++ content ++ lit "</ul>".

Definition is_html_block (text : str) : bool :=
  let block_tags :=
    map lit ["<div"; "<section"; "<article"; "<header"; "<footer"; "<nav";
             "<aside"; "<main"; "<pre"; "<blockquote"; "<ul"; "<ol"; "<li";
             "<table"; "<tr"; "<td"; "<th"]%string in
  existsb (fun tag => startswith tag (strip text)) block_tags.

Definition contains_block_elements (text : str) : bool :=
  let block_tags :=
    map lit ["<h1"; "<h2"; "<h3"; "<h4"; "<h5"; "<h6"; "<div"; "<section";
             "<pre"; "<blockquote"; "<ul"; "<ol"; "<table"]%string in
  existsb (fun tag => contains tag text) block_tags.

(** *** convert_tables *)

(** ['|' in line and line.strip().startswith('|') and
    line.strip().endswith('|')] *)
Definition is_table_line (line : str) : bool :=
  contains (lit "|") line && startswith (lit "|") (strip line)
  && endswith (lit "|") (strip line).

(** [^\|[-:\s|]+\|$] *)
Definition re_separator : re :=
  Seq (Bol false)
    (Seq (Chr "|")
       (Seq (Plus true (Cls (fun c => is_char "-" c || is_char ":" c
                                      || is_space c || is_char "|" c)))
          (Seq (Chr "|") (Eol false)))).

Definition is_separator (line : str) : bool := matches re_separator (strip line).

(** [[cell.strip() for cell in line.strip().split('|')[1:-1]]] *)
Definition cells (line : str) : list str :=
  map strip (slice_1_m1 (split "|" (strip line))).

Definition row (header : bool) (line : str) : list out :=
  [Open Tr] ++ map (Cell header) (cells line) ++ [Close Tr].

(** The [for i, line in enumerate(lines)] loop; the rest of [lines] after
    the current one stands for the index [i]. *)
Fixpoint convert_tables_loop (in_table : bool) (lines : list str) : list out :=
  match lines with
  | [] => if in_table then [Close Tbody; Close Table] else []
  | line :: rest =>
      if is_table_line line then
        if negb in_table then
          if match rest with next :: _ => is_separator next | [] => false end
          then
            [Open Table; Open Thead] ++ row true line
            ++ [Close Thead; Open Tbody] ++ convert_tables_loop true rest
          else
            [Open Table; Open Tbody] ++
            (if is_separator line then convert_tables_loop true rest
             else row false line ++ convert_tables_loop true rest)
        else
          if is_separator line then convert_tables_loop true rest
          else row false line ++ convert_tables_loop true rest
      else
        (if in_table then [Close Tbody; Close Table] else [])
        ++ [Line line] ++ convert_tables_loop false rest
  end.

Definition convert_tables_out (html : str) : list out :=
  convert_tables_loop false (split nl html).

Definition convert_tables (html : str) : str :=
  join [nl] (map render (convert_tables_out html)).

(** *** simple_markdown_to_html *)

(** [^<marker>(.*?)$] with MULTILINE *)
Definition re_line (marker : re) : re :=
  Seq (Bol true) (Seq marker (Seq (Grp 1 (Star false Dot)) (Eol true))).

Definition header_repl (tag : string) (whole : str) (cs : caps) : str :=
  lit "<" ++ lit tag ++ lit " id=" ++ [dq]
  ++ create_anchor_id (group_or_empty 1 cs) ++ [dq] ++ lit ">"
  ++ group_or_empty 1 cs ++ lit "</" ++ lit tag ++ lit ">".

(** [```(\w+)?\n(.*?)\n```] with DOTALL *)
Definition re_code_block : re :=
  Seq (Lit "```")
    (Seq (Opt (Grp 1 (Plus true (Cls is_word))))
       (Seq (Chr nl)
          (Seq (Grp 2 (Star false DotAll)) (Seq (Chr nl) (Lit "```"))))).

(** [m.group(1) or "text"] *)
Definition code_block_repl (whole : str) (cs : caps) : str :=
  lit "<pre><code class=" ++ [dq] ++ lit "language-"
  ++ match group 1 cs with
     | Some (c :: l) => c :: l
     | _ => lit "text"
     end
  ++ [dq] ++ lit ">" ++ escape_html (group_or_empty 2 cs)
  ++ lit "</code></pre>".

(** [`([^`]+)`] *)
Definition re_inline_code : re :=
  Seq (Chr "`") (Seq (Grp 1 (Plus true (NotChr "`"))) (Chr "`")).

(** [<delim>(.*?)<delim>] *)
Definition re_emph (delim : string) : re :=
  Seq (Lit delim) (Seq (Grp 1 (Star false Dot)) (Lit delim)).

(** [\[([^\]]+)\]\(([^)]+)\)] *)
Definition re_link : re :=
  Seq (Chr "[")
    (Seq (Grp 1 (Plus true (NotChr "]")))
       (Seq (Lit "](") (Seq (Grp 2 (Plus true (NotChr ")"))) (Chr ")")))).

(** [^(\d+)\. (.*?)$] with MULTILINE *)
Definition re_numbered_item : re :=
  Seq (Bol true)
    (Seq (Grp 1 (Plus true (Cls is_digit)))
       (Seq (Lit ". ") (Seq (Grp 2 (Star false Dot)) (Eol true)))).

(** [^[-*+] (.*?)$] with MULTILINE *)
Definition re_bullet_item : re :=
  re_line (Seq (Cls (fun c => is_char "-" c || is_char "*" c || is_char "+" c))
             (Chr " ")).

(** One group holding [<li>.*?</li>] and then the greedy repetition of
    [\s*<li>.*?</li>], with DOTALL. *)
Definition re_list_items : re :=
  Grp 1
    (Seq (Lit "<li>")
       (Seq (Star false DotAll)
          (Seq (Lit "</li>")
             (Star true
                (Seq (Star true (Cls is_space))
                   (Seq (Lit "<li>")
                      (Seq (Star false DotAll) (Lit "</li>")))))))).

(** [^---+$] with MULTILINE *)
Definition re_rule : re :=
  Seq (Bol true) (Seq (Lit "--") (Seq (Plus true (Chr "-")) (Eol true))).

(** A replacement template [open \n close]. *)
Definition wrap_group (n : nat) (open close : string) (whole : str) (cs : caps)
  : str :=
  lit open ++ group_or_empty n cs ++ lit close.

Definition link_repl (whole : str) (cs : caps) : str :=
  lit "<a href=" ++ [dq] ++ group_or_empty 2 cs ++ [dq] ++ lit ">"
  ++ group_or_empty 1 cs ++ lit "</a>".

(** The body of the [for para in paragraphs] loop. *)
Definition convert_paragraph (para : str) : str :=
  let para := strip para in
  if negb (match para with [] => true | _ => false end)
     && negb (startswith (lit "<") para)
     && negb (startswith (lit "<!--") para)
     && negb (is_html_block para)
  then
    if negb (contains_block_elements para)
    then lit "<p>" ++ para ++ lit "</p>"
    else para
  else para.

Definition simple_markdown_to_html (markdown_content : str) : str :=
  let html := markdown_content in
  (* Convert headers (with IDs for table of contents) *)
  let html := sub (re_line (Lit "# ")) (header_repl "h1") html in
  let html := sub (re_line (Lit "## ")) (header_repl "h2") html in
  let html := sub (re_line (Lit "### ")) (header_repl "h3") html in
  let html := sub (re_line (Lit "#### ")) (header_repl "h4") html in
  let html := sub (re_line (Lit "##### ")) (header_repl "h5") html in
  (* Convert code blocks with language support *)
  let html := sub re_code_block code_block_repl html in
  (* Convert inline code *)
  let html := sub re_inline_code (wrap_group 1 "<code>" "</code>") html in
  (* Convert bold and italic *)
  let html := sub (re_emph "***") (wrap_group 1 "<strong><em>" "</em></strong>") html in
  let html := sub (re_emph "**") (wrap_group 1 "<strong>" "</strong>") html in
  let html := sub (re_emph "*") (wrap_group 1 "<em>" "</em>") html in
  (* Convert links *)
  let html := sub re_link link_repl html in
  (* Convert numbered lists *)
  let html := sub re_numbered_item (wrap_group 2 "<li>" "</li>") html in
  (* Convert bullet lists *)
  let html := sub re_bullet_item (wrap_group 1 "<li>" "</li>") html in
  (* Wrap consecutive list items in ul/ol tags *)
  let html := sub re_list_items wrap_list_items html in
  (* Convert blockquotes *)
  let html := sub (re_line (Lit "> ")) (wrap_group 1 "<blockquote>" "</blockquote>") html in
  (* Convert horizontal rules *)
  let html := sub re_rule (fun _ _ => lit "<hr>") html in
  (* Convert tables (basic support) *)
  let html := convert_tables html in
  (* Convert paragraphs (preserve existing HTML tags) *)
  let paragraphs := split_blank html in
  let html_paragraphs := map convert_paragraph paragraphs in
  join [nl; nl] html_paragraphs.

End HtmlFlexibleSrc.

(* ------------------------------------------------------------------ *)
(** ** utils/generate_html.py: the simple transducer *)

Module GenerateHtml.
Import Py Re.

(** [^<marker>(.*?)$] with MULTILINE *)
Definition re_line (marker : re) : re :=
  Seq (Bol true) (Seq marker (Seq (Grp 1 (Star false Dot)) (Eol true))).

(** [```(\w+)?\n(.*?)\n```] with DOTALL *)
Definition re_code_block : re :=
  Seq (Lit "```")
    (Seq (Opt (Grp 1 (Plus true (Cls is_word))))
       (Seq (Chr nl)
          (Seq (Grp 2 (Star false DotAll)) (Seq (Chr nl) (Lit "```"))))).

(** [`([^`]+)`] *)
Definition re_inline_code : re :=
  Seq (Chr "`") (Seq (Grp 1 (Plus true (NotChr "`"))) (Chr "`")).

(** [<delim>(.*?)<delim>] *)
Definition re_emph (delim : string) : re :=
  Seq (Lit delim) (Seq (Grp 1 (Star false Dot)) (Lit delim)).

(** [(<li>.*?</li>)] with DOTALL *)
Definition re_list_item : re :=
  Grp 1 (Seq (Lit "<li>") (Seq (Star false DotAll) (Lit "</li>"))).

(** A replacement template [open \n close]. *)
Definition wrap_group (n : nat) (open close : string) (whole : str) (cs : caps)
  : str :=
  lit open ++ group_or_empty n cs ++ lit close.

(** The body of the [for para in paragraphs] loop. *)
Definition convert_paragraph (para : str) : str :=
  let para := strip para in
  if negb (match para with [] => true | _ => false end)
     && negb (startswith (lit "<") para)
     && negb (startswith (lit "<!--") para)
  then lit "<p>" ++ para ++ lit "</p>"
  else para.

Definition simple_markdown_to_html (markdown_content : str) : str :=
  let html := markdown_content in
  (* Convert headers *)
  let html := sub (re_line (Lit "# ")) (wrap_group 1 "<h1>" "</h1>") html in
  let html := sub (re_line (Lit "## ")) (wrap_group 1 "<h2>" "</h2>") html in
  let html := sub (re_line (Lit "### ")) (wrap_group 1 "<h3>" "</h3>") html in
  let html := sub (re_line (Lit "#### ")) (wrap_group 1 "<h4>" "</h4>") html in
  (* Convert code blocks *)
  let html := sub re_code_block (wrap_group 2 "<pre><code>" "</code></pre>") html in
  (* Convert inline code *)
  let html := sub re_inline_code (wrap_group 1 "<code>" "</code>") html in
  (* Convert bold and italic *)
  let html := sub (re_emph "**") (wrap_group 1 "<strong>" "</strong>") html in
  let html := sub (re_emph "*") (wrap_group 1 "<em>" "</em>") html in
  (* Convert lists *)
  let html := sub (re_line (Lit "- ")) (wrap_group 1 "<li>" "</li>") html in
  let html := sub re_list_item (wrap_group 1 "<ul>" "</ul>") html in
  (* Convert paragraphs *)
  let paragraphs := split_blank html in
  let html_paragraphs := map convert_paragraph paragraphs in
  join [nl; nl] html_paragraphs.

End GenerateHtml.

(* ------------------------------------------------------------------ *)
(** ** The command-line drivers

    A script runs against a file system that it reads; it prints lines,
    writes files, and ends by returning, by [sys.exit] or by an exception
    that nothing catches.  The pictographs that begin some of the printed
    lines are left out of the texts. *)

Module Os.
Import Py.

Definition path := str.

(** An entry of [Path(dir).glob(pattern)]. *)
Record entry : Type := { e_path : path; e_name : str; e_stem : str }.

Record world : Type := {
  exists_ : path -> bool;                  (* Path.exists, os.path.exists *)
  is_dir : path -> bool;                   (* Path.is_dir *)
  glob : path -> string -> list entry;     (* Path(dir).glob(pattern) *)
  read_text : path -> str + str;           (* open(p).read(): the exception
                                              text or the content *)
  write_text : path -> str -> option str;  (* open(p, 'w').write(s): the
                                              exception text, if it raises *)
  mkdir_ : bool -> path -> option str      (* Path(p).mkdir(parents=...,
                                              exist_ok=True): the exception
                                              text, if it raises *)
}.

(** What is raised: an [Exception] with its text, or [SystemExit]. *)
Inductive raised : Type :=
| Error (e : str)
| SystemExit (status : nat).

(** A computation: the lines printed, the files written, and the value
    returned or what was raised. *)
Definition step (A : Type) : Type :=
  (list str * list (path * str) * (raised + A))%type.

Definition ret {A} (a : A) : step A := ([], [], inr a).

Definition bind {A B} (c : step A) (k : A -> step B) : step B :=
  match c with
  | (out, wr, inl r) => (out, wr, inl r)
  | (out, wr, inr a) =>
      match k a with
      | (out', wr', r) => (out ++ out', wr ++ wr', r)
      end
  end.

Definition print (line : str) : step unit := ([line], [], inr tt).
Definition raise {A} (r : raised) : step A := ([], [], inl r).
Definition sys_exit {A} (status : nat) : step A := raise (SystemExit status).

Definition read (w : world) (p : path) : step str :=
  match read_text w p with
  | inl e => raise (Error e)
  | inr content => ret content
  end.

Definition write (w : world) (p : path) (content : str) : step unit :=
  match write_text w p content with
  | Some e => raise (Error e)
  | None => ([], [(p, content)], inr tt)
  end.

(** [Path(p).mkdir(parents=parents, exist_ok=True)] *)
Definition mkdir (w : world) (parents : bool) (p : path) : step unit :=
  match mkdir_ w parents p with
  | Some e => raise (Error e)
  | None => ret tt
  end.

(** [try: body except Exception as e: handler(e)] *)
Definition try_except {A} (body : step A) (handler : str -> step A) : step A :=
  match body with
  | (out, wr, inl (Error e)) =>
      match handler e with
      | (out', wr', r) => (out ++ out', wr ++ wr', r)
      end
  | other => other
  end.

(** [for x in l: st = body(x, st)] *)
Fixpoint for_each {A S} (l : list A) (body : A -> S -> step S) (st : S)
  : step S :=
  match l with
  | [] => ret st
  | x :: l' => bind (body x st) (for_each l' body)
  end.

(** How a run of a script ends. *)
Inductive outcome : Type :=
| Returned
| Exited (status : nat)
| Uncaught (e : str).

Definition outcome_of {A} (c : step A) : outcome :=
  match c with
  | (_, _, inr _) => Returned
  | (_, _, inl (SystemExit n)) => Exited n
  | (_, _, inl (Error e)) => Uncaught e
  end.

(** The exit status of the process: 0 on return, the argument of
    [sys.exit], 1 after a traceback. *)
Definition exit_status {A} (c : step A) : nat :=
  match outcome_of c with
  | Returned => 0
  | Exited n => n
  | Uncaught _ => 1
  end.

Definition console {A} (c : step A) : list str := fst (fst c).
Definition written {A} (c : step A) : list (path * str) := snd (fst c).

(** [dir / name] *)
Definition child (dir : path) (name : str) : path := dir ++ lit "/" ++ name.

(** [str(n)] *)
Definition str_of_nat (n : nat) : str :=
  list_ascii_of_string (NilEmpty.string_of_uint (Nat.to_uint n)).

(** The order of [str]: by code points, a prefix first. *)
Fixpoint str_leb (a b : str) : bool :=
  match a, b with
  | [], _ => true
  | _ :: _, [] => false
  | x :: a', y :: b' =>
      if code x <? code y then true
      else if code y <? code x then false
      else str_leb a' b'
  end.

(** Paths of one directory are ordered by their names. *)
Definition entry_leb (a b : entry) : bool := str_leb (e_name a) (e_name b).

Fixpoint insert (x : entry) (l : list entry) : list entry :=
  match l with
  | [] => [x]
  | y :: l' => if entry_leb x y then x :: l else y :: insert x l'
  end.

(** [sorted(l)] and [l.sort()] *)
Definition sorted (l : list entry) : list entry := fold_right insert [] l.

Definition str_eqb (a b : str) : bool :=
  if list_eq_dec ascii_dec a b then true else false.

End Os.

Declare Scope step_scope.
Delimit Scope step_scope with step.
Notation "x <- c ;; k" := (Os.bind c (fun x => k))
  (at level 61, c at next level, right associativity) : step_scope.
Notation "c ;; k" := (Os.bind c (fun _ => k))
  (at level 61, right associativity) : step_scope.

(** *** src/convert_ascii_to_html.py *)

Module AsciiArt.
Import Py Os.
Local Open Scope step_scope.

Record info : Type := {
  title : str; filename : str; source_file : str; content : str
}.

Section Script.
Variable w : world.
Variable extract_title_from_content : str -> str.
Variable create_html_from_ascii : str -> str -> str -> str.
Variable create_index_html : list info -> path -> str.

(** The body of the loop over the files. *)
Definition convert_file (output_path : path) (ascii_file : entry)
    (st : list info * nat) : step (list info * nat) :=
  let '(diagrams_info, converted_count) := st in
  print (lit "Processing: " ++ e_name ascii_file) ;;
  try_except
    (content <- read w (e_path ascii_file) ;;
     if match strip content with [] => true | _ => false end then
       print (lit "Skipping empty file: " ++ e_name ascii_file) ;;
       ret st
     else
       let title := extract_title_from_content content in
       print (lit "Extracted title: " ++ title) ;;
       let html_filename := e_stem ascii_file ++ lit ".html" in
       let html_path := child output_path html_filename in
       let html_content :=
         create_html_from_ascii content title (e_name ascii_file) in
       write w html_path html_content ;;
       print (lit "Created: " ++ html_filename) ;;
       ret (diagrams_info
              ++ [{| title := title; filename := html_filename;
                     source_file := e_name ascii_file;
                     content := firstn 1000 content |}],
            S converted_count))
    (fun e =>
       print (lit "Error processing " ++ e_name ascii_file ++ lit ": " ++ e) ;;
       ret st).

Definition convert_ascii_to_html (input_folder output_folder : path)
  : step unit :=
  if negb (exists_ w input_folder) then
    print (lit "Input folder not found: " ++ input_folder) ;;
    ret tt
  else
    mkdir w true output_folder ;;
    print (lit "ASCII Art to HTML Converter - Academic Style") ;;
    print (lit "Input:  " ++ input_folder) ;;
    print (lit "Output: " ++ output_folder) ;;
    print [] ;;
    let ascii_files := glob w input_folder "*.txt" ++ glob w input_folder "*.md" in
    match ascii_files with
    | [] =>
        print (lit "No ASCII art files found (.txt or .md)") ;;
        ret tt
    | _ =>
        print (lit "Found " ++ str_of_nat (length ascii_files)
               ++ lit " ASCII art files") ;;
        st <- for_each (sorted ascii_files) (convert_file output_folder) ([], 0) ;;
        let '(diagrams_info, converted_count) := st in
        (match diagrams_info with
         | [] => ret tt
         | _ =>
             print (lit "Creating index...") ;;
             write w (child output_folder (lit "index.html"))
               (create_index_html diagrams_info output_folder) ;;
             print (lit "Created: index.html")
         end) ;;
        print [] ;;
        print (lit "Conversion complete!") ;;
        print (lit "Summary:") ;;
        print (lit "   " ++ str_of_nat converted_count ++ lit " files converted") ;;
        print (lit "   " ++ str_of_nat (length diagrams_info)
               ++ lit " diagrams processed") ;;
        print (lit "   Output folder: " ++ output_folder) ;;
        print (lit "   Open " ++ output_folder ++ lit "/index.html in your browser")
    end.

(** [argv] is [sys.argv]. *)
Definition main (argv : list str) : step unit :=
  match argv with
  | [_; input_folder; output_folder] =>
      convert_ascii_to_html input_folder output_folder
  | _ =>
      print (lit "Usage: python convert_ascii_to_html.py <input_folder> <output_folder>") ;;
      print (lit "Example: python convert_ascii_to_html.py docs/ascii-art docs/ascii-html") ;;
      sys_exit 1
  end.

End Script.
End AsciiArt.

(** *** src/convert_mermaid_to_html.py *)

Module Mermaid.
Import Py Os.
Local Open Scope step_scope.

Record info : Type := {
  filename : str; title : str; diagram_count : nat; source : str
}.

Section Script.
Variable w : world.
Variable extract_mermaid_from_markdown : str -> list str.
Variable extract_title_from_markdown : str -> str.
Variable create_html_template : str -> list str -> str -> str.
Variable create_index_html : path -> list info -> str.

Definition convert_file (output_path : path) (md_file : entry)
    (st : list info * nat) : step (list info * nat) :=
  let '(converted_files, total_diagrams) := st in
  print (lit "Processing: " ++ e_name md_file) ;;
  try_except
    (content <- read w (e_path md_file) ;;
     let mermaid_diagrams := extract_mermaid_from_markdown content in
     match mermaid_diagrams with
     | [] =>
         print (lit "No Mermaid diagrams found in " ++ e_name md_file) ;;
         ret st
     | _ =>
         let title := extract_title_from_markdown content in
         print (lit "Found " ++ str_of_nat (length mermaid_diagrams)
                ++ lit " diagram(s) in " ++ e_name md_file) ;;
         let html_content :=
           create_html_template title mermaid_diagrams (e_name md_file) in
         let output_name := e_stem md_file ++ lit ".html" in
         write w (child output_path output_name) html_content ;;
         print (lit "Created: " ++ output_name) ;;
         ret (converted_files
                ++ [{| filename := output_name; title := title;
                       diagram_count := length mermaid_diagrams;
                       source := e_name md_file |}],
              total_diagrams + length mermaid_diagrams)
     end)
    (fun e =>
       print (lit "Error processing " ++ e_name md_file ++ lit ": " ++ e) ;;
       ret st).

Definition convert_mermaid_files (input_folder output_folder : path)
  : step bool :=
  mkdir w true output_folder ;;
  if negb (exists_ w input_folder) then
    print (lit "Error: Input folder '" ++ input_folder ++ lit "' does not exist") ;;
    ret false
  else
    let markdown_files := glob w input_folder "*.md" in
    match markdown_files with
    | [] =>
        print (lit "No markdown files found in '" ++ input_folder ++ lit "'") ;;
        ret false
    | _ =>
        print (lit "Found " ++ str_of_nat (length markdown_files)
               ++ lit " markdown files") ;;
        st <- for_each markdown_files (convert_file output_folder) ([], 0) ;;
        let '(converted_files, total_diagrams) := st in
        match converted_files with
        | [] =>
            print (lit "No files were successfully converted") ;;
            ret false
        | _ =>
            write w (child output_folder (lit "index.html"))
              (create_index_html output_folder converted_files) ;;
            print (lit "Created index: index.html") ;;
            print ([nl] ++ lit "Conversion complete!") ;;
            print (lit "Summary:") ;;
            print (lit "   " ++ str_of_nat (length converted_files)
                   ++ lit " files converted") ;;
            print (lit "   " ++ str_of_nat total_diagrams
                   ++ lit " diagrams processed") ;;
            print (lit "   Output folder: " ++ output_folder) ;;
            print (lit "   Open " ++ output_folder
                   ++ lit "/index.html in your browser") ;;
            ret true
        end
    end.

Definition main (input_folder output_folder : path) : step unit :=
  print (lit "Mermaid to HTML Converter") ;;
  print (lit "Input:  " ++ input_folder) ;;
  print (lit "Output: " ++ output_folder) ;;
  print [] ;;
  success <- convert_mermaid_files input_folder output_folder ;;
  if negb success then sys_exit 1 else ret tt.

End Script.
End Mermaid.

(** *** src/create_master_volume.py *)

Module MasterVolume.
Import Py Os.
Local Open Scope step_scope.

Record args : Type := {
  dir : path; output : option path; title : option str; author : str;
  prefix : option str; order_file : option path;
  html_only : bool; epub_only : bool
}.

(** [if x:] for an optional string argument *)
Definition given (x : option str) : option str :=
  match x with
  | Some (c :: s) => Some (c :: s)
  | _ => None
  end.

Section Script.
Variable w : world.
(** [dir_path.name.replace('-', ' ').replace('_', ' ').title()] *)
Variable default_title : path -> str.
Variable generate_html_master_volume :
  list (path * str) -> path -> str -> str -> step path.
Variable create_epub_book :
  list (path * str) -> path -> str -> str -> step path.
(** The size of a written file as the summary shows it. *)
Variable size_text : path -> str.

Definition read_order_file (order_file_path : path) : step (option (list str)) :=
  try_except
    (content <- read w order_file_path ;;
     ret (Some (filter (fun l => match l with [] => false | _ => true end)
                  (map strip (split nl content)))))
    (fun e =>
       print (lit "Error reading order file: " ++ e) ;;
       ret None).

(** The files named in the order list, in its order, then the other files,
    sorted. *)
Definition order_files (markdown_files : list entry)
    (ordered_filenames : list str) : step (list entry) :=
  ordered_files <-
    for_each ordered_filenames
      (fun filename ordered_files =>
         match filter (fun f => str_eqb (e_name f) filename) markdown_files with
         | f :: _ => ret (ordered_files ++ [f])
         | [] =>
             print (lit "Warning: File in order list not found: " ++ filename) ;;
             ret ordered_files
         end) [] ;;
  let remaining_files :=
    filter (fun f => negb (existsb (str_eqb (e_name f)) ordered_filenames))
      markdown_files in
  match remaining_files with
  | [] => ret ordered_files
  | _ =>
      print (str_of_nat (length remaining_files)
             ++ lit " files not in order file will be added at the end") ;;
      ret (ordered_files ++ sorted remaining_files)
  end.

(** The chapter files in their final order. *)
Definition chapter_order (a : args) (markdown_files : list entry)
  : step (list entry) :=
  match given (order_file a) with
  | Some order_file_path =>
      if negb (exists_ w order_file_path) then
        print (lit "Order file not found: " ++ order_file_path) ;;
        sys_exit 1
      else
        ordered_filenames <- read_order_file order_file_path ;;
        match ordered_filenames with
        | Some (n :: l) => order_files markdown_files (n :: l)
        | _ => ret (sorted markdown_files)
        end
  | None => ret (sorted markdown_files)
  end.

(** The loop that reads the files. *)
Definition read_chapter (file_path : entry) (file_contents : list (path * str))
  : step (list (path * str)) :=
  try_except
    (content <- read w (e_path file_path) ;;
     if length (strip content) <? 10 then
       print (lit "Warning: File appears empty or too short: "
              ++ e_path file_path) ;;
       ret file_contents
     else ret (file_contents ++ [(e_path file_path, content)]))
    (fun e =>
       print (lit "Warning: Could not read " ++ e_path file_path
              ++ lit ": " ++ e) ;;
       ret file_contents).

Definition print_numbered (file_path : entry) (i : nat) : step nat :=
  print (lit "   " ++ str_of_nat (S i) ++ lit ". " ++ e_name file_path) ;;
  ret (S i).

(** The end of [main], from the test of [file_contents] on: the outputs
    from the chapters that were read, and the summary. *)
Definition write_volume (a : args) (output_dir : path) (title : str)
    (file_contents : list (path * str)) : step unit :=
  match file_contents with
  | [] =>
      print (lit "No valid markdown files could be read") ;;
      sys_exit 1
  | _ =>
      let base := replace " " (lit "_") title in
      html_out <-
        (if negb (epub_only a) then
           html_file <-
             generate_html_master_volume file_contents
               (child output_dir (base ++ lit ".html")) title (author a) ;;
           ret [(lit "HTML", html_file)]
         else ret []) ;;
      epub_out <-
        (if negb (html_only a) then
           epub_file <-
             create_epub_book file_contents
               (child output_dir (base ++ lit ".epub")) title (author a) ;;
           ret [(lit "EPUB", epub_file)]
         else ret []) ;;
      print ([nl] ++ lit "Master volume creation complete!") ;;
      for_each (html_out ++ epub_out)
        (fun '(file_type, file_path) (_ : unit) =>
           print (file_type ++ lit " file: " ++ file_path ++ lit " ("
                  ++ size_text file_path ++ lit ")"))
        tt
  end.

Definition main (a : args) : step unit :=
  let dir_path := dir a in
  if negb (exists_ w dir_path) || negb (is_dir w dir_path) then
    print (lit "Directory not found: " ++ dir_path) ;;
    sys_exit 1
  else
    let output_dir :=
      match given (output a) with Some o => o | None => dir_path end in
    (match given (output a) with
     | Some o => mkdir w true o
     | None => ret tt
     end) ;;
    let title :=
      match given (title a) with Some t => t | None => default_title dir_path end in
    print (lit "Creating master volume from: " ++ dir_path) ;;
    print (lit "Title: " ++ title) ;;
    print (lit "Author: " ++ author a) ;;
    let markdown_files :=
      flat_map
        (fun pattern =>
           let files := glob w dir_path pattern in
           match given (prefix a) with
           | Some p => filter (fun f => startswith p (e_name f)) files
           | None => files
           end)
        ["*.md"; "*.markdown"]%string in
    match markdown_files with
    | [] =>
        print (lit "No markdown files found in " ++ dir_path
               ++ match given (prefix a) with
                  | Some p => lit " with prefix '" ++ p ++ lit "'"
                  | None => []
                  end) ;;
        sys_exit 1
    | _ =>
        markdown_files <- chapter_order a markdown_files ;;
        print (lit "Found " ++ str_of_nat (length markdown_files)
               ++ lit " markdown files") ;;
        for_each markdown_files print_numbered 0 ;;
        file_contents <- for_each markdown_files read_chapter [] ;;
        write_volume a output_dir title file_contents
    end.

End Script.
End MasterVolume.

(** *** src/generate_html_flexible.py: the reading of the input and main *)

Module HtmlFlexible.
Import Py Os.
Local Open Scope step_scope.

Record args : Type := {
  input : option str; dir : bool; separate : bool;
  output : option path; no_toc : bool; title : option str
}.

Record document : Type := {
  d_path : path; d_name : str; d_stem : str; d_content : str; d_title : str
}.

Section Script.
Variable w : world.
(** [Path(filepath).name] and [.stem] *)
Variable name_of stem_of : path -> str.
(** The title of a document: its first heading or its file name. *)
Variable title_of : str -> str -> str.
(** The directory of the output, from the arguments. *)
Variable output_dir_of : args -> path.
(** The rest of each branch of [main] after the input is read: the
    conversion, the writing of the output and the summary. *)
Variable convert_separate : args -> path -> list document -> step unit.
Variable convert_combined : args -> path -> str -> str -> step unit.
Variable convert_single : args -> path -> str -> str -> step unit.
(** The closing lines about printing to PDF. *)
Variable pdf_hints : list str.

Definition read_single_file (filepath : path) : step (option (str * str)) :=
  if negb (exists_ w filepath) then
    print (lit "Error: File " ++ filepath ++ lit " does not exist") ;;
    ret None
  else
    print (lit "Reading " ++ name_of filepath ++ lit "...") ;;
    content <- read w filepath ;;
    ret (Some (content, stem_of filepath)).

Definition page_break : str :=
  lit "<div style=" ++ [dq] ++ lit "page-break-before: always;" ++ [dq]
  ++ lit "></div>".

(** The body of the loop of [read_multiple_files]. *)
Definition read_into (filepath : entry) (combined_content : list str)
  : step (list str) :=
  print (lit "Reading " ++ e_name filepath ++ lit "...") ;;
  file_content <- read w (e_path filepath) ;;
  ret (combined_content
         ++ match combined_content with
            | [] => []
            | _ => [page_break]
            end
         ++ [lit "<!-- " ++ e_name filepath ++ lit " -->"; file_content]).

Definition read_multiple_files (directory : path) : step (option (str * str)) :=
  if negb (exists_ w directory) then
    print (lit "Error: Directory " ++ directory ++ lit " does not exist") ;;
    ret None
  else
    match sorted (glob w directory "*.md") with
    | [] =>
        print (lit "No markdown files found in " ++ directory) ;;
        ret None
    | md_files =>
        combined_content <- for_each md_files read_into [] ;;
        ret (Some (join [nl; nl] combined_content, lit "combined_documents"))
    end.

(** The body of the loop of [read_multiple_files_separate]. *)
Definition read_document (filepath : entry) (file_contents : list document)
  : step (list document) :=
  print (lit "Reading " ++ e_name filepath ++ lit "...") ;;
  content <- read w (e_path filepath) ;;
  ret (file_contents
         ++ [{| d_path := e_path filepath;
                d_name := e_name filepath;
                d_stem := e_stem filepath;
                d_content := content;
                d_title := title_of content (e_stem filepath) |}]).

Definition read_multiple_files_separate (directory : path)
  : step (option (list document)) :=
  if negb (exists_ w directory) then
    print (lit "Error: Directory " ++ directory ++ lit " does not exist") ;;
    ret None
  else
    match sorted (glob w directory "*.md") with
    | [] =>
        print (lit "No markdown files found in " ++ directory) ;;
        ret None
    | md_files =>
        file_contents <- for_each md_files read_document [] ;;
        ret (Some file_contents)
    end.

Definition print_all (lines : list str) : step unit :=
  for_each lines (fun l (_ : unit) => print l) tt.

Definition main (a : args) : step unit :=
  match MasterVolume.given (input a) with
  | None =>
      print (lit "Usage: python3 generate_html_flexible.py <file.md> [options]") ;;
      print (lit "       python3 generate_html_flexible.py --dir <directory> [options]") ;;
      print (lit "       python3 generate_html_flexible.py --dir <directory> --separate [options]")
  | Some input =>
      print (lit "Generating HTML from markdown...") ;;
      let output_dir := output_dir_of a in
      mkdir w true output_dir ;;
      if dir a && separate a then
        print ([nl] ++ lit "Reading markdown files for separate processing...") ;;
        file_contents <- read_multiple_files_separate input ;;
        match file_contents with
        | Some (d :: l) =>
            convert_separate a output_dir (d :: l) ;; print_all pdf_hints
        | _ => ret tt
        end
      else if dir a then
        print ([nl] ++ lit "Reading markdown files for combined processing...") ;;
        r <- read_multiple_files input ;;
        match r with
        | Some (c :: markdown_content, base_name) =>
            convert_combined a output_dir (c :: markdown_content) base_name ;;
            print_all pdf_hints
        | _ => ret tt
        end
      else
        print ([nl] ++ lit "Reading markdown file...") ;;
        r <- read_single_file input ;;
        match r with
        | Some (c :: markdown_content, base_name) =>
            convert_single a output_dir (c :: markdown_content) base_name ;;
            print_all pdf_hints
        | _ => ret tt
        end
  end.

End Script.
End HtmlFlexible.

(** *** utils/generate_html_flexible.py: main.  [read_single_file] and
    [read_multiple_files] of this copy are those of
    src/generate_html_flexible.py, line for line. *)

Module HtmlFlexibleUtilsScript.
Import Py Os.
Local Open Scope step_scope.

Record args : Type := {
  input : option str; dir : bool; output : option path; no_toc : bool;
  title : option str
}.

Section Script.
Variable w : world.
Variable name_of stem_of : path -> str.
(** The rest of [main] after the input is read: the conversion, the
    writing of the output and the summary. *)
Variable convert : args -> str -> str -> step unit.

Definition main (a : args) : step unit :=
  match MasterVolume.given (input a) with
  | None =>
      print (lit "Usage: python3 generate_html_flexible.py <file.md> [options]") ;;
      print (lit "       python3 generate_html_flexible.py --dir <directory> [options]")
  | Some input =>
      print (lit "Generating HTML from markdown...") ;;
      print ([nl] ++ lit "Reading markdown files...") ;;
      r <- (if dir a then HtmlFlexible.read_multiple_files w input
            else HtmlFlexible.read_single_file w name_of stem_of input) ;;
      match r with
      | Some (c :: markdown_content, base_name) =>
          convert a (c :: markdown_content) base_name
      | _ => ret tt
      end
  end.

End Script.
End HtmlFlexibleUtilsScript.

(** *** utils/generate_kindle.py: the processing of files and main *)

Module KindleScript.
Import Py Os.
Local Open Scope step_scope.

Record args : Type := {
  input : option path; dir : option path; output : option path;
  title : option str; author : str
}.

Section Script.
Variable w : world.
Variable create_epub_book :
  list (path * str) -> path -> option str -> str -> step path.
(** The name of the EPUB file, from the input and the output directory. *)
Variable epub_name : path -> option path -> path.
(** The title taken from the content or the file name. *)
Variable title_of : path -> str -> str.
Variable traceback : str -> list str.
Variable help : list str.
Variable success_lines : path -> list str.

Definition print_all (lines : list str) : step unit :=
  for_each lines (fun l (_ : unit) => print l) tt.

Definition process_single_file (file_path : path) (a : args)
  : step (option path) :=
  try_except
    (content <- read w file_path ;;
     if length (strip content) <? 10 then
       print (lit "Error: File appears to be empty or too short: " ++ file_path) ;;
       print (lit "   Content length: " ++ str_of_nat (length content)
              ++ lit " characters") ;;
       ret None
     else
       print (lit "Processing file: " ++ file_path ++ lit " ("
              ++ str_of_nat (length content) ++ lit " characters)") ;;
       (match MasterVolume.given (output a) with
        | Some o => mkdir w false o
        | None => ret tt
        end) ;;
       let title :=
         match MasterVolume.given (title a) with
         | Some t => t
         | None => title_of file_path content
         end in
       output_file <-
         create_epub_book [(file_path, content)]
           (epub_name file_path (output a)) (Some title) (author a) ;;
       print (lit "Generated EPUB: " ++ output_file) ;;
       ret (Some output_file))
    (fun e =>
       print (lit "Error processing " ++ file_path ++ lit ": " ++ e) ;;
       print_all (traceback e) ;;
       ret None).

Definition read_chapter (file_path : entry) (file_contents : list (path * str))
  : step (list (path * str)) :=
  try_except
    (content <- read w (e_path file_path) ;;
     print (lit "Reading: " ++ e_name file_path) ;;
     ret (file_contents ++ [(e_path file_path, content)]))
    (fun e =>
       print (lit "Warning: Could not read " ++ e_path file_path
              ++ lit ": " ++ e) ;;
       ret file_contents).

Definition process_directory (dir_path : path) (a : args)
  : step (option path) :=
  if negb (exists_ w dir_path) || negb (is_dir w dir_path) then
    print (lit "Directory not found: " ++ dir_path) ;;
    ret None
  else
    match glob w dir_path "*.md" ++ glob w dir_path "*.markdown" with
    | [] =>
        print (lit "No markdown files found in " ++ dir_path) ;;
        ret None
    | markdown_files =>
        file_contents <- for_each (sorted markdown_files) read_chapter [] ;;
        match file_contents with
        | [] =>
            print (lit "No valid markdown files could be read") ;;
            ret None
        | _ =>
            (match MasterVolume.given (output a) with
             | Some o => mkdir w false o
             | None => ret tt
             end) ;;
            output_file <-
              create_epub_book file_contents (epub_name dir_path (output a))
                (MasterVolume.given (title a)) (author a) ;;
            print (lit "Generated EPUB: " ++ output_file) ;;
            print (lit "Included " ++ str_of_nat (length file_contents)
                   ++ lit " markdown files") ;;
            ret (Some output_file)
        end
    end.

Definition banner (what : str) (a : args) : step unit :=
  print what ;;
  print (lit "Book title: "
         ++ match MasterVolume.given (title a) with
            | Some t => t
            | None => lit "Auto-detected"
            end) ;;
  print (lit "Author: " ++ author a) ;;
  (match MasterVolume.given (output a) with
   | Some o => print (lit "Output directory: " ++ o)
   | None => ret tt
   end) ;;
  print [].

Definition main (a : args) : step unit :=
  match MasterVolume.given (input a), MasterVolume.given (dir a) with
  | None, None =>
      print_all help ;;
      sys_exit 1
  | i, d =>
      result <-
        match d, i with
        | Some dir_path, _ =>
            banner (lit "Processing directory: " ++ dir_path) a ;;
            process_directory dir_path a
        | None, Some file_path =>
            banner (lit "Processing file: " ++ file_path) a ;;
            if negb (exists_ w file_path) then
              print (lit "File not found: " ++ file_path) ;;
              sys_exit 1
            else process_single_file file_path a
        | None, None => ret None
        end ;;
      match result with
      | Some r => print_all (success_lines r)
      | None =>
          print ([nl] ++ lit "Failed to generate EPUB file") ;;
          sys_exit 1
      end
  end.

End Script.
End KindleScript.

(** *** src/confluence_to_markdown.py: convert_page *)

Module Confluence.
Import Py Os.
Local Open Scope step_scope.

Section Script.
(** The body of the [try] block: the requests to the server, the
    conversion and the writing of the output. *)
Variable conversion : str -> path -> step unit.

Definition convert_page (page_url : str) (output_dir : path) : step unit :=
  try_except (conversion page_url output_dir)
    (fun e =>
       print (lit "Error during conversion: " ++ e) ;;
       sys_exit 1).

(** [main], after the arguments are parsed; [auth] tells whether
    credentials or a token were given. *)
Definition main (url : str) (output : path) (auth : bool) : step unit :=
  (if auth then ret tt
   else print (lit "Warning: No authentication provided. Only public pages will be accessible.")) ;;
  convert_page url output.

End Script.
End Confluence.

(* ------------------------------------------------------------------ *)
(** ** create_anchor_id beyond the code points 0..255

    The function on strings over a larger alphabet: the code points 0..255
    and U+2102, the double-struck capital C, which [\w] matches, which
    [str.isupper] accepts and which [str.lower] leaves as it is.  The
    alphabet is closed under [str.lower].  The matcher is the one of
    [Re], over these characters. *)

Module Wide.
Import Py.

Inductive char : Type :=
| Latin (c : ascii)     (* a code point 0..255 *)
| DoubleStruckC.        (* U+2102 *)

Definition wstr := list char.

Definition is_char (a : ascii) (c : char) : bool :=
  match c with Latin x => Py.is_char a x | DoubleStruckC => false end.

Definition is_space (c : char) : bool :=
  match c with Latin x => Py.is_space x | DoubleStruckC => false end.

Definition is_word (c : char) : bool :=
  match c with Latin x => Py.is_word x | DoubleStruckC => true end.

Definition is_upper (c : char) : bool :=
  match c with Latin x => Py.is_upper x | DoubleStruckC => true end.

Definition lower_char (c : char) : char :=
  match c with Latin x => Latin (Py.lower_char x) | DoubleStruckC => DoubleStruckC end.

Definition lower (s : wstr) : wstr := map lower_char s.

Fixpoint lstrip_by (f : char -> bool) (s : wstr) : wstr :=
  match s with
  | c :: s' => if f c then lstrip_by f s' else s
  | [] => []
  end.

Definition rstrip_by (f : char -> bool) (s : wstr) : wstr :=
  rev (lstrip_by f (rev s)).

Definition strip_by (f : char -> bool) (s : wstr) : wstr :=
  rstrip_by f (lstrip_by f s).

Inductive re : Type :=
| Eps
| Cls (p : char -> bool)
| Seq (r1 r2 : re)
| Alt (r1 r2 : re)
| Star (greedy : bool) (r : re)
| Grp (n : nat) (r : re)
| Bol (multiline : bool)
| Eol (multiline : bool).

Definition Plus (greedy : bool) (r : re) : re := Seq r (Star greedy r).
Definition Chr (a : ascii) : re := Cls (is_char a).
Definition NotChr (a : ascii) : re := Cls (fun c => negb (is_char a c)).

Definition caps := list (nat * wstr).

Definition at_bol (multiline : bool) (prev : option char) : bool :=
  match prev with
  | None => true
  | Some c => multiline && is_char nl c
  end.

Definition at_eol (multiline : bool) (s : wstr) : bool :=
  match s with
  | [] => true
  | c :: s' =>
      is_char nl c && (multiline || match s' with [] => true | _ => false end)
  end.

Definition result := (wstr * caps)%type.
Definition cont := option char -> wstr -> caps -> option result.
Definition matcher := option char -> wstr -> caps -> cont -> option result.

Fixpoint star_loop (body : matcher) (greedy : bool) (fuel : nat) : matcher :=
  fun prev s cs k =>
    match fuel with
    | 0 => k prev s cs
    | S fuel' =>
        let again (_ : unit) :=
          body prev s cs (fun prev' s' cs' =>
            if length s' <? length s
            then star_loop body greedy fuel' prev' s' cs' k
            else None) in
        if greedy then
          match again tt with
          | Some x => Some x
          | None => k prev s cs
          end
        else
          match k prev s cs with
          | Some x => Some x
          | None => again tt
          end
    end.

Fixpoint m (r : re) : matcher :=
  match r with
  | Eps => fun prev s cs k => k prev s cs
  | Cls p => fun prev s cs k =>
      match s with
      | c :: s' => if p c then k (Some c) s' cs else None
      | [] => None
      end
  | Seq r1 r2 => fun prev s cs k =>
      m r1 prev s cs (fun prev' s' cs' => m r2 prev' s' cs' k)
  | Alt r1 r2 => fun prev s cs k =>
      match m r1 prev s cs k with
      | Some x => Some x
      | None => m r2 prev s cs k
      end
  | Star g r1 => fun prev s cs k => star_loop (m r1) g (length s) prev s cs k
  | Grp n r1 => fun prev s cs k =>
      m r1 prev s cs (fun prev' s' cs' =>
        k prev' s' ((n, firstn (length s - length s') s) :: cs'))
  | Bol ml => fun prev s cs k => if at_bol ml prev then k prev s cs else None
  | Eol ml => fun prev s cs k => if at_eol ml s then k prev s cs else None
  end.

Definition match_at (r : re) (prev : option char) (s : wstr)
  : option (nat * caps) :=
  match m r prev s [] (fun _ s' cs => Some (s', cs)) with
  | Some (s', cs) => Some (length s - length s', cs)
  | None => None
  end.

Fixpoint sub_from (r : re) (repl : wstr -> caps -> wstr)
    (skip : nat) (prev : option char) (s : wstr) : wstr :=
  match skip, s with
  | S k, c :: s' => sub_from r repl k (Some c) s'
  | S _, [] => []
  | 0, _ =>
      match match_at r prev s with
      | Some (n, cs) =>
          repl (firstn n s) cs ++
          match n, s with
          | 0, c :: s' => c :: sub_from r repl 0 (Some c) s'
          | S k, c :: s' => sub_from r repl k (Some c) s'
          | _, [] => []
          end
      | None =>
          match s with
          | [] => []
          | c :: s' => c :: sub_from r repl 0 (Some c) s'
          end
      end
  end.

Definition sub (r : re) (repl : wstr -> caps -> wstr) (s : wstr) : wstr :=
  sub_from r repl 0 None s.

(** [<[^>]+>] *)
Definition re_tag : re :=
  Seq (Chr "<") (Seq (Plus true (NotChr ">")) (Chr ">")).

(** [[^\w\s-]] *)
Definition re_special : re :=
  Cls (fun c => negb (is_word c || is_space c || is_char "-" c)).

(** [[-\s]+] *)
Definition re_dashes : re :=
  Plus true (Cls (fun c => is_char "-" c || is_space c)).

Definition create_anchor_id (text : wstr) : wstr :=
  let text := sub re_tag (fun _ _ => []) text in
  let text := lower text in
  let text := sub re_special (fun _ _ => []) text in
  let text := sub re_dashes (fun _ _ => [Latin "-"]) text in
  strip_by (is_char "-") text.

(** A string of code points 0..255 among the wider strings. *)
Definition latin (s : str) : wstr := map Latin s.

End Wide.
(* ------------------------------------------------------------------ *)
(** ** Definitions used in the statements and proofs *)

Unset Implicit Arguments.

Arguments Ascii.eqb : simpl never.
Arguments Py.is_char : simpl never.
Arguments Py.is_word : simpl never.
Arguments Py.is_space : simpl never.
Arguments Py.is_digit : simpl never.
Arguments Py.is_upper : simpl never.
Arguments Py.lower_char : simpl never.

Module Aux.
Import Py Re.

(** The character before the position reached after reading [a]. *)
Definition lastc (prev : option ascii) (a : str) : option ascii :=
  fold_left (fun _ c => Some c) a prev.

(** Repetition of a character class without fuel. *)
Fixpoint greedy (p : ascii -> bool) (prev : option ascii) (s : str)
    (cs : caps) (k : cont) : option result :=
  match s with
  | c :: s' =>
      if p c then
        match greedy p (Some c) s' cs k with
        | Some x => Some x
        | None => k prev s cs
        end
      else k prev s cs
  | [] => k prev s cs
  end.

Fixpoint lazy (p : ascii -> bool) (prev : option ascii) (s : str)
    (cs : caps) (k : cont) : option result :=
  match k prev s cs with
  | Some x => Some x
  | None =>
      match s with
      | c :: s' => if p c then lazy p (Some c) s' cs k else None
      | [] => None
      end
  end.

(** A pattern that matches nowhere leaves the subject as it is. *)
Fixpoint nowhere (r : re) (prev : option ascii) (s : str) : Prop :=
  match_at r prev s = None /\
  match s with
  | [] => True
  | c :: s' => nowhere r (Some c) s'
  end.

(** The characters that [create_anchor_id] keeps, and those that it turns
    into hyphens. *)
Definition keep (c : ascii) : bool := is_word c || is_space c || is_char "-" c.
Definition dashy (c : ascii) : bool := is_char "-" c || is_space c.

(** A lowercase word character or a hyphen. *)
Definition slug_char (c : ascii) : bool :=
  is_char "-" c || (is_word c && negb (is_upper c)).

(** The first character of a string, if any, is outside a class. *)
Definition head_not (f : ascii -> bool) (s : str) : Prop :=
  match s with [] => True | c :: _ => f c = false end.

(** The tags of [convert_tables] that are open after a run of appended
    items, from the tags open before it; [None] when a closing tag does not
    match the innermost open one. *)
Definition elem_eqb (a b : Markup.elem) : bool :=
  match a, b with
  | Markup.Table, Markup.Table | Markup.Thead, Markup.Thead
  | Markup.Tbody, Markup.Tbody | Markup.Tr, Markup.Tr => true
  | _, _ => false
  end.

Fixpoint open_after (stack : list Markup.elem) (os : list Markup.out)
  : option (list Markup.elem) :=
  match os with
  | [] => Some stack
  | Markup.Open e :: os' => open_after (e :: stack) os'
  | Markup.Close e :: os' =>
      match stack with
      | e' :: stack' => if elem_eqb e e' then open_after stack' os' else None
      | [] => None
      end
  | _ :: os' => open_after stack os'
  end.

(** A check of every character of a string together with the character
    before it. *)
Fixpoint pairs_ok (ok : option ascii -> ascii -> bool) (prev : option ascii)
    (s : str) : bool :=
  match s with
  | [] => true
  | c :: s' => ok prev c && pairs_ok ok (Some c) s'
  end.

(** No character of class [F] stands where [P] holds of the one before. *)
Definition guard (P : option ascii -> bool) (F : ascii -> bool)
    (prev : option ascii) (c : ascii) : bool :=
  negb (P prev && F c).

Definition after_char (a : ascii) (prev : option ascii) : bool :=
  match prev with Some c => is_char a c | None => false end.

Definition anywhere (prev : option ascii) : bool := true.

Definition one_of (l : list ascii) (c : ascii) : bool :=
  existsb (fun a => Ascii.eqb a c) l.

(** One character of a text through [escape_html]. *)
Definition escape_char (c : ascii) : str :=
  if Ascii.eqb c "&" then lit "&amp;"
  else if Ascii.eqb c "<" then lit "&lt;"
  else if Ascii.eqb c ">" then lit "&gt;"
  else [c].

(** The inverse of [escape_html]: the three entities back to their
    characters, in one pass from the left. *)
Fixpoint unescape_from (skip : nat) (s : str) : str :=
  match skip, s with
  | S k, _ :: s' => unescape_from k s'
  | _, [] => []
  | 0, c :: s' =>
      if startswith (lit "&amp;") s then "&"%char :: unescape_from 4 s'
      else if startswith (lit "&lt;") s then "<"%char :: unescape_from 3 s'
      else if startswith (lit "&gt;") s then ">"%char :: unescape_from 3 s'
      else c :: unescape_from 0 s'
  end.
Definition unescape_html (s : str) : str := unescape_from 0 s.

Definition no_nl (c : ascii) : bool := negb (is_char nl c).
Definition no_tick (c : ascii) : bool := negb (is_char "`" c).
Definition dash : str := lit "-".

(** The language word of a fence as the class attribute shows it. *)
Definition language (lang : str) : str :=
  match lang with [] => lit "text" | _ => lang end.

(** A fenced code block and the element it becomes. *)
Definition fence (lang body : str) : str :=
  lit "```" ++ lang ++ [nl] ++ body ++ [nl] ++ lit "```".

Definition code_element (lang content : str) : str :=
  lit "<pre><code class=" ++ [dq] ++ lit "language-" ++ language lang
  ++ [dq] ++ lit ">" ++ content ++ lit "</code></pre>".

(** A header element with an id. *)
Definition header_element (tag : string) (id body : str) : str :=
  lit "<" ++ lit tag ++ lit " id=" ++ [dq] ++ id ++ [dq] ++ lit ">"
  ++ body ++ lit "</" ++ lit tag ++ lit ">".

(** Header text that no later pass rewrites: one line, without a backtick,
    an asterisk, an opening square bracket or an opening angle bracket. *)
Definition plain_header_char (c : ascii) : bool :=
  negb (one_of [nl; "`"; "*"; "["; "<"]%char c).

Definition plain_header (t : str) : bool := forallb plain_header_char t.

(** Code that no other pass rewrites: no backtick, asterisk, opening
    square bracket or vertical bar anywhere, and no line that begins with a
    hash, a digit, a hyphen or a plus sign or is empty. *)
Definition code_marks : list ascii := ["`"; "*"; "["; "|"]%char.

Definition line_start_marks (c : ascii) : bool :=
  one_of ["#"; "-"; "+"; "*"; nl]%char c || is_digit c.

Definition plain_code_pair (prev : option ascii) (c : ascii) : bool :=
  negb (one_of code_marks c) && guard (at_bol true) line_start_marks prev c.

Definition plain_code (body : str) : bool := pairs_ok plain_code_pair None body.



(** The stages of [simple_markdown_to_html]. *)
Definition header_passes (html : str) : str :=
  let html := sub (Kindle.re_line (Lit "# ")) (Kindle.header_repl "h1") html in
  let html := sub (Kindle.re_line (Lit "## ")) (Kindle.header_repl "h2") html in
  let html := sub (Kindle.re_line (Lit "### ")) (Kindle.header_repl "h3") html in
  let html := sub (Kindle.re_line (Lit "#### ")) (Kindle.header_repl "h4") html in
  sub (Kindle.re_line (Lit "##### ")) (Kindle.header_repl "h5") html.

Definition code_pass (html : str) : str :=
  sub Kindle.re_code_block Kindle.code_block_repl html.

Definition inline_passes (html : str) : str :=
  let html := sub Kindle.re_inline_code (Kindle.wrap_group 1 "<code>" "</code>") html in
  let html := sub (Kindle.re_emph "***") (Kindle.wrap_group 1 "<strong><em>" "</em></strong>") html in
  let html := sub (Kindle.re_emph "**") (Kindle.wrap_group 1 "<strong>" "</strong>") html in
  let html := sub (Kindle.re_emph "*") (Kindle.wrap_group 1 "<em>" "</em>") html in
  sub Kindle.re_link Kindle.link_repl html.

Definition item_passes (html : str) : str :=
  let html := sub Kindle.re_numbered_item (Kindle.wrap_group 2 "<li>" "</li>") html in
  sub Kindle.re_bullet_item (Kindle.wrap_group 1 "<li>" "</li>") html.

Definition wrap_pass (html : str) : str :=
  sub Kindle.re_list_items Kindle.wrap_list_items html.

Definition block_passes (html : str) : str :=
  let html := sub (Kindle.re_line (Lit "> ")) (Kindle.wrap_group 1 "<blockquote>" "</blockquote>") html in
  let html := sub Kindle.re_rule (fun _ _ => lit "<hr>") html in
  let html := Kindle.convert_tables html in
  join [nl; nl] (map Kindle.convert_paragraph (split_blank html)).

(** A text in which no pass after the code blocks finds anything. *)
Definition bullet_class (c : ascii) : bool :=
  is_char "-" c || is_char "*" c || is_char "+" c.

Definition line_marks (c : ascii) : bool :=
  is_digit c || bullet_class c || is_char ">" c.

Definition inline_marks : list ascii := ["`"; "*"; "["]%char.

Definition quiet (html : str) : Prop :=
  forallb (fun c => negb (one_of inline_marks c)) html = true
  /\ Forall (fun l => Kindle.is_table_line l = false) (split nl html)
  /\ pairs_ok (guard (at_bol true) line_marks) None html = true
  /\ pairs_ok (guard (after_char "<") (is_char "l")) None html = true
  /\ pairs_ok (guard (after_char nl) (is_char nl)) None html = true.

(** The part of [re_code_block] after the language word. *)
Definition re_code_tail : re :=
  Seq (Chr nl) (Seq (Grp 2 (Star false DotAll)) (Seq (Chr nl) (Lit "```"))).

(** The lines that [convert_tables] passes on as they are. *)
Definition passed_lines (os : list Markup.out) : list str :=
  flat_map (fun o => match o with Markup.Line l => [l] | _ => [] end) os.

(** Neither angle bracket. *)
Definition no_angle (c : ascii) : bool :=
  negb (is_char "<" c || is_char ">" c).

(** The order of the chapters by name. *)
Definition entry_le (a b : Os.entry) : Prop := Os.entry_leb a b = true.

(** [name] is the name of one of the files. *)
Definition named (files : list Os.entry) (name : str) : bool :=
  existsb (fun f => Os.str_eqb (Os.e_name f) name) files.

(** The file's name is in the order list. *)
Definition listed (names : list str) (f : Os.entry) : bool :=
  existsb (Os.str_eqb (Os.e_name f)) names.

(** The first of the files with a given name, if there is one. *)
Definition first_match (files : list Os.entry) (name : str) : list Os.entry :=
  match filter (fun f => Os.str_eqb (Os.e_name f) name) files with
  | f :: _ => [f]
  | [] => []
  end.

Definition warning (name : str) : str :=
  lit "Warning: File in order list not found: " ++ name.

(** The lines of the order file: stripped, the empty ones left out. *)
Definition order_lines (content : str) : list str :=
  filter (fun l => match l with [] => false | _ => true end)
    (map strip (split nl content)).

Definition one_of_str (l : list str) (p : str) : bool :=
  existsb (Os.str_eqb p) l.

(** A run prints [line] and ends with the exit status [status]. *)
Definition reports {A} (c : Os.step A) (line : str) (status : nat) : Prop :=
  In line (Os.console c) /\ Os.exit_status c = status.

(** The lines [lines], then the run [c]. *)
Definition after_lines {A} (lines : list str) (c : Os.step A) : Os.step A :=
  match c with (out, wr, r) => (lines ++ out, wr, r) end.

(** A small file system: the directory [docs] with the files [a.md] and
    [b.md], of which [a.md] cannot be read, and the order file [order.txt];
    nothing else exists. *)
Definition docs_a : Os.entry :=
  {| Os.e_path := lit "docs/a.md"; Os.e_name := lit "a.md"; Os.e_stem := lit "a" |}.
Definition docs_b : Os.entry :=
  {| Os.e_path := lit "docs/b.md"; Os.e_name := lit "b.md"; Os.e_stem := lit "b" |}.

Definition sample_content : str :=
  lit "# Title" ++ [nl] ++ lit "```mermaid" ++ [nl] ++ lit "graph TD" ++ [nl]
  ++ lit "```".

Definition sample_world : Os.world :=
  {| Os.exists_ := fun p => one_of_str [lit "docs"; lit "docs/a.md";
                                        lit "docs/b.md"; lit "order.txt"] p;
     Os.is_dir := fun p => Os.str_eqb p (lit "docs");
     Os.glob := fun d pattern =>
       if Os.str_eqb d (lit "docs") && String.eqb pattern "*.md"
       then [docs_a; docs_b] else [];
     Os.read_text := fun p =>
       if Os.str_eqb p (lit "docs/a.md") then inl (lit "Permission denied")
       else if Os.str_eqb p (lit "order.txt")
       then inr (lit "b.md" ++ [nl] ++ lit "  " ++ [nl] ++ lit "zz.md")
       else inr sample_content;
     Os.write_text := fun _ _ => None;
     Os.mkdir_ := fun _ _ => None |}.

Definition sample_order_args : MasterVolume.args :=
  {| MasterVolume.dir := lit "docs"; MasterVolume.output := None;
     MasterVolume.title := None; MasterVolume.author := lit "A";
     MasterVolume.prefix := None;
     MasterVolume.order_file := Some (lit "order.txt");
     MasterVolume.html_only := false; MasterVolume.epub_only := false |}.

Definition sample_missing_order_args : MasterVolume.args :=
  {| MasterVolume.dir := lit "docs"; MasterVolume.output := None;
     MasterVolume.title := None; MasterVolume.author := lit "A";
     MasterVolume.prefix := None;
     MasterVolume.order_file := Some (lit "missing");
     MasterVolume.html_only := false; MasterVolume.epub_only := false |}.

Definition sample_flex_args : HtmlFlexible.args :=
  {| HtmlFlexible.input := Some (lit "missing"); HtmlFlexible.dir := false;
     HtmlFlexible.separate := false; HtmlFlexible.output := None;
     HtmlFlexible.no_toc := false; HtmlFlexible.title := None |}.

(** The markdown files that [main] of create_master_volume finds in the
    directory. *)
Definition discovered (w : Os.world) (a : MasterVolume.args) : list Os.entry :=
  flat_map
    (fun pattern =>
       let files := Os.glob w (MasterVolume.dir a) pattern in
       match MasterVolume.given (MasterVolume.prefix a) with
       | Some p => filter (fun f => startswith p (Os.e_name f)) files
       | None => files
       end)
    ["*.md"; "*.markdown"]%string.

(** The output directory and the title of [main] of create_master_volume. *)
Definition volume_dir (a : MasterVolume.args) : Os.path :=
  match MasterVolume.given (MasterVolume.output a) with
  | Some o => o
  | None => MasterVolume.dir a
  end.

Definition volume_title (default_title : Os.path -> str)
    (a : MasterVolume.args) : str :=
  match MasterVolume.given (MasterVolume.title a) with
  | Some t => t
  | None => default_title (MasterVolume.dir a)
  end.

(** A chapter file as the reading loop of create_master_volume keeps it:
    with its content, when it can be read and its content without the
    white space at its ends has at least ten characters. *)
Definition readable (w : Os.world) (f : Os.entry) : list (Os.path * str) :=
  match Os.read_text w (Os.e_path f) with
  | inr content =>
      if length (strip content) <? 10 then [] else [(Os.e_path f, content)]
  | inl _ => []
  end.

Definition kept (w : Os.world) (files : list Os.entry) : list (Os.path * str) :=
  flat_map (readable w) files.

(** An output function that writes the paths of its chapters, one per
    line, into the output file. *)
Definition list_chapters (w : Os.world) (file_contents : list (Os.path * str))
    (output_file : Os.path) (title author : str) : Os.step Os.path :=
  Os.bind (Os.write w output_file (join [nl] (map fst file_contents)))
    (fun _ => Os.ret output_file).

(** A run of create_master_volume in the small file system, with the
    order file. *)
Definition sample_volume_run : Os.step unit :=
  MasterVolume.main sample_world (fun _ => lit "Docs")
    (list_chapters sample_world) (list_chapters sample_world)
    (fun _ => lit "1.0 KB") sample_order_args.

End Aux.


(* ------------------------------------------------------------------ *)
(** ** Definitions for the matcher's meaning and for numbered lists *)

Module ListAux.
Import Py Re Aux.

(** What a pattern matches: [matching r prev a b cs cs'] says that [r]
    matches the text [a] when [prev] is the character before it and [b] the
    text after it, and turns the groups [cs] into [cs']. *)
Inductive matching : re -> option ascii -> str -> str -> caps -> caps -> Prop :=
| M_eps prev b cs : matching Eps prev [] b cs cs
| M_cls p prev c b cs : p c = true -> matching (Cls p) prev [c] b cs cs
| M_seq r1 r2 prev a1 a2 b cs cs1 cs2 :
    matching r1 prev a1 (a2 ++ b) cs cs1 ->
    matching r2 (lastc prev a1) a2 b cs1 cs2 ->
    matching (Seq r1 r2) prev (a1 ++ a2) b cs cs2
| M_alt_l r1 r2 prev a b cs cs1 :
    matching r1 prev a b cs cs1 -> matching (Alt r1 r2) prev a b cs cs1
| M_alt_r r1 r2 prev a b cs cs1 :
    matching r2 prev a b cs cs1 -> matching (Alt r1 r2) prev a b cs cs1
| M_star_end g r prev b cs : matching (Star g r) prev [] b cs cs
| M_star_more g r prev a1 a2 b cs cs1 cs2 :
    matching r prev a1 (a2 ++ b) cs cs1 ->
    matching (Star g r) (lastc prev a1) a2 b cs1 cs2 ->
    matching (Star g r) prev (a1 ++ a2) b cs cs2
| M_grp n r prev a b cs cs1 :
    matching r prev a b cs cs1 ->
    matching (Grp n r) prev a b cs ((n, a) :: cs1)
| M_bol ml prev b cs :
    at_bol ml prev = true -> matching (Bol ml) prev [] b cs cs
| M_eol ml prev b cs :
    at_eol ml b = true -> matching (Eol ml) prev [] b cs cs.

(** The least number of characters that a match of a pattern takes. *)
Fixpoint min_len (r : re) : nat :=
  match r with
  | Eps => 0
  | Cls _ => 1
  | Seq r1 r2 => min_len r1 + min_len r2
  | Alt r1 r2 => Nat.min (min_len r1) (min_len r2)
  | Star _ _ => 0
  | Grp _ r1 => min_len r1
  | Bol _ => 0
  | Eol _ => 0
  end.

(** What [re.sub] does to a text, match by match: a character that begins
    no match is kept, a match is replaced and the scan goes on behind it. *)
Inductive rewrites (r : re) (repl : str -> caps -> str)
  : option ascii -> str -> str -> Prop :=
| rw_nil prev : rewrites r repl prev [] []
| rw_keep prev c s out :
    match_at r prev (c :: s) = None ->
    rewrites r repl (Some c) s out ->
    rewrites r repl prev (c :: s) (c :: out)
| rw_match prev mt rest cs out :
    mt <> [] ->
    match_at r prev (mt ++ rest) = Some (length mt, cs) ->
    rewrites r repl (lastc prev mt) rest out ->
    rewrites r repl prev (mt ++ rest) (repl mt cs ++ out).

(** *** Numbered lists *)

(** What a text ends with, as far as the test of [wrap_list_items] goes:
    nothing of note, a digit, or a digit and a period. *)
Inductive tail : Type := T_other | T_digit | T_period.

Definition tail_step (q : tail) (c : ascii) : option tail :=
  if is_digit c then Some T_digit
  else match q with
       | T_other => Some T_other
       | T_digit => if is_char "." c then Some T_period else Some T_other
       | T_period => if is_space c then None else Some T_other
       end.

Fixpoint tail_run (q : tail) (s : str) : option tail :=
  match s with
  | [] => Some q
  | c :: s' =>
      match tail_step q c with
      | Some q' => tail_run q' s'
      | None => None
      end
  end.

(** No digit followed by a period and white space. *)
Fixpoint no_triple (s : str) : bool :=
  match s with
  | a :: s' =>
      match s' with
      | b :: c :: _ =>
          negb (is_digit a && is_char "." b && is_space c) && no_triple s'
      | _ => true
      end
  | [] => true
  end.

(** An item: its number and its text.  The number is a string of digits,
    the text has no line break and no digit followed by a period and white
    space. *)
Definition numbered_item (it : str * str) : bool :=
  match fst it with [] => false | _ => true end
  && forallb is_digit (fst it) && forallb no_nl (snd it) && no_triple (snd it).

(** The same with the automaton's test of the text. *)
Definition item_ok (it : str * str) : Prop :=
  fst it <> [] /\ forallb is_digit (fst it) = true
  /\ forallb no_nl (snd it) = true /\ tail_run T_other (snd it) <> None.

Definition item_line (it : str * str) : str := fst it ++ lit ". " ++ snd it.

Definition numbered_list (items : list (str * str)) : str :=
  join [nl] (map item_line items).

Definition li (text : str) : str := lit "<li>" ++ text ++ lit "</li>".

(** The text before the list items are wrapped. *)
Definition before_wrap (s : str) : str :=
  item_passes (inline_passes (code_pass (header_passes s))).

(** The wrapping in [<ul>], as [wrap_list_items] does it for a list that it
    does not take for a numbered one. *)
Definition ul_wrap (whole : str) (cs : caps) : str :=
  lit "<ul>" ++ group_or_empty 1 cs ++ lit "</ul>".

(** A text without a digit followed by a period and white space. *)
Definition plain_tail (s : str) : Prop := tail_run T_other s <> None.

(** Where a reader of numbered lines is: at the start of a line, in the
    number, behind its period, in the text of the item, or lost. *)
Inductive place : Type :=
| At_start | In_number | After_period | In_text (q : tail) | Lost.

Definition place_step (q : place) (c : ascii) : place :=
  match q with
  | At_start => if is_digit c then In_number else Lost
  | In_number =>
      if is_digit c then In_number
      else if is_char "." c then After_period else Lost
  | After_period => if is_char " " c then In_text T_other else Lost
  | In_text t =>
      if is_char nl c then At_start
      else match tail_step t c with
           | Some t' => In_text t'
           | None => Lost
           end
  | Lost => Lost
  end.

Definition place_run (q : place) (s : str) : place := fold_left place_step s q.

Definition in_text (q : place) : bool :=
  match q with In_text _ => true | _ => false end.

(** The place after a tag or a delimiter. *)
Definition reset (q : place) : place :=
  if in_text q then In_text T_other else Lost.

(** Lines that are all numbered items. *)
Definition numbered_lines (s : str) : Prop := in_text (place_run At_start s) = true.

(** At the start of a line the reader is at the start of an item or lost. *)
Definition at_line_start (prev : option ascii) (q : place) : Prop :=
  at_bol true prev = true -> q = At_start \/ q = Lost.

(** The character before a position, if any, is no white space. *)
Definition no_space_before (o : option ascii) : Prop :=
  match o with Some c => is_space c = false | None => True end.

(** A line is empty or begins with an opening angle bracket. *)
Definition tag_line (l : str) : Prop := l = [] \/ exists u, l = "<"%char :: u.

(** Every line begins with an opening angle bracket. *)
Definition tag_first : option ascii -> ascii -> bool :=
  guard (at_bol true) (fun c => negb (is_char "<" c)).

(** A list of two items. *)
Definition sample_items : list (str * str) :=
  [(lit "1", lit "first"); (lit "2", lit "second")].

End ListAux.

(* ------------------------------------------------------------------ *)
(** ** The functions around the transducer: titles, tables of contents,
    diagrams *)

Module ReMore.
Import Py Re.

(** [re.search(r, s)]: the groups of the first match. *)
Fixpoint search_groups_from (r : re) (prev : option ascii) (s : str)
  : option caps :=
  match match_at r prev s with
  | Some (_, cs) => Some cs
  | None => match s with
            | [] => None
            | c :: s' => search_groups_from r (Some c) s'
            end
  end.
Definition search_groups (r : re) (s : str) : option caps :=
  search_groups_from r None s.

(** [re.findall(r, s)] for a pattern with one group: group 1 of every
    match, from left to right.  [skip] is as in [sub_from]. *)
Fixpoint findall_from (r : re) (skip : nat) (prev : option ascii) (s : str)
  : list str :=
  match skip, s with
  | S k, c :: s' => findall_from r k (Some c) s'
  | S _, [] => []
  | 0, _ =>
      match match_at r prev s with
      | Some (n, cs) =>
          group_or_empty 1 cs ::
          match n, s with
          | 0, c :: s' => findall_from r 0 (Some c) s'
          | S k, c :: s' => findall_from r k (Some c) s'
          | _, [] => []
          end
      | None =>
          match s with
          | [] => []
          | c :: s' => findall_from r 0 (Some c) s'
          end
      end
  end.
Definition findall (r : re) (s : str) : list str := findall_from r 0 None s.

(** [r{0,n}], greedy. *)
Fixpoint Upto (n : nat) (r : re) : re :=
  match n with
  | 0 => Eps
  | S n' => Alt (Seq r (Upto n' r)) Eps
  end.

End ReMore.

(** *** src/convert_mermaid_to_html.py *)

Module MermaidText.
Import Py Re ReMore.

Definition cr : ascii := "013"%char.

(** [```mermaid\n(.*?)\n```] with DOTALL *)
Definition re_mermaid : re :=
  Seq (Lit "```mermaid")
    (Seq (Chr nl) (Seq (Grp 1 (Star false DotAll)) (Seq (Chr nl) (Lit "```")))).

(** [```mermaid\r?\n(.*?)\r?\n```] with DOTALL *)
Definition re_mermaid_crlf : re :=
  Seq (Lit "```mermaid")
    (Seq (Opt (Chr cr))
       (Seq (Chr nl)
          (Seq (Grp 1 (Star false DotAll))
             (Seq (Opt (Chr cr)) (Seq (Chr nl) (Lit "```")))))).

(** The loop over the two patterns: the first one that finds something
    gives the result. *)
Definition extract_mermaid_from_markdown (markdown_content : str) : list str :=
  match findall re_mermaid markdown_content with
  | d :: l => d :: l
  | [] =>
      match findall re_mermaid_crlf markdown_content with
      | d :: l => d :: l
      | [] => []
      end
  end.

Definition extract_title_from_markdown (markdown_content : str) : str :=
  let lines := split nl markdown_content in
  match find (startswith (lit "# ")) lines with
  | Some line => strip (skipn 2 line)
  | None => lit "Mermaid Diagram"
  end.

End MermaidText.

(** *** src/convert_ascii_to_html.py *)

Module AsciiText.
Import Py Re.

(** [^```[\w]*\n] with MULTILINE *)
Definition re_fence_open : re :=
  Seq (Bol true) (Seq (Lit "```") (Seq (Star true (Cls is_word)) (Chr nl))).

(** [\n```$] with MULTILINE *)
Definition re_fence_close : re :=
  Seq (Chr nl) (Seq (Lit "```") (Eol true)).

(** [not line.strip()] *)
Definition blank (line : str) : bool :=
  match strip line with [] => true | _ => false end.

(** [while lines and not lines[0].strip(): lines.pop(0)] *)
Fixpoint pop_blank (lines : list str) : list str :=
  match lines with
  | l :: rest => if blank l then pop_blank rest else lines
  | [] => []
  end.

Definition clean_ascii_content (content : str) : str :=
  let content := sub re_fence_open (fun _ _ => []) content in
  let content := sub re_fence_close (fun _ _ => []) content in
  let lines := split nl content in
  let lines := pop_blank lines in
  let lines := rev (pop_blank (rev lines)) in
  join [nl] lines.

End AsciiText.

(** *** utils/generate_kindle.py: the title and the table of contents *)

Module KindleToc.
Import Py Re ReMore.

(** [^# (.+)$] with MULTILINE *)
Definition re_title : re :=
  Seq (Bol true) (Seq (Lit "# ") (Seq (Grp 1 (Plus true Dot)) (Eol true))).

Definition extract_title_from_content (content : str) : str :=
  match search_groups re_title content with
  | Some cs => strip (group_or_empty 1 cs)
  | None => lit "Document"
  end.

(** [^(#{1,6})\s+(.+)$] *)
Definition re_toc_header : re :=
  Seq (Bol false)
    (Seq (Grp 1 (Seq (Chr "#") (Upto 5 (Chr "#"))))
       (Seq (Plus true (Cls is_space))
          (Seq (Grp 2 (Plus true Dot)) (Eol false)))).

(** A header of the table of contents: level, title, anchor. *)
Definition header : Type := (nat * str * str)%type.

(** The body of the loop over the lines; [re.match] is a match at the
    start of the line. *)
Definition header_of_line (line : str) : list header :=
  match match_at re_toc_header None line with
  | Some (_, cs) =>
      let level := length (group_or_empty 1 cs) in
      let title := strip (group_or_empty 2 cs) in
      let anchor_id := Kindle.create_anchor_id title in
      [(level, title, anchor_id)]
  | None => []
  end.

Definition extract_headers_for_toc (content : str) : list header :=
  flat_map header_of_line (split nl content).

(** The entries of one chapter in [create_toc_html]. *)
Definition toc_entry (h : header) : list str :=
  let '(level, title, anchor_id) := h in
  if level <=? 4 then
    [lit "<li class=" ++ [dq] ++ lit "level-" ++ Os.str_of_nat level ++ [dq]
     ++ lit "><a href=" ++ [dq] ++ lit "#" ++ anchor_id ++ [dq] ++ lit ">"
     ++ title ++ lit "</a></li>"]
  else [].

Definition toc_chapter (ch : str * Os.path * list header) : list str :=
  let '(chapter_title, _, headers) := ch in
  (lit "<li class=" ++ [dq] ++ lit "level-1" ++ [dq] ++ lit "><strong>"
   ++ chapter_title ++ lit "</strong></li>")
  :: flat_map toc_entry headers.

Definition create_toc_html (all_headers : list (str * Os.path * list header))
  : str :=
  join [nl]
    ([lit "<div class=" ++ [dq] ++ lit "toc" ++ [dq] ++ lit ">";
      lit "<h2>Table of Contents</h2>"; lit "<ol>"]
     ++ flat_map toc_chapter all_headers
     ++ [lit "</ol>"; lit "</div>"]).

End KindleToc.

(** *** src/generate_html_flexible.py: the title of a document *)

Module FlexibleText.
Import Py.

(** The loop over the first twenty lines. *)
Fixpoint first_title (lines : list str) : option str :=
  match lines with
  | [] => None
  | line :: rest =>
      let line := strip line in
      if startswith (lit "# ") line && (2 <? length line)
      then Some (strip (skipn 2 line))
      else first_title rest
  end.

Definition extract_title_from_markdown (content : str) : option str :=
  let lines := split nl (strip content) in
  first_title (firstn 20 lines).

End FlexibleText.

(** *** utils/generate_html.py: the reading of the input *)

Module GenerateHtmlScript.
Import Py Os.
Local Open Scope step_scope.

Definition guidelines_dir : path := lit "docs/implementation-guidelines".

Definition file_order : list str :=
  map lit
    ["stage-1-intent-processing-implementation.md";
     "stage-2-rag-enhanced-retrieval-implementation.md";
     "stage-3-promql-generation-implementation.md";
     "stage-4-execution-self-healing-implementation.md";
     "stage-5-semantic-analysis-implementation.md";
     "stage-6-counterfactual-visualization-implementation.md"]%string.

Section Script.
Variable w : world.

(** The body of the loop over [file_order]. *)
Definition read_stage (filename : str) (combined_content : list str)
  : step (list str) :=
  let filepath := child guidelines_dir filename in
  if exists_ w filepath then
    print (lit "Reading " ++ filename ++ lit "...") ;;
    file_content <- read w filepath ;;
    ret (combined_content
           ++ match combined_content with
              | [] => []
              | _ => [HtmlFlexible.page_break]
              end
           ++ [lit "<!-- " ++ filename ++ lit " -->"; file_content])
  else
    print (lit "Warning: " ++ filename ++ lit " not found") ;;
    ret combined_content.

Definition read_markdown_files : step str :=
  combined_content <- for_each file_order read_stage [] ;;
  ret (join [nl; nl] combined_content).

(** The rest of [main] after the input is read: the conversion, the
    writing of the output and the summary. *)
Variable convert : str -> step unit.

Definition main : step unit :=
  print (lit "Generating Implementation Guidelines HTML...") ;;
  print ([nl] ++ lit "Reading markdown files...") ;;
  markdown_content <- read_markdown_files ;;
  if match strip markdown_content with [] => true | _ => false end then
    print (lit "No markdown content found!")
  else convert markdown_content.

End Script.
End GenerateHtmlScript.
(* ------------------------------------------------------------------ *)
(** ** Facts about characters, strings and the matcher *)

Module PyFacts.
Import Py.

Ltac all_chars c :=
  destruct c as [[] [] [] [] [] [] [] []]; vm_compute; try reflexivity;
  try discriminate; auto.

Lemma lower_char_fixed c : is_upper (lower_char c) = false.
Proof. all_chars c. Qed.

Lemma lower_char_not_upper c : is_upper c = false -> lower_char c = c.
Proof. unfold lower_char. now intros ->. Qed.

Lemma word_not_space c : is_word c = true -> is_space c = false.
Proof. all_chars c. Qed.

Lemma is_char_eq a c : is_char a c = true <-> a = c.
Proof. unfold is_char. apply Ascii.eqb_eq. Qed.

Lemma is_char_neq a c : is_char a c = false <-> a <> c.
Proof. unfold is_char. apply Ascii.eqb_neq. Qed.

Lemma lstrip_by_app_keep f a c s :
  f c = false -> forallb f a = true -> lstrip_by f (a ++ c :: s) = c :: s.
Proof.
  intros Hc. induction a as [|x a IH]; simpl.
  - now rewrite Hc.
  - intros H. apply andb_true_iff in H as [-> H]. auto.
Qed.

Lemma lstrip_by_head f c s : f c = false -> lstrip_by f (c :: s) = c :: s.
Proof. simpl. now intros ->. Qed.

Lemma lstrip_by_sub f s : exists a, s = a ++ lstrip_by f s /\ forallb f a = true.
Proof.
  induction s as [|c s [a [E F]]]; simpl.
  - now exists [].
  - destruct (f c) eqn:Hc.
    + exists (c :: a). simpl. rewrite Hc, F. split; [now f_equal|reflexivity].
    + now exists [].
Qed.

Lemma lstrip_by_first f s :
  match lstrip_by f s with [] => True | c :: _ => f c = false end.
Proof.
  induction s as [|c s IH]; simpl; auto.
  destruct (f c) eqn:Hc; auto.
Qed.

Lemma strip_by_id f s :
  match s with [] => True | c :: _ => f c = false end ->
  match rev s with [] => True | c :: _ => f c = false end ->
  strip_by f s = s.
Proof.
  intros H1 H2. unfold strip_by, rstrip_by.
  assert (E1 : lstrip_by f s = s).
  { destruct s; simpl in *; auto. now rewrite H1. }
  rewrite E1.
  assert (E2 : lstrip_by f (rev s) = rev s).
  { destruct (rev s); simpl in *; auto. now rewrite H2. }
  rewrite E2. apply rev_involutive.
Qed.

End PyFacts.

Module ReFacts.
Import Py Re Aux PyFacts.


Lemma lastc_app prev a b : lastc prev (a ++ b) = lastc (lastc prev a) b.
Proof. apply fold_left_app. Qed.


Lemma star_greedy_cls p fuel : forall prev s cs k,
  length s <= fuel ->
  star_loop (m (Cls p)) true fuel prev s cs k = greedy p prev s cs k.
Proof.
  induction fuel as [|fuel IH]; intros prev s cs k Hl.
  - destruct s; simpl in *; [reflexivity|lia].
  - destruct s as [|c s]; simpl; [reflexivity|].
    destruct (p c); [|reflexivity].
    assert (Hlt : (length s <? S (length s)) = true) by (apply Nat.ltb_lt; lia).
    rewrite Hlt, IH by (simpl in Hl; lia). reflexivity.
Qed.

Lemma star_lazy_cls p fuel : forall prev s cs k,
  length s <= fuel ->
  star_loop (m (Cls p)) false fuel prev s cs k = lazy p prev s cs k.
Proof.
  induction fuel as [|fuel IH]; intros prev s cs k Hl.
  - destruct s; simpl in *; [|lia]. now destruct (k prev [] cs).
  - destruct s as [|c s]; simpl; [reflexivity|].
    destruct (k prev (c :: s) cs); [reflexivity|].
    destruct (p c); [|reflexivity].
    assert (Hlt : (length s <? S (length s)) = true) by (apply Nat.ltb_lt; lia).
    rewrite Hlt, IH by (simpl in Hl; lia). reflexivity.
Qed.

Lemma m_star_greedy_cls p prev s cs k :
  m (Star true (Cls p)) prev s cs k = greedy p prev s cs k.
Proof. simpl. now apply star_greedy_cls. Qed.

Lemma m_star_lazy_cls p prev s cs k :
  m (Star false (Cls p)) prev s cs k = lazy p prev s cs k.
Proof. simpl. now apply star_lazy_cls. Qed.

Lemma m_seq r1 r2 prev s cs k :
  m (Seq r1 r2) prev s cs k
  = m r1 prev s cs (fun prev' s' cs' => m r2 prev' s' cs' k).
Proof. reflexivity. Qed.

Lemma m_cls p prev c s cs k :
  m (Cls p) prev (c :: s) cs k = if p c then k (Some c) s cs else None.
Proof. reflexivity. Qed.

Lemma m_cls_nil p prev cs k : m (Cls p) prev [] cs k = None.
Proof. reflexivity. Qed.

Lemma m_chr a prev c s cs k :
  m (Chr a) prev (c :: s) cs k = if is_char a c then k (Some c) s cs else None.
Proof. reflexivity. Qed.

Lemma m_grp n r prev s cs k :
  m (Grp n r) prev s cs k
  = m r prev s cs (fun prev' s' cs' =>
      k prev' s' ((n, firstn (length s - length s') s) :: cs')).
Proof. reflexivity. Qed.

Lemma m_alt r1 r2 prev s cs k :
  m (Alt r1 r2) prev s cs k
  = match m r1 prev s cs k with
    | Some x => Some x
    | None => m r2 prev s cs k
    end.
Proof. reflexivity. Qed.

Lemma m_bol ml prev s cs k :
  m (Bol ml) prev s cs k = if at_bol ml prev then k prev s cs else None.
Proof. reflexivity. Qed.

Lemma m_eol ml prev s cs k :
  m (Eol ml) prev s cs k = if at_eol ml s then k prev s cs else None.
Proof. reflexivity. Qed.

Lemma m_eps prev s cs k : m Eps prev s cs k = k prev s cs.
Proof. reflexivity. Qed.

(** One step of the matcher on a pattern whose head is known. *)
Ltac step_m :=
  repeat first
    [ rewrite m_seq | rewrite m_chr | rewrite m_cls | rewrite m_cls_nil
    | rewrite m_star_greedy_cls | rewrite m_star_lazy_cls | rewrite m_grp
    | rewrite m_alt | rewrite m_bol | rewrite m_eol | rewrite m_eps
    | progress cbv beta ].

(** *** The scan of [re.sub] *)

Lemma sub_from_skip r repl a : forall prev b,
  sub_from r repl (length a) prev (a ++ b) = sub_from r repl 0 (lastc prev a) b.
Proof.
  induction a as [|c a IH]; intros prev b; simpl.
  - destruct b; reflexivity.
  - apply IH.
Qed.

Lemma sub_from_match r repl prev a b cs :
  a <> [] ->
  match_at r prev (a ++ b) = Some (length a, cs) ->
  sub_from r repl 0 prev (a ++ b)
  = repl a cs ++ sub_from r repl 0 (lastc prev a) b.
Proof.
  intros Ha Hm. destruct a as [|c a]; [congruence|].
  change (sub_from r repl 0 prev ((c :: a) ++ b))
    with (match match_at r prev ((c :: a) ++ b) with
          | Some (n, cs) =>
              repl (firstn n ((c :: a) ++ b)) cs ++
              match n, ((c :: a) ++ b) with
              | 0, c :: s' => c :: sub_from r repl 0 (Some c) s'
              | S k, c :: s' => sub_from r repl k (Some c) s'
              | _, [] => []
              end
          | None => c :: sub_from r repl 0 (Some c) (a ++ b)
          end).
  rewrite Hm.
  rewrite firstn_app, firstn_all, Nat.sub_diag, firstn_0, app_nil_r.
  f_equal. simpl. apply sub_from_skip.
Qed.

Lemma sub_from_nomatch r repl prev c s :
  match_at r prev (c :: s) = None ->
  sub_from r repl 0 prev (c :: s) = c :: sub_from r repl 0 (Some c) s.
Proof. intros H. simpl. now rewrite H. Qed.

Lemma sub_from_nil r repl prev :
  match_at r prev [] = None -> sub_from r repl 0 prev [] = [].
Proof. intros H. simpl. now rewrite H. Qed.


Lemma nowhere_cons r prev c s :
  match_at r prev (c :: s) = None -> nowhere r (Some c) s ->
  nowhere r prev (c :: s).
Proof. intros H1 H2. split; assumption. Qed.

Lemma sub_from_nowhere r repl : forall s prev,
  nowhere r prev s -> sub_from r repl 0 prev s = s.
Proof.
  induction s as [|c s IH]; intros prev [H1 H2].
  - now apply sub_from_nil.
  - rewrite sub_from_nomatch by assumption. f_equal. auto.
Qed.

End ReFacts.

(* ------------------------------------------------------------------ *)
(** ** create_anchor_id *)

Module AnchorFacts.
Import Py Re Aux PyFacts ReFacts Kindle.

Lemma greedy_run p a : forall prev b cs k x,
  forallb p a = true -> head_not p b ->
  k (lastc prev a) b cs = Some x ->
  greedy p prev (a ++ b) cs k = Some x.
Proof.
  induction a as [|c a IH]; intros prev b cs k x Ha Hb Hk; simpl in *.
  - destruct b as [|c b]; simpl in *; [assumption|]. now rewrite Hb.
  - apply andb_true_iff in Ha as [-> Ha]. now rewrite (IH _ _ _ _ _ Ha Hb Hk).
Qed.

(** One character of a class replaced by a constant. *)
Lemma sub_cls p rep : forall s prev,
  sub_from (Cls p) (fun _ _ => rep) 0 prev s
  = flat_map (fun c => if p c then rep else [c]) s.
Proof.
  induction s as [|c s IH]; intros prev.
  - reflexivity.
  - cbn [sub_from flat_map]. unfold match_at. cbn [m].
    destruct (p c).
    + replace (length (c :: s) - length s) with 1 by (cbn [length]; lia).
      f_equal. apply IH.
    + simpl. f_equal. apply IH.
Qed.

Lemma flat_map_filter (f : ascii -> bool) s :
  flat_map (fun c => if negb (f c) then [] else [c]) s = filter f s.
Proof.
  induction s as [|c s IH]; simpl; [reflexivity|].
  destruct (f c); simpl; now rewrite IH.
Qed.

Lemma sub_special s :
  sub re_special (fun _ _ => []) s = filter keep s.
Proof.
  unfold sub, re_special. rewrite sub_cls. apply (flat_map_filter keep).
Qed.

(** A pattern whose matches begin with a character of class [f] matches
    nowhere in a string without such characters. *)
Lemma nowhere_by_first r (f : ascii -> bool) :
  (forall prev s, match s with
                  | c :: _ => f c = false -> match_at r prev s = None
                  | [] => match_at r prev [] = None
                  end) ->
  forall s prev, forallb (fun c => negb (f c)) s = true -> nowhere r prev s.
Proof.
  intros H. induction s as [|c s IH]; intros prev Hs; simpl in *.
  - split; [apply (H prev [])|trivial].
  - apply andb_true_iff in Hs as [Hc Hs]. apply negb_true_iff in Hc.
    split; [apply (H prev (c :: s)); assumption|auto].
Qed.

Lemma re_tag_first prev s :
  match s with
  | c :: _ => is_char "<" c = false -> match_at re_tag prev s = None
  | [] => match_at re_tag prev [] = None
  end.
Proof.
  destruct s as [|c s]; [reflexivity|]. intros Hc.
  unfold match_at, re_tag. step_m. now rewrite Hc.
Qed.

Lemma sub_tag_id s :
  forallb (fun c => negb (is_char "<" c)) s = true ->
  sub re_tag (fun _ _ => []) s = s.
Proof.
  intros H. apply sub_from_nowhere.
  now apply (nowhere_by_first re_tag (is_char "<") re_tag_first).
Qed.

(** A run of hyphens and white space is one match of [re_dashes]. *)
Lemma match_dashes prev c a b :
  dashy c = true -> forallb dashy a = true -> head_not dashy b ->
  match_at re_dashes prev ((c :: a) ++ b) = Some (length (c :: a), []).
Proof.
  intros Hc Ha Hb. unfold match_at, re_dashes, Plus.
  change (fun c0 : ascii => is_char "-" c0 || is_space c0) with dashy.
  cbn [app]. step_m. rewrite Hc.
  rewrite (greedy_run dashy a (Some c) b [] _ (b, []) Ha Hb eq_refl).
  f_equal. f_equal. cbn [length]. rewrite length_app. lia.
Qed.

Lemma match_dashes_none prev s :
  head_not dashy s -> match_at re_dashes prev s = None.
Proof.
  intros H. unfold match_at, re_dashes, Plus.
  change (fun c0 : ascii => is_char "-" c0 || is_space c0) with dashy.
  destruct s as [|c s]; [reflexivity|]. step_m. simpl in H. now rewrite H.
Qed.

Lemma sub_dashes_cons_keep prev c s :
  dashy c = false ->
  sub_from re_dashes (fun _ _ => dash) 0 prev (c :: s)
  = c :: sub_from re_dashes (fun _ _ => dash) 0 (Some c) s.
Proof. intros H. apply sub_from_nomatch. now apply match_dashes_none. Qed.

Lemma sub_dashes_cons_run prev c s :
  dashy c = true ->
  exists p,
    sub_from re_dashes (fun _ _ => dash) 0 prev (c :: s)
    = "-"%char :: sub_from re_dashes (fun _ _ => dash) 0 p (lstrip_by dashy s).
Proof.
  intros Hc. destruct (lstrip_by_sub dashy s) as [a [E Fa]].
  exists (lastc prev (c :: a)).
  rewrite E at 1.
  change (c :: a ++ lstrip_by dashy s) with ((c :: a) ++ lstrip_by dashy s).
  rewrite (sub_from_match re_dashes _ prev (c :: a) _ []).
  - reflexivity.
  - discriminate.
  - apply match_dashes; auto. apply lstrip_by_first.
Qed.

Lemma lstrip_by_length f s : length (lstrip_by f s) <= length s.
Proof.
  induction s as [|c s IH]; simpl; [lia|]. destruct (f c); simpl; lia.
Qed.

Lemma lstrip_by_Forall (P : ascii -> Prop) f s :
  Forall P s -> Forall P (lstrip_by f s).
Proof.
  induction 1 as [|c s Hc Hs IH]; simpl; [constructor|].
  destruct (f c); [assumption|now constructor].
Qed.

Lemma startswith_cons a p c s :
  startswith (a :: p) (c :: s) = Ascii.eqb a c && startswith p s.
Proof. reflexivity. Qed.

Lemma contains_cons p c s :
  contains p (c :: s) = startswith p (c :: s) || contains p s.
Proof. reflexivity. Qed.

Lemma no_dd_other c o :
  is_char "-" c = false -> contains (lit "--") o = false ->
  contains (lit "--") (c :: o) = false.
Proof.
  intros Hc Ho. rewrite contains_cons, Ho, orb_false_r.
  change (lit "--") with ("-"%char :: lit "-"). rewrite startswith_cons.
  unfold is_char in Hc. now rewrite Hc.
Qed.

Lemma no_dd_dash o :
  head_not (is_char "-") o -> contains (lit "--") o = false ->
  contains (lit "--") ("-"%char :: o) = false.
Proof.
  intros Hh Ho. rewrite contains_cons, Ho, orb_false_r.
  change (lit "--") with ("-"%char :: "-"%char :: []).
  rewrite startswith_cons. destruct o as [|x o]; [reflexivity|].
  rewrite startswith_cons. simpl in Hh. unfold is_char in Hh. rewrite Hh.
  reflexivity.
Qed.

(** What the replacement of the runs yields: hyphens and the other
    characters of the subject, no two hyphens in a row, and a leading
    hyphen only where the subject begins with a run. *)
Lemma sub_dashes_spec (P : ascii -> Prop) n : forall s prev,
  length s <= n -> Forall P s ->
  let o := sub_from re_dashes (fun _ _ => dash) 0 prev s in
  Forall (fun c => c = "-"%char \/ (P c /\ dashy c = false)) o
  /\ contains (lit "--") o = false
  /\ (head_not dashy s -> head_not (is_char "-") o).
Proof.
  induction n as [|n IH]; intros s prev Hl HP; cbn zeta.
  - destruct s; [|simpl in Hl; lia]. simpl. repeat split; auto.
  - destruct s as [|c s]; [simpl; repeat split; auto|].
    inversion HP as [|? ? Hc Hs]; subst.
    destruct (dashy c) eqn:Hd.
    + destruct (sub_dashes_cons_run prev c s Hd) as [p ->].
      destruct (IH (lstrip_by dashy s) p) as [F [C H]].
      { pose proof (lstrip_by_length dashy s). simpl in Hl. lia. }
      { now apply lstrip_by_Forall. }
      specialize (H (lstrip_by_first dashy s)).
      repeat split.
      * constructor; [now left|assumption].
      * now apply no_dd_dash.
      * simpl. intros; congruence.
    + rewrite sub_dashes_cons_keep by assumption.
      destruct (IH s (Some c)) as [F [C H]]; [simpl in Hl; lia|assumption|].
      assert (Hne : is_char "-" c = false).
      { unfold dashy in Hd. now apply orb_false_iff in Hd as [? _]. }
      repeat split.
      * constructor; [right; now split|assumption].
      * now apply no_dd_other.
      * intros _. exact Hne.
Qed.

Lemma startswith_app p : forall r b,
  startswith p r = true -> startswith p (r ++ b) = true.
Proof.
  induction p as [|a p IH]; intros r b H; [reflexivity|].
  destruct r as [|c r]; [discriminate|].
  cbn [app]. rewrite startswith_cons in *.
  apply andb_true_iff in H as [-> H]. now rewrite IH.
Qed.

Lemma contains_app_l p r b :
  contains p (r ++ b) = false -> contains p r = false.
Proof.
  induction r as [|c r IH]; cbn [app].
  - intros H. destruct p; [destruct b; discriminate|reflexivity].
  - rewrite !contains_cons. intros H. apply orb_false_iff in H as [H1 H2].
    rewrite (IH H2), orb_false_r.
    destruct (startswith p (c :: r)) eqn:E; [|reflexivity].
    pose proof (startswith_app p (c :: r) b E) as E'. cbn [app] in E'.
    congruence.
Qed.

Lemma contains_app_r p a r :
  contains p (a ++ r) = false -> contains p r = false.
Proof.
  induction a as [|c a IH]; cbn [app]; [auto|].
  rewrite contains_cons. intros H. apply orb_false_iff in H as [_ H]. auto.
Qed.

(** [strip] cuts a prefix and a suffix off. *)
Lemma strip_by_decomp f s :
  exists a b, s = a ++ strip_by f s ++ b
              /\ head_not f (strip_by f s)
              /\ head_not f (rev (strip_by f s)).
Proof.
  unfold strip_by, rstrip_by.
  destruct (lstrip_by_sub f s) as [a [Ea _]].
  pose proof (lstrip_by_first f s) as Hu.
  set (u := lstrip_by f s) in *.
  destruct (lstrip_by_sub f (rev u)) as [b [Eb _]].
  pose proof (lstrip_by_first f (rev u)) as Hw.
  set (w := lstrip_by f (rev u)) in *.
  assert (Eu : u = rev w ++ rev b).
  { rewrite <- (rev_involutive u), Eb, rev_app_distr. reflexivity. }
  exists a, (rev b). repeat split.
  - now rewrite <- Eu.
  - destruct (rev w) as [|c r] eqn:E; [exact I|].
    rewrite Eu in Hu. exact Hu.
  - rewrite rev_involutive. exact Hw.
Qed.

Lemma slug_char_facts c :
  slug_char c = true ->
  is_char "<" c = false /\ lower_char c = c /\ keep c = true
  /\ (is_char "-" c = false -> dashy c = false).
Proof. all_chars c. Qed.

Lemma kept_not_dashy c :
  is_upper c = false -> keep c = true -> dashy c = false -> slug_char c = true.
Proof. all_chars c. Qed.

Lemma sub_dashes_id : forall r prev,
  forallb slug_char r = true -> contains (lit "--") r = false ->
  sub_from re_dashes (fun _ _ => dash) 0 prev r = r.
Proof.
  induction r as [|c r IH]; intros prev Hs Hd; [reflexivity|].
  cbn [forallb] in Hs. apply andb_true_iff in Hs as [Hc Hs].
  rewrite contains_cons in Hd. apply orb_false_iff in Hd as [Hd1 Hd2].
  destruct (slug_char_facts c Hc) as (_ & _ & _ & Hnd).
  destruct (is_char "-" c) eqn:E.
  - apply is_char_eq in E. subst c.
    assert (Hr : head_not dashy r).
    { destruct r as [|x r]; [exact I|]. cbn [forallb] in Hs.
      apply andb_true_iff in Hs as [Hx _].
      destruct (slug_char_facts x Hx) as (_ & _ & _ & Hx').
      apply Hx'. change (lit "--") with ["-"%char; "-"%char] in Hd1.
      rewrite !startswith_cons in Hd1. cbn [startswith] in Hd1.
      rewrite andb_true_r in Hd1. exact Hd1. }
    change ("-"%char :: r) with (["-"%char] ++ r).
    rewrite (sub_from_match re_dashes _ prev ["-"%char] r []).
    + cbn [app dash lit list_ascii_of_string]. f_equal. auto.
    + discriminate.
    + apply match_dashes; auto.
  - rewrite sub_dashes_cons_keep by auto. f_equal. auto.
Qed.

Lemma forallb_filter_id (f : ascii -> bool) s :
  forallb f s = true -> filter f s = s.
Proof.
  induction s as [|c s IH]; simpl; [reflexivity|].
  intros H. apply andb_true_iff in H as [-> H]. now rewrite IH.
Qed.

(** A normalized slug is left as it is. *)
Lemma create_anchor_id_fixed r :
  forallb slug_char r = true -> contains (lit "--") r = false ->
  head_not (is_char "-") r -> head_not (is_char "-") (rev r) ->
  create_anchor_id r = r.
Proof.
  intros Hs Hd H1 H2. unfold create_anchor_id.
  assert (Hall : Forall (fun c => slug_char c = true) r).
  { apply Forall_forall. now apply forallb_forall. }
  rewrite sub_tag_id.
  2:{ apply forallb_forall. intros c Hc. apply negb_true_iff.
      rewrite Forall_forall in Hall. now apply slug_char_facts, Hall. }
  assert (El : lower r = r).
  { unfold lower. clear -Hall. induction Hall as [|c r Hc _ IH]; simpl.
    - reflexivity.
    - rewrite IH. f_equal. now apply slug_char_facts. }
  rewrite El, sub_special, forallb_filter_id.
  2:{ apply forallb_forall. intros c Hc.
      rewrite Forall_forall in Hall. now apply slug_char_facts, Hall. }
  unfold sub. fold dash. rewrite sub_dashes_id by assumption.
  now apply strip_by_id.
Qed.

Lemma Forall_app_mid (P : ascii -> Prop) a r b :
  Forall P (a ++ r ++ b) -> Forall P r.
Proof.
  intros H. apply Forall_app in H as [_ H]. now apply Forall_app in H as [H _].
Qed.

(** The result of [create_anchor_id] is a normalized slug. *)
Lemma create_anchor_id_normal s :
  forallb slug_char (create_anchor_id s) = true
  /\ contains (lit "--") (create_anchor_id s) = false
  /\ head_not (is_char "-") (create_anchor_id s)
  /\ head_not (is_char "-") (rev (create_anchor_id s)).
Proof.
  unfold create_anchor_id. rewrite sub_special.
  set (t3 := filter keep _).
  assert (H3 : Forall (fun c => is_upper c = false /\ keep c = true) t3).
  { apply Forall_forall. intros c Hc. apply filter_In in Hc as [Hc Hk].
    split; [|assumption]. unfold lower in Hc. apply in_map_iff in Hc as [x [<- _]].
    apply lower_char_fixed. }
  unfold sub. fold dash.
  destruct (sub_dashes_spec _ (length t3) t3 None (le_n _) H3) as [F [C _]].
  cbv zeta in F, C. set (t4 := sub_from re_dashes _ 0 None t3) in *.
  destruct (strip_by_decomp (is_char "-") t4) as (a & b & E & Hh & Hl).
  repeat split; try assumption.
  - rewrite E in F. apply Forall_app_mid in F.
    apply forallb_forall. rewrite Forall_forall in F. intros c Hc.
    destruct (F c Hc) as [->|[[Hu Hk] Hd]]; [reflexivity|].
    now apply kept_not_dashy.
  - rewrite E in C. now apply contains_app_r, contains_app_l in C.
Qed.


End AnchorFacts.

(* ------------------------------------------------------------------ *)
(** ** convert_tables *)

Module TableFacts.
Import Py Re Markup Aux Kindle.

Lemma open_after_app a : forall st b,
  open_after st (a ++ b)
  = match open_after st a with
    | Some st' => open_after st' b
    | None => None
    end.
Proof.
  induction a as [|o a IH]; intros st b; [reflexivity|].
  destruct o as [e|e|h c|l]; cbn [app open_after]; auto.
  destruct st as [|e' st]; [reflexivity|]. destruct (elem_eqb e e'); auto.
Qed.

Lemma open_after_cells h cs : forall st,
  open_after st (map (Cell h) cs) = Some st.
Proof. induction cs as [|c cs IH]; intros st; simpl; auto. Qed.

Lemma open_after_row h line st : open_after st (row h line) = Some st.
Proof.
  unfold row. cbn [app open_after].
  rewrite open_after_app, open_after_cells. reflexivity.
Qed.

(** Outside a table the loop leaves the open tags as they were; inside
    one it closes the body and the table. *)
Lemma convert_tables_loop_balanced lines : forall st,
  open_after st (convert_tables_loop false lines) = Some st
  /\ open_after (Tbody :: Table :: st) (convert_tables_loop true lines) = Some st.
Proof.
  induction lines as [|line rest IH]; intros st.
  - split; reflexivity.
  - destruct (IH st) as [IHf IHt].
    cbn [convert_tables_loop].
    destruct (is_table_line line); cbn [negb].
    + split.
      * destruct (match rest with next :: _ => is_separator next | [] => false end).
        -- cbn [app open_after]. rewrite open_after_app, open_after_row.
           cbn [app open_after elem_eqb]. exact IHt.
        -- cbn [app open_after].
           destruct (is_separator line); [exact IHt|].
           rewrite open_after_app, open_after_row. exact IHt.
      * destruct (is_separator line); [exact IHt|].
        rewrite open_after_app, open_after_row. exact IHt.
    + split; cbn [app open_after elem_eqb]; exact IHf.
Qed.

(** C6.  The tags that [convert_tables] appends are balanced on every
    input: each [<table>], [<thead>], [<tbody>] and [<tr>] it opens is
    closed later by the matching closing tag, in nesting order, also when
    the input ends inside a table. *)
Theorem convert_tables_balanced html :
  open_after [] (convert_tables_out html) = Some []
  /\ convert_tables html = join [nl] (map render (convert_tables_out html)).
Proof.
  split; [|reflexivity].
  apply (convert_tables_loop_balanced (split nl html) []).
Qed.

End TableFacts.

(* ------------------------------------------------------------------ *)
(** ** Passes that leave a text as it is *)

Module PassFacts.
Import Py Re Markup Aux PyFacts ReFacts AnchorFacts Kindle.

Lemma pairs_ok_cons ok prev c s :
  pairs_ok ok prev (c :: s) = ok prev c && pairs_ok ok (Some c) s.
Proof. reflexivity. Qed.

Lemma pairs_ok_app ok a : forall prev b,
  pairs_ok ok prev (a ++ b) = pairs_ok ok prev a && pairs_ok ok (lastc prev a) b.
Proof.
  induction a as [|c a IH]; intros prev b; [reflexivity|].
  cbn [app pairs_ok]. rewrite IH, andb_assoc. reflexivity.
Qed.

Lemma pairs_ok_weaken (ok ok' : option ascii -> ascii -> bool) :
  (forall prev c, ok prev c = true -> ok' prev c = true) ->
  forall s prev, pairs_ok ok prev s = true -> pairs_ok ok' prev s = true.
Proof.
  intros H. induction s as [|c s IH]; intros prev Hs; [reflexivity|].
  cbn [pairs_ok] in *. apply andb_true_iff in Hs as [H1 H2].
  rewrite (H _ _ H1). cbn [andb]. auto.
Qed.

Lemma pairs_ok_forallb ok (f : ascii -> bool) :
  (forall prev c, f c = true -> ok prev c = true) ->
  forall s prev, forallb f s = true -> pairs_ok ok prev s = true.
Proof.
  intros H. induction s as [|c s IH]; intros prev Hs; [reflexivity|].
  cbn [pairs_ok forallb] in *. apply andb_true_iff in Hs as [H1 H2].
  rewrite (H _ _ H1). cbn [andb]. auto.
Qed.

(** The check depends on the character before the text only through [P]. *)
Lemma pairs_ok_guard_prev P F prev prev' s :
  P prev = P prev' ->
  pairs_ok (guard P F) prev s = pairs_ok (guard P F) prev' s.
Proof. intros E. destruct s; [reflexivity|]. cbn [pairs_ok]. unfold guard. now rewrite E. Qed.

(** A pattern whose matches need a forbidden pair at their start matches
    nowhere in a text without such a pair. *)
Lemma nowhere_pairs r ok :
  (forall prev, match_at r prev [] = None) ->
  (forall prev c s, ok prev c = true -> match_at r prev (c :: s) = None) ->
  forall s prev, pairs_ok ok prev s = true -> nowhere r prev s.
Proof.
  intros Hnil Hcons. induction s as [|c s IH]; intros prev Hs.
  - split; [apply Hnil|exact I].
  - cbn [pairs_ok] in Hs. apply andb_true_iff in Hs as [H1 H2].
    split; [now apply Hcons|]. now apply IH.
Qed.

(** The same for a pattern that looks at its first two characters and not
    at the one before. *)
Lemma nowhere_pairs2 r ok :
  (forall prev, match_at r prev [] = None) ->
  (forall prev c, match_at r prev [c] = None) ->
  (forall prev c1 c2 s, ok (Some c1) c2 = true ->
                        match_at r prev (c1 :: c2 :: s) = None) ->
  forall s prev prev', pairs_ok ok prev s = true -> nowhere r prev' s.
Proof.
  intros Hnil Hone Htwo. induction s as [|c s IH]; intros prev prev' Hs.
  - split; [apply Hnil|exact I].
  - cbn [pairs_ok] in Hs. apply andb_true_iff in Hs as [_ H2].
    split; [|now apply (IH (Some c))].
    destruct s as [|c2 s]; [apply Hone|].
    cbn [pairs_ok] in H2. apply andb_true_iff in H2 as [H2 _].
    now apply Htwo.
Qed.

Lemma sub_id_pairs r repl ok s :
  (forall prev, match_at r prev [] = None) ->
  (forall prev c s, ok prev c = true -> match_at r prev (c :: s) = None) ->
  pairs_ok ok None s = true -> sub r repl s = s.
Proof.
  intros H1 H2 H3. apply sub_from_nowhere. now apply (nowhere_pairs r ok).
Qed.

(** *** What each pattern needs at its start *)

Lemma guard_false P F prev c :
  guard P F prev c = true -> P prev = false \/ F c = false.
Proof. unfold guard. intros H. apply negb_true_iff, andb_false_iff in H. exact H. Qed.

Ltac unlit :=
  unfold Lit, lit, Dot, DotAll, NotChr, Plus, Opt;
  cbn [list_ascii_of_string Lit_chars].

Ltac needs H :=
  unfold match_at; unlit; step_m;
  destruct (guard_false _ _ _ _ H) as [E | E]; cbn [after_char] in E;
  [first [discriminate E | rewrite E] | rewrite E];
  repeat match goal with |- context [if ?b then _ else _] => destruct b end;
  reflexivity.

Ltac needs_nil :=
  unfold match_at; unlit; step_m;
  repeat match goal with |- context [if ?b then _ else _] => destruct b end;
  reflexivity.

(** [^<marker>...]: the start of a line and the first character of the
    marker. *)
Lemma re_line_needs F marker prev c s :
  guard (at_bol true) F prev c = true ->
  match_at (re_line (Seq (Cls F) marker)) prev (c :: s) = None.
Proof. intros H. unfold re_line. needs H. Qed.

Lemma re_line_nil F marker prev :
  match_at (re_line (Seq (Cls F) marker)) prev [] = None.
Proof. unfold re_line. needs_nil. Qed.

Lemma re_numbered_item_needs prev c s :
  guard (at_bol true) is_digit prev c = true ->
  match_at re_numbered_item prev (c :: s) = None.
Proof. intros H. unfold re_numbered_item, Plus. needs H. Qed.

Lemma re_numbered_item_nil prev : match_at re_numbered_item prev [] = None.
Proof. unfold re_numbered_item, Plus. needs_nil. Qed.

Lemma re_rule_needs prev c s :
  guard (at_bol true) (is_char "-") prev c = true ->
  match_at re_rule prev (c :: s) = None.
Proof. intros H. unfold re_rule. needs H. Qed.

Lemma re_rule_nil prev : match_at re_rule prev [] = None.
Proof. unfold re_rule. needs_nil. Qed.

Lemma re_code_block_needs prev c s :
  guard anywhere (is_char "`") prev c = true ->
  match_at re_code_block prev (c :: s) = None.
Proof. intros H. unfold re_code_block. needs H. Qed.

Lemma re_code_block_nil prev : match_at re_code_block prev [] = None.
Proof. unfold re_code_block. needs_nil. Qed.

Lemma re_inline_code_needs prev c s :
  guard anywhere (is_char "`") prev c = true ->
  match_at re_inline_code prev (c :: s) = None.
Proof. intros H. unfold re_inline_code. needs H. Qed.

Lemma re_inline_code_nil prev : match_at re_inline_code prev [] = None.
Proof. unfold re_inline_code. needs_nil. Qed.

Lemma re_emph_needs rest prev c s :
  guard anywhere (is_char "*") prev c = true ->
  match_at (re_emph (String "*" rest)) prev (c :: s) = None.
Proof.
  intros H. unfold re_emph, Lit, lit. cbn [list_ascii_of_string Lit_chars].
  destruct (list_ascii_of_string rest); needs H.
Qed.

Lemma re_emph_nil rest prev : match_at (re_emph (String "*" rest)) prev [] = None.
Proof.
  unfold re_emph, Lit, lit. cbn [list_ascii_of_string Lit_chars].
  destruct (list_ascii_of_string rest); needs_nil.
Qed.

Lemma re_link_needs prev c s :
  guard anywhere (is_char "[") prev c = true ->
  match_at re_link prev (c :: s) = None.
Proof. intros H. unfold re_link. needs H. Qed.

Lemma re_link_nil prev : match_at re_link prev [] = None.
Proof. unfold re_link. needs_nil. Qed.

Lemma re_list_items_needs prev c1 c2 s :
  guard (after_char "<") (is_char "l") (Some c1) c2 = true ->
  match_at re_list_items prev (c1 :: c2 :: s) = None.
Proof. intros H. unfold re_list_items. needs H. Qed.

Lemma re_list_items_one prev c : match_at re_list_items prev [c] = None.
Proof. unfold re_list_items. needs_nil. Qed.

Lemma re_list_items_nil prev : match_at re_list_items prev [] = None.
Proof. unfold re_list_items. needs_nil. Qed.

(** *** Texts without forbidden pairs *)

Lemma pairs_ok_guard_forallb P F s : forall prev,
  forallb (fun c => negb (F c)) s = true -> pairs_ok (guard P F) prev s = true.
Proof.
  apply pairs_ok_forallb. intros prev c H. unfold guard.
  apply negb_true_iff in H. rewrite H. now rewrite andb_false_r.
Qed.

Lemma lastc_cases prev a :
  lastc prev a = prev /\ a = [] \/ exists c, In c a /\ lastc prev a = Some c.
Proof.
  revert prev. induction a as [|c a IH]; intros prev; [now left|].
  right. cbn [lastc fold_left]. destruct (IH (Some c)) as [[E ->]|[x [Hx E]]].
  - exists c. split; [now left|exact E].
  - exists x. split; [now right|exact E].
Qed.

Lemma forallb_forall_impl (f g : ascii -> bool) s :
  (forall c, f c = true -> g c = true) ->
  forallb f s = true -> forallb g s = true.
Proof.
  intros H. induction s as [|c s IH]; [reflexivity|]. cbn [forallb].
  intros E. apply andb_true_iff in E as [E1 E2]. now rewrite (H _ E1), IH.
Qed.

(** A stretch of text after which [P] does not hold is passed over. *)
Lemma pairs_ok_guard_skip P F q a b prev :
  P prev = false -> forallb (fun c => negb (P (Some c))) a = true ->
  P q = false ->
  pairs_ok (guard P F) prev (a ++ b) = pairs_ok (guard P F) q b.
Proof.
  intros Hp Ha Hq. rewrite pairs_ok_app.
  assert (E : pairs_ok (guard P F) prev a = true).
  { clear b. revert prev Hp. induction a as [|c a IH]; intros prev Hp; [reflexivity|].
    cbn [pairs_ok forallb] in *. apply andb_true_iff in Ha as [Hc Ha].
    unfold guard at 1. rewrite Hp. cbn [andb negb].
    apply IH; [assumption|now apply negb_true_iff in Hc]. }
  rewrite E. cbn [andb]. apply pairs_ok_guard_prev.
  rewrite Hq. destruct (lastc_cases prev a) as [[-> _]|[c [Hc ->]]]; [assumption|].
  rewrite forallb_forall in Ha. now apply negb_true_iff, Ha.
Qed.

(** *** Tables and paragraphs *)

Lemma contains_single a s :
  forallb (fun c => negb (is_char a c)) s = true -> contains [a] s = false.
Proof.
  induction s as [|c s IH]; [reflexivity|].
  cbn [forallb]. intros H. apply andb_true_iff in H as [Hc Hs].
  rewrite contains_cons, (IH Hs), orb_false_r, startswith_cons.
  apply negb_true_iff in Hc. unfold is_char in Hc. now rewrite Hc.
Qed.

Lemma split_Forall (f : ascii -> bool) sep s :
  forallb f s = true -> Forall (fun l => forallb f l = true) (split sep s).
Proof.
  induction s as [|c s IH]; cbn [split forallb].
  - intros _. now repeat constructor.
  - intros H. apply andb_true_iff in H as [Hc Hs]. specialize (IH Hs).
    destruct (Ascii.eqb sep c); [now constructor|].
    destruct (split sep s) as [|l ls]; [now repeat constructor; cbn; rewrite Hc|].
    inversion IH; subst. constructor; [|assumption].
    cbn [forallb]. now rewrite Hc.
Qed.

Lemma split_nonempty sep s : split sep s <> [].
Proof.
  destruct s as [|c s]; cbn [split]; [discriminate|].
  destruct (Ascii.eqb sep c); [discriminate|]. now destruct (split sep s).
Qed.

Lemma join_cons_ne sep p ps :
  ps <> [] -> join sep (p :: ps) = p ++ sep ++ join sep ps.
Proof. destruct ps; [congruence|reflexivity]. Qed.

Lemma join_cons_head sep (c : ascii) l ls :
  join sep ((c :: l) :: ls) = c :: join sep (l :: ls).
Proof. destruct ls; reflexivity. Qed.

Lemma join_split sep s : join [sep] (split sep s) = s.
Proof.
  induction s as [|c s IH]; [reflexivity|]. cbn [split].
  destruct (Ascii.eqb_spec sep c) as [->|Hne].
  - rewrite join_cons_ne by apply split_nonempty. now rewrite IH.
  - pose proof (split_nonempty sep s) as Hs.
    destruct (split sep s) as [|l ls] eqn:E; [congruence|].
    rewrite join_cons_head. f_equal. exact IH.
Qed.

Lemma convert_tables_loop_plain lines :
  Forall (fun l => is_table_line l = false) lines ->
  convert_tables_loop false lines = map Line lines.
Proof.
  induction 1 as [|l ls Hl _ IH]; [reflexivity|].
  cbn [convert_tables_loop map]. rewrite Hl, IH. reflexivity.
Qed.

(** A text without table lines goes through [convert_tables] as it is. *)
Lemma convert_tables_id html :
  Forall (fun l => is_table_line l = false) (split nl html) ->
  convert_tables html = html.
Proof.
  intros H. unfold convert_tables, convert_tables_out.
  rewrite convert_tables_loop_plain by assumption.
  rewrite map_map. cbn [render]. rewrite map_id. apply join_split.
Qed.

Lemma no_bar_no_table_line html :
  forallb (fun c => negb (is_char "|" c)) html = true ->
  Forall (fun l => is_table_line l = false) (split nl html).
Proof.
  intros H. eapply Forall_impl; [|apply split_Forall, H].
  intros l Hl. unfold is_table_line.
  change (lit "|") with ["|"%char]. now rewrite contains_single.
Qed.

Lemma split_no_sep sep s :
  forallb (fun c => negb (is_char sep c)) s = true -> split sep s = [s].
Proof.
  induction s as [|c s IH]; [reflexivity|]. cbn [forallb split].
  intros H. apply andb_true_iff in H as [Hc Hs].
  apply negb_true_iff in Hc. unfold is_char in Hc. now rewrite Hc, IH.
Qed.

Lemma pairs_ok_no_P P F a : forall prev,
  P prev = false -> forallb (fun c => negb (P (Some c))) a = true ->
  pairs_ok (guard P F) prev a = true.
Proof.
  induction a as [|c a IH]; intros prev Hp Ha; [reflexivity|].
  cbn [pairs_ok forallb] in *. apply andb_true_iff in Ha as [Hc Ha].
  unfold guard at 1. rewrite Hp. cbn [andb negb].
  apply IH; [now apply negb_true_iff in Hc|assumption].
Qed.

Lemma at_bol_no_nl c : no_nl c = true -> negb (at_bol true (Some c)) = true.
Proof.
  unfold no_nl, is_char. cbn [at_bol andb]. now rewrite Ascii.eqb_sym.
Qed.

(** A line that does not begin with a character of [F]. *)
Lemma pairs_ok_single_line F c s :
  F c = false -> forallb no_nl (c :: s) = true ->
  pairs_ok (guard (at_bol true) F) None (c :: s) = true.
Proof.
  intros Hc Hs. cbn [pairs_ok forallb] in *. apply andb_true_iff in Hs as [H1 H2].
  unfold guard at 1. rewrite Hc, andb_false_r. cbn [negb andb].
  apply pairs_ok_no_P.
  - now apply negb_true_iff, at_bol_no_nl.
  - revert H2. apply forallb_forall_impl. intros x. apply at_bol_no_nl.
Qed.

Lemma split_blank_id : forall s prev,
  pairs_ok (guard (after_char nl) (is_char nl)) prev s = true ->
  split_blank s = [s].
Proof.
  induction s as [|c s IH]; intros prev H; [reflexivity|].
  cbn [pairs_ok] in H. apply andb_true_iff in H as [_ H].
  cbn [split_blank]. destruct s as [|c2 s]; [reflexivity|].
  pose proof H as H'. cbn [pairs_ok] in H'. apply andb_true_iff in H' as [Hg _].
  unfold guard, after_char, is_char in Hg. apply negb_true_iff in Hg.
  rewrite (Ascii.eqb_sym c nl), (Ascii.eqb_sym c2 nl), Hg.
  now rewrite (IH _ H).
Qed.

(** A paragraph that begins with an opening angle bracket and has no white
    space at its ends is left as it is. *)
Lemma convert_paragraph_id s :
  head_not is_space (rev ("<"%char :: s)) ->
  convert_paragraph ("<"%char :: s) = "<"%char :: s.
Proof.
  intros H. unfold convert_paragraph, strip.
  rewrite strip_by_id; [reflexivity|reflexivity|exact H].
Qed.

End PassFacts.

(* ------------------------------------------------------------------ *)
(** ** The passes after the code blocks on a text they do not touch *)

Module QuietFacts.
Import Py Re Markup Aux PyFacts ReFacts AnchorFacts PassFacts Kindle.

Lemma simple_markdown_to_html_stages s :
  simple_markdown_to_html s
  = block_passes (wrap_pass (item_passes (inline_passes
      (code_pass (header_passes s))))).
Proof. reflexivity. Qed.

Lemma not_one_of l a c :
  In a l -> negb (one_of l c) = true -> negb (is_char a c) = true.
Proof.
  intros Hin H. apply negb_true_iff in H. apply negb_true_iff.
  unfold one_of in H. destruct (is_char a c) eqn:E; [|reflexivity].
  rewrite <- H. symmetry. apply existsb_exists. exists a. now split.
Qed.

Lemma guard_weaken P (F G : ascii -> bool) prev c :
  (forall x, F x = true -> G x = true) ->
  guard P G prev c = true -> guard P F prev c = true.
Proof.
  intros H E. destruct (guard_false _ _ _ _ E) as [E1|E1]; unfold guard.
  - now rewrite E1.
  - destruct (F c) eqn:EF; [|now rewrite andb_false_r].
    apply H in EF. congruence.
Qed.

Lemma sub_id_char r repl a l s :
  (forall prev, match_at r prev [] = None) ->
  (forall prev c s, guard anywhere (is_char a) prev c = true ->
                    match_at r prev (c :: s) = None) ->
  In a l -> forallb (fun c => negb (one_of l c)) s = true ->
  sub r repl s = s.
Proof.
  intros H1 H2 Hin Hs. apply (sub_id_pairs r repl _ s H1 H2).
  apply pairs_ok_guard_forallb.
  revert Hs. apply forallb_forall_impl. intros c. now apply not_one_of.
Qed.

Lemma sub_id_bol r repl (F G : ascii -> bool) s :
  (forall prev, match_at r prev [] = None) ->
  (forall prev c s, guard (at_bol true) F prev c = true ->
                    match_at r prev (c :: s) = None) ->
  (forall x, F x = true -> G x = true) ->
  pairs_ok (guard (at_bol true) G) None s = true ->
  sub r repl s = s.
Proof.
  intros H1 H2 HFG Hs. apply (sub_id_pairs r repl _ s H1 H2).
  revert Hs. apply pairs_ok_weaken. intros prev c. now apply guard_weaken.
Qed.

Lemma inline_passes_quiet html : quiet html -> inline_passes html = html.
Proof.
  intros (Hc & _). unfold inline_passes. cbv zeta.
  rewrite (sub_id_char re_inline_code _ "`" inline_marks html
             re_inline_code_nil re_inline_code_needs (or_introl eq_refl) Hc).
  rewrite (sub_id_char (re_emph "***") _ "*" inline_marks html
             (re_emph_nil _) (re_emph_needs _) (or_intror (or_introl eq_refl)) Hc).
  rewrite (sub_id_char (re_emph "**") _ "*" inline_marks html
             (re_emph_nil _) (re_emph_needs _) (or_intror (or_introl eq_refl)) Hc).
  rewrite (sub_id_char (re_emph "*") _ "*" inline_marks html
             (re_emph_nil _) (re_emph_needs _) (or_intror (or_introl eq_refl)) Hc).
  apply (sub_id_char re_link _ "[" inline_marks html re_link_nil re_link_needs
           (or_intror (or_intror (or_introl eq_refl))) Hc).
Qed.

Lemma item_passes_quiet html : quiet html -> item_passes html = html.
Proof.
  intros (_ & _ & Hb & _). unfold item_passes. cbv zeta.
  rewrite (sub_id_bol re_numbered_item _ is_digit line_marks html
             re_numbered_item_nil re_numbered_item_needs).
  - apply (sub_id_bol re_bullet_item _ bullet_class line_marks html
             (re_line_nil _ _) (re_line_needs _ _)); [|exact Hb].
    intros x Hx. unfold line_marks. now rewrite Hx, orb_true_r.
  - intros x Hx. unfold line_marks. now rewrite Hx.
  - exact Hb.
Qed.

Lemma wrap_pass_quiet html : quiet html -> wrap_pass html = html.
Proof.
  intros (_ & _ & _ & Hw & _). unfold wrap_pass. apply sub_from_nowhere.
  apply (nowhere_pairs2 re_list_items _ re_list_items_nil re_list_items_one
           re_list_items_needs html None None Hw).
Qed.

Lemma block_passes_quiet s :
  quiet ("<"%char :: s) -> head_not is_space (rev ("<"%char :: s)) ->
  block_passes ("<"%char :: s) = "<"%char :: s.
Proof.
  intros (Hc & Ht & Hb & _ & Hn) Hr. unfold block_passes. cbv zeta.
  rewrite (sub_id_bol (re_line (Lit "> ")) _ (is_char ">") line_marks _
             (re_line_nil _ _) (re_line_needs _ _)).
  2:{ intros x Hx. unfold line_marks. now rewrite Hx, orb_true_r. }
  2:{ exact Hb. }
  rewrite (sub_id_bol re_rule _ (is_char "-") line_marks _ re_rule_nil re_rule_needs).
  2:{ intros x Hx. unfold line_marks, bullet_class. now rewrite Hx, orb_true_r. }
  2:{ exact Hb. }
  rewrite convert_tables_id by exact Ht.
  rewrite (split_blank_id _ None Hn). cbn [map join].
  now apply convert_paragraph_id.
Qed.

(** A quiet text that begins with an opening angle bracket and does not end
    with white space comes out of the later passes as it is. *)
Lemma later_passes_quiet s :
  quiet ("<"%char :: s) -> head_not is_space (rev ("<"%char :: s)) ->
  block_passes (wrap_pass (item_passes (inline_passes ("<"%char :: s))))
  = "<"%char :: s.
Proof.
  intros Hq Hr.
  rewrite inline_passes_quiet, item_passes_quiet, wrap_pass_quiet by assumption.
  now apply block_passes_quiet.
Qed.

End QuietFacts.

(* ------------------------------------------------------------------ *)
(** ** A level-2 header line *)

Module HeaderFacts.
Import Py Re Markup Aux PyFacts ReFacts AnchorFacts PassFacts QuietFacts Kindle.

(** Tests of known characters. *)
Ltac eval_chars :=
  repeat match goal with
  | |- context [is_char ?a ?c] =>
      let v := eval vm_compute in (is_char a c) in
      match v with
      | true => change (is_char a c) with true
      | false => change (is_char a c) with false
      end
  | |- context [is_word ?c] =>
      let v := eval vm_compute in (is_word c) in
      match v with
      | true => change (is_word c) with true
      | false => change (is_word c) with false
      end
  | |- context [at_bol ?ml ?p] =>
      let v := eval vm_compute in (at_bol ml p) in
      match v with
      | true => change (at_bol ml p) with true
      | false => change (at_bol ml p) with false
      end
  end; cbv iota.

Ltac run_m := repeat (progress (step_m; eval_chars)).

Ltac eval_guards :=
  repeat match goal with
  | |- context [guard ?P ?F ?p ?c] =>
      let v := eval vm_compute in (guard P F p c) in
      match v with
      | true => change (guard P F p c) with true
      | false => change (guard P F p c) with false
      end
  end; cbn [andb].

(** A lazy repetition stops at the first position where the rest of the
    pattern matches. *)
Lemma lazy_run p a : forall prev b cs k x,
  forallb p a = true ->
  (forall a1 c a2, a = a1 ++ c :: a2 ->
                   k (lastc prev a1) (c :: a2 ++ b) cs = None) ->
  k (lastc prev a) b cs = Some x ->
  lazy p prev (a ++ b) cs k = Some x.
Proof.
  induction a as [|c a IH]; intros prev b cs k x Ha Hn Hk.
  - cbn [app lastc fold_left] in *. destruct b; cbn [lazy]; now rewrite Hk.
  - cbn [app lazy]. pose proof (Hn [] c a eq_refl) as H0.
    cbn [lastc fold_left] in H0. rewrite H0.
    cbn [forallb] in Ha. apply andb_true_iff in Ha as [-> Ha].
    apply IH; [assumption| |exact Hk].
    intros a1 c' a2 E. apply (Hn (c :: a1) c' a2). now rewrite E.
Qed.

Lemma in_middle_no_nl (a a1 a2 : str) c :
  forallb no_nl a = true -> a = a1 ++ c :: a2 -> Ascii.eqb c nl = false.
Proof.
  intros H E. rewrite forallb_forall in H.
  assert (Hc : no_nl c = true) by (apply H; rewrite E; apply in_elt).
  unfold no_nl, is_char in Hc. apply negb_true_iff in Hc.
  now rewrite Ascii.eqb_sym.
Qed.

(** [^## (.*?)$] on the line [## t]. *)
Lemma match_header2 t :
  forallb no_nl t = true ->
  match_at (re_line (Lit "## ")) None (lit "## " ++ t)
  = Some (length (lit "## " ++ t), [(1, t)]).
Proof.
  intros Ht. unfold match_at, re_line. unlit.
  cbn [app]. run_m.
  rewrite <- (app_nil_r t) at 1.
  rewrite (lazy_run _ t _ [] [] _ ([], [(1, t)]) Ht).
  - cbn [length]. now rewrite Nat.sub_0_r.
  - intros a1 c a2 E. run_m. cbn [at_eol].
    now rewrite (in_middle_no_nl t a1 a2 c Ht E).
  - run_m. cbn [at_eol length]. rewrite Nat.sub_0_r, firstn_all. reflexivity.
Qed.

Lemma plain_header_char_facts c :
  plain_header_char c = true ->
  no_nl c = true /\ negb (one_of inline_marks c) = true
  /\ negb (after_char "<" (Some c)) = true.
Proof. all_chars c. Qed.

Lemma slug_char_plain c : slug_char c = true -> plain_header_char c = true.
Proof. all_chars c. Qed.

Lemma space_not_plain_start : is_space "<" = false /\ is_space ">" = false.
Proof. split; reflexivity. Qed.

(** The header element of a plain text is a quiet line. *)
Section Element.
Variable t : str.
Hypothesis Ht : forallb plain_header_char t = true.

Let id := create_anchor_id t.
Let H := header_element "h2" id t.

Lemma id_plain : forallb plain_header_char id = true.
Proof.
  destruct (create_anchor_id_normal t) as [Hs _].
  revert Hs. apply forallb_forall_impl, slug_char_plain.
Qed.

Ltac element_forallb f :=
  unfold H, header_element; rewrite !forallb_app;
  rewrite (forallb_forall_impl plain_header_char f id),
          (forallb_forall_impl plain_header_char f t);
  [reflexivity | | exact Ht | | exact id_plain];
  intros c Hc; now apply plain_header_char_facts.

Lemma element_no_nl : forallb no_nl H = true.
Proof. element_forallb no_nl. Qed.

Lemma element_no_marks :
  forallb (fun c => negb (one_of inline_marks c)) H = true.
Proof. element_forallb (fun c => negb (one_of inline_marks c)). Qed.

Lemma element_shape : exists s, H = "<"%char :: s.
Proof. unfold H, header_element. cbn [lit list_ascii_of_string app]. eauto. Qed.

Lemma element_line (F : ascii -> bool) :
  F "<"%char = false -> pairs_ok (guard (at_bol true) F) None H = true.
Proof.
  intros HF. pose proof element_no_nl as Hn.
  destruct element_shape as [s E]. rewrite E in *.
  now apply pairs_ok_single_line.
Qed.

Lemma element_quiet : quiet H.
Proof.
  repeat split.
  - apply element_no_marks.
  - rewrite split_no_sep by apply element_no_nl.
    constructor; [|constructor]. unfold is_table_line, strip.
    destruct element_shape as [s ->].
    unfold strip_by. rewrite lstrip_by_head by reflexivity.
    destruct (rstrip_by is_space ("<"%char :: s)) as [|c r] eqn:E.
    + now rewrite andb_false_r.
    + assert (Hc : c = "<"%char).
      { destruct (lstrip_by_sub is_space (rev ("<"%char :: s))) as [a [Ea _]].
        unfold rstrip_by in E.
        apply (f_equal (@rev ascii)) in Ea. rewrite rev_involutive in Ea.
        rewrite rev_app_distr, E in Ea. now inversion Ea. }
      subst c. change (lit "|") with ["|"%char].
      rewrite startswith_cons. cbn. now rewrite andb_false_r.
  - apply element_line. reflexivity.
  - unfold H, header_element. cbn [lit list_ascii_of_string app pairs_ok].
    eval_guards.
    rewrite (pairs_ok_guard_skip _ _ None id); cycle 1.
    { reflexivity. }
    { generalize id_plain. apply forallb_forall_impl.
      intros c Hc. now apply plain_header_char_facts. }
    { reflexivity. }
    cbn [app pairs_ok]. eval_guards.
    rewrite (pairs_ok_guard_skip _ _ None t); cycle 1.
    { reflexivity. }
    { generalize Ht. apply forallb_forall_impl.
      intros c Hc. now apply plain_header_char_facts. }
    { reflexivity. }
    reflexivity.
  - apply pairs_ok_guard_forallb. apply element_no_nl.
Qed.

Lemma element_end : head_not is_space (rev H).
Proof.
  unfold H, header_element. rewrite !rev_app_distr.
  cbn [lit list_ascii_of_string rev app]. reflexivity.
Qed.

End Element.

Lemma plain_header_no_nl t :
  plain_header t = true -> forallb no_nl t = true.
Proof.
  apply forallb_forall_impl. intros c Hc. now apply plain_header_char_facts.
Qed.

(** The five header passes on the line [## t]. *)
Lemma header_passes_header2 t :
  plain_header t = true ->
  header_passes (lit "## " ++ t) = header_element "h2" (create_anchor_id t) t.
Proof.
  intros Ht. pose proof (plain_header_no_nl t Ht) as Hn.
  unfold header_passes. cbv zeta.
  (* h1 does not match: the second character is a hash *)
  assert (E1 : sub (re_line (Lit "# ")) (header_repl "h1") (lit "## " ++ t)
               = lit "## " ++ t).
  { apply sub_from_nowhere. cbn [lit list_ascii_of_string app].
    apply nowhere_cons.
    - unfold match_at, re_line. unlit. run_m. reflexivity.
    - apply (nowhere_pairs _ (guard (at_bol true) (is_char "#"))
               (re_line_nil _ _) (re_line_needs _ _)).
      apply pairs_ok_no_P; [reflexivity|].
      cbn [forallb]. rewrite !andb_true_iff. repeat split; try reflexivity.
      revert Hn. apply forallb_forall_impl. intros x. apply at_bol_no_nl. }
  rewrite E1.
  (* h2 matches the whole line *)
  assert (E2 : sub (re_line (Lit "## ")) (header_repl "h2") (lit "## " ++ t)
               = header_element "h2" (create_anchor_id t) t).
  { unfold sub. rewrite <- (app_nil_r (lit "## " ++ t)).
    rewrite (sub_from_match _ _ None (lit "## " ++ t) [] [(1, t)]).
    - rewrite sub_from_nil by apply (re_line_nil _ _). now rewrite app_nil_r.
    - discriminate.
    - rewrite app_nil_r. now apply match_header2. }
  rewrite E2.
  assert (Hl := element_line t Ht (is_char "#") eq_refl).
  rewrite (sub_id_bol (re_line (Lit "### ")) (header_repl "h3") (is_char "#")
             (is_char "#") _ (re_line_nil _ _) (re_line_needs _ _)
             (fun _ e => e) Hl).
  rewrite (sub_id_bol (re_line (Lit "#### ")) (header_repl "h4") (is_char "#")
             (is_char "#") _ (re_line_nil _ _) (re_line_needs _ _)
             (fun _ e => e) Hl).
  apply (sub_id_bol (re_line (Lit "##### ")) (header_repl "h5") (is_char "#")
           (is_char "#") _ (re_line_nil _ _) (re_line_needs _ _)
           (fun _ e => e) Hl).
Qed.

(** C3 (amended).  For every header text [t] of one line without a
    backtick, an asterisk, an opening square bracket or an opening angle
    bracket, the line [## t] becomes exactly one [<h2>] element whose id is
    [create_anchor_id t] and whose body is [t]. *)
Theorem header2_plain_element t :
  plain_header t = true ->
  simple_markdown_to_html (lit "## " ++ t)
  = header_element "h2" (create_anchor_id t) t.
Proof.
  intros Ht. rewrite simple_markdown_to_html_stages.
  rewrite (header_passes_header2 t Ht).
  pose proof (element_quiet t Ht) as Hq.
  assert (Ec : code_pass (header_element "h2" (create_anchor_id t) t)
               = header_element "h2" (create_anchor_id t) t).
  { apply (sub_id_char re_code_block _ "`" inline_marks _
             re_code_block_nil re_code_block_needs (or_introl eq_refl)).
    apply Hq. }
  rewrite Ec.
  destruct (element_shape t) as [s E]. rewrite E in *.
  apply later_passes_quiet; [exact Hq|].
  rewrite <- E. apply element_end.
Qed.

Lemma header2_plain_element_witness :
  simple_markdown_to_html (lit "## Getting Started")
  = header_element "h2" (lit "getting-started") (lit "Getting Started").
Proof. apply (header2_plain_element (lit "Getting Started")). reflexivity. Defined.

(** C3 as stated fails on a header text with inline markup: the body of
    the element is the converted text, not [t]. *)
Lemma header2_emphasis_counterexample :
  simple_markdown_to_html (lit "## *a*")
  = lit "<h2 id=" ++ [dq] ++ lit "a" ++ [dq] ++ lit "><em>a</em></h2>"
  /\ simple_markdown_to_html (lit "## *a*")
     <> header_element "h2" (create_anchor_id (lit "*a*")) (lit "*a*").
Proof. split; [vm_compute; reflexivity|vm_compute; discriminate]. Qed.

End HeaderFacts.

(* ------------------------------------------------------------------ *)
(** ** A fenced code block *)

Module CodeFacts.
Import Py Re Markup Aux PyFacts ReFacts AnchorFacts PassFacts QuietFacts HeaderFacts Kindle.

(** *** escape_html and its inverse *)

Lemma replace_app old new a b :
  replace old new (a ++ b) = replace old new a ++ replace old new b.
Proof. unfold replace. apply flat_map_app. Qed.

Lemma escape_html_cons c s :
  escape_html (c :: s) = escape_char c ++ escape_html s.
Proof.
  unfold escape_html.
  change (c :: s) with ([c] ++ s). rewrite !replace_app. f_equal.
  unfold escape_char, replace. cbn [flat_map app].
  destruct (Ascii.eqb_spec c "&") as [->|H1]; [reflexivity|].
  apply Ascii.eqb_neq in H1. rewrite (Ascii.eqb_sym "&" c), H1.
  cbn [flat_map app].
  destruct (Ascii.eqb_spec c "<") as [->|H2]; [reflexivity|].
  apply Ascii.eqb_neq in H2. rewrite (Ascii.eqb_sym "<" c), H2.
  cbn [flat_map app].
  destruct (Ascii.eqb_spec c ">") as [->|H3]; [reflexivity|].
  apply Ascii.eqb_neq in H3. now rewrite (Ascii.eqb_sym ">" c), H3.
Qed.

Lemma escape_html_flat s : escape_html s = flat_map escape_char s.
Proof.
  induction s as [|c s IH]; [reflexivity|].
  rewrite escape_html_cons, IH. reflexivity.
Qed.

Lemma unescape_escape_char c s :
  unescape_from 0 (escape_char c ++ s) = c :: unescape_from 0 s.
Proof.
  unfold escape_char.
  destruct (Ascii.eqb_spec c "&") as [->|H1]; [reflexivity|].
  destruct (Ascii.eqb_spec c "<") as [->|H2]; [reflexivity|].
  destruct (Ascii.eqb_spec c ">") as [->|H3]; [reflexivity|].
  cbn [app unescape_from].
  change (lit "&amp;") with ("&"%char :: lit "amp;").
  change (lit "&lt;") with ("&"%char :: lit "lt;").
  change (lit "&gt;") with ("&"%char :: lit "gt;").
  rewrite !startswith_cons.
  apply Ascii.eqb_neq in H1. rewrite (Ascii.eqb_sym "&" c), H1. reflexivity.
Qed.

(** Unescaping the escaped text gives the text back. *)
Lemma unescape_escape_html s : unescape_html (escape_html s) = s.
Proof.
  unfold unescape_html. induction s as [|c s IH]; [reflexivity|].
  rewrite escape_html_cons, unescape_escape_char. now rewrite IH.
Qed.

(** *** The escaped text keeps what the passes look at *)

Lemma escape_char_cases c :
  escape_char c = [c] /\ one_of ["&"; "<"; ">"]%char c = false
  \/ (exists w, escape_char c = "&"%char :: w
                /\ forallb (fun x => is_word x || is_char ";" x) w = true
                /\ lastc None w = Some ";"%char)
     /\ one_of ["&"; "<"; ">"]%char c = true.
Proof.
  unfold escape_char.
  destruct (Ascii.eqb_spec c "&") as [->|H1];
    [right; split; [eexists; repeat split|reflexivity]|].
  destruct (Ascii.eqb_spec c "<") as [->|H2];
    [right; split; [eexists; repeat split|reflexivity]|].
  destruct (Ascii.eqb_spec c ">") as [->|H3];
    [right; split; [eexists; repeat split|reflexivity]|].
  left. split; [reflexivity|]. unfold one_of. cbn [existsb].
  apply Ascii.eqb_neq in H1, H2, H3.
  now rewrite (Ascii.eqb_sym "&" c), (Ascii.eqb_sym "<" c),
    (Ascii.eqb_sym ">" c), H1, H2, H3.
Qed.

Lemma word_or_semicolon_not_nl x :
  is_word x || is_char ";" x = true -> is_char nl x = false.
Proof. all_chars x. Qed.

(** Escaping keeps a text free of the pairs a pass looks for, when the
    pass looks at the start of a line or after a line break only, and not
    for an ampersand. *)
Lemma pairs_ok_escape (P P' : option ascii -> bool) (G F : ascii -> bool) :
  (forall c, P' (Some c) = true -> is_char nl c = true) ->
  (forall c, P' (Some c) = true -> P (Some c) = true) ->
  F "&"%char = false ->
  (forall c, F c = true -> one_of ["&"; "<"; ">"]%char c = false -> G c = true) ->
  forall b prev prev',
    (P' prev' = true -> P prev = true) ->
    pairs_ok (guard P G) prev b = true ->
    pairs_ok (guard P' F) prev' (escape_html b) = true.
Proof.
  intros Hnl HP HF HG. induction b as [|c b IH]; intros prev prev' Hp Hb.
  - reflexivity.
  - rewrite escape_html_cons. cbn [pairs_ok] in Hb.
    apply andb_true_iff in Hb as [Hc Hb].
    destruct (escape_char_cases c) as [[-> Hs]|[(w & -> & Hw & Hl) Hs]].
    + cbn [app pairs_ok]. apply andb_true_iff. split.
      * unfold guard. destruct (P' prev') eqn:E; [|reflexivity].
        destruct (guard_false _ _ _ _ Hc) as [E1|E1].
        -- rewrite Hp in E1; [discriminate|reflexivity].
        -- destruct (F c) eqn:EF; [|reflexivity].
           rewrite (HG c EF Hs) in E1. discriminate.
      * apply (IH (Some c) (Some c)); [apply HP|exact Hb].
    + cbn [app pairs_ok]. apply andb_true_iff. split.
      * unfold guard. now rewrite HF, andb_false_r.
      * rewrite pairs_ok_app. apply andb_true_iff. split.
        -- apply pairs_ok_no_P.
           ++ destruct (P' (Some "&"%char)) eqn:E; [|reflexivity].
              apply Hnl in E. discriminate.
           ++ revert Hw. apply forallb_forall_impl. intros x Hx.
              destruct (P' (Some x)) eqn:E; [|reflexivity].
              apply Hnl in E. rewrite (word_or_semicolon_not_nl x Hx) in E.
              discriminate.
        -- assert (El : lastc (Some "&"%char) w = Some ";"%char).
           { destruct w as [|x w]; [discriminate|exact Hl]. }
           rewrite El. apply (IH (Some c)); [|exact Hb].
           intros E. apply Hnl in E. discriminate.
Qed.

Lemma escape_html_forallb (f : ascii -> bool) b :
  f "&"%char = true ->
  (forall x, is_word x || is_char ";" x = true -> f x = true) ->
  forallb (fun c => one_of ["&"; "<"; ">"]%char c || f c) b = true ->
  forallb f (escape_html b) = true.
Proof.
  intros Hamp Hw. induction b as [|c b IH]; [reflexivity|].
  cbn [forallb]. intros H. apply andb_true_iff in H as [Hc Hb].
  rewrite escape_html_cons, forallb_app, (IH Hb), andb_true_r.
  destruct (escape_char_cases c) as [[-> Hs]|[(w & -> & Hww & _) _]].
  - rewrite Hs in Hc. cbn [orb] in Hc. cbn [forallb]. now rewrite Hc.
  - cbn [forallb]. rewrite Hamp. cbn [andb].
    revert Hww. apply forallb_forall_impl. exact Hw.
Qed.

(** *** The code block pass on a fence *)

Lemma in_middle (f : ascii -> bool) (a a1 a2 : str) c :
  forallb f a = true -> a = a1 ++ c :: a2 -> f c = true.
Proof.
  intros H E. rewrite forallb_forall in H. apply H. rewrite E. apply in_elt.
Qed.

Lemma in_middle_next (f : ascii -> bool) (a a1 a2 : str) c c2 :
  forallb f a = true -> a = a1 ++ c :: c2 :: a2 -> f c2 = true.
Proof.
  intros H E. apply (in_middle f a (a1 ++ [c]) a2 c2 H).
  now rewrite <- app_assoc.
Qed.

Lemma firstn_app_exact (a b : str) :
  firstn (length (a ++ b) - length b) (a ++ b) = a.
Proof.
  rewrite length_app, Nat.add_sub, firstn_app, Nat.sub_diag, firstn_all.
  cbn [firstn]. apply app_nil_r.
Qed.

Lemma match_code_tail b prev cs :
  forallb no_tick b = true ->
  m re_code_tail prev (nl :: b ++ nl :: lit "```") cs
    (fun _ s' cs' => Some (s', cs'))
  = Some ([], (2, b) :: cs).
Proof.
  intros Hb. unfold re_code_tail. unlit. run_m.
  rewrite (lazy_run _ b _ (nl :: lit "```") cs _ ([], (2, b) :: cs)).
  - reflexivity.
  - clear. induction b; [reflexivity|now cbn [forallb]].
  - intros a1 c a2 E. run_m.
    destruct (is_char nl c); [|reflexivity].
    destruct a2 as [|c2 a2]; cbn [app].
    + run_m. reflexivity.
    + run_m. pose proof (in_middle_next no_tick b a1 a2 c c2 Hb E) as H2.
      unfold no_tick in H2. apply negb_true_iff in H2. now rewrite H2.
  - unfold lit. cbn [list_ascii_of_string]. run_m.
    change (nl :: "`"%char :: "`"%char :: "`"%char :: [])
      with (nl :: lit "```").
    now rewrite firstn_app_exact.
Qed.

Lemma re_code_block_tail :
  re_code_block
  = Seq (Lit "```") (Seq (Opt (Grp 1 (Plus true (Cls is_word)))) re_code_tail).
Proof. reflexivity. Qed.

Lemma code_marks_no_tick b :
  forallb (fun c => negb (one_of code_marks c)) b = true ->
  forallb no_tick b = true.
Proof.
  apply forallb_forall_impl. intros c. apply (not_one_of code_marks).
  now left.
Qed.

(** The pattern takes the whole fence; group 2 is the body and group 1 the
    language word, when there is one. *)
Lemma match_fence lang b :
  forallb is_word lang = true -> forallb no_tick b = true ->
  exists cs,
    match_at re_code_block None (fence lang b)
    = Some (length (fence lang b), cs)
    /\ code_block_repl (fence lang b) cs = code_element lang (escape_html b).
Proof.
  intros Hl Hb. rewrite re_code_block_tail. unfold match_at, fence.
  change (lit "```" ++ lang ++ [nl] ++ b ++ [nl] ++ lit "```")
    with ("`"%char :: "`"%char :: "`"%char :: lang ++ nl :: b ++ nl :: lit "```").
  change (Lit "```") with (Seq (Chr "`") (Seq (Chr "`") (Chr "`"))).
  unfold Opt, Plus.
  destruct lang as [|c lang].
  - cbn [app]. run_m.
    rewrite match_code_tail by assumption.
    exists [(2, b)]. split; [now rewrite Nat.sub_0_r|reflexivity].
  - cbn [forallb] in Hl. apply andb_true_iff in Hl as [Hc Hl].
    cbn [app]. run_m. rewrite Hc.
    rewrite (greedy_run is_word lang (Some c) (nl :: b ++ nl :: lit "```") []
               _ ([], [(2, b); (1, c :: lang)]) Hl eq_refl).
    + exists [(2, b); (1, c :: lang)]. split; [now rewrite Nat.sub_0_r|reflexivity].
    + rewrite match_code_tail by assumption.
      change (c :: lang ++ nl :: b ++ nl :: lit "```")
        with ((c :: lang) ++ nl :: b ++ nl :: lit "```").
      now rewrite firstn_app_exact.
Qed.

Lemma code_pass_fence lang b :
  forallb is_word lang = true -> forallb no_tick b = true ->
  code_pass (fence lang b) = code_element lang (escape_html b).
Proof.
  intros Hl Hb. destruct (match_fence lang b Hl Hb) as (cs & Hm & Hr).
  unfold code_pass, sub. rewrite <- (app_nil_r (fence lang b)).
  rewrite (sub_from_match _ _ None (fence lang b) [] cs).
  - rewrite sub_from_nil by apply re_code_block_nil.
    now rewrite app_nil_r.
  - unfold fence. discriminate.
  - now rewrite app_nil_r.
Qed.

(** *** The fence before and the element after the code block pass *)

Section Fence.
Variables lang b : str.
Hypothesis Hlang : forallb is_word lang = true.
Hypothesis Hplain : plain_code b = true.

Lemma plain_code_marks : forallb (fun c => negb (one_of code_marks c)) b = true.
Proof.
  unfold plain_code in Hplain. revert Hplain. generalize (@None ascii).
  induction b as [|c s IH]; intros prev H; [reflexivity|].
  cbn [pairs_ok forallb] in *. unfold plain_code_pair at 1 in H.
  apply andb_true_iff in H as [H1 H2]. apply andb_true_iff in H1 as [-> _].
  now apply (IH (Some c)).
Qed.

Lemma plain_code_lines :
  pairs_ok (guard (at_bol true) line_start_marks) None b = true.
Proof.
  revert Hplain. unfold plain_code. apply pairs_ok_weaken.
  intros prev c H. unfold plain_code_pair in H.
  now apply andb_true_iff in H as [_ H].
Qed.

Lemma word_facts c :
  is_word c = true ->
  no_nl c = true /\ negb (one_of inline_marks c) = true
  /\ negb (is_char "|" c) = true /\ negb (after_char "<" (Some c)) = true
  /\ negb (at_bol true (Some c)) = true.
Proof. all_chars c. Qed.

Lemma word_or_semicolon_facts c :
  is_word c || is_char ";" c = true ->
  negb (one_of inline_marks c) = true /\ negb (is_char "|" c) = true
  /\ negb (is_char "<" c) = true.
Proof. all_chars c. Qed.

Lemma header_passes_fence : header_passes (fence lang b) = fence lang b.
Proof.
  assert (Hp : pairs_ok (guard (at_bol true) (is_char "#")) None (fence lang b)
               = true).
  { unfold fence.
    change (lit "```" ++ lang ++ [nl] ++ b ++ [nl] ++ lit "```")
      with ("`"%char :: (lit "``" ++ lang) ++ nl :: b ++ nl :: lit "```").
    cbn [pairs_ok]. eval_guards.
    rewrite (pairs_ok_guard_skip _ _ (Some "`"%char)); cycle 1.
    { reflexivity. }
    { rewrite forallb_app. cbn [lit list_ascii_of_string forallb andb].
      eval_chars. revert Hlang. apply forallb_forall_impl.
      intros c Hc. now apply word_facts. }
    { reflexivity. }
    cbn [pairs_ok]. eval_guards. rewrite pairs_ok_app.
    apply andb_true_iff. split.
    - rewrite (pairs_ok_guard_prev _ _ _ None) by reflexivity.
      generalize plain_code_lines. apply pairs_ok_weaken.
      intros prev c. apply guard_weaken. intros x Hx.
      unfold line_start_marks, one_of. cbn [existsb].
      unfold is_char in Hx. now rewrite Hx.
    - cbn [pairs_ok]. unfold guard at 1. eval_chars.
      rewrite andb_false_r. reflexivity. }
  unfold header_passes. cbv zeta.
  rewrite (sub_id_bol (re_line (Lit "# ")) (header_repl "h1") (is_char "#")
             (is_char "#") _ (re_line_nil _ _) (re_line_needs _ _)
             (fun _ e => e) Hp).
  rewrite (sub_id_bol (re_line (Lit "## ")) (header_repl "h2") (is_char "#")
             (is_char "#") _ (re_line_nil _ _) (re_line_needs _ _)
             (fun _ e => e) Hp).
  rewrite (sub_id_bol (re_line (Lit "### ")) (header_repl "h3") (is_char "#")
             (is_char "#") _ (re_line_nil _ _) (re_line_needs _ _)
             (fun _ e => e) Hp).
  rewrite (sub_id_bol (re_line (Lit "#### ")) (header_repl "h4") (is_char "#")
             (is_char "#") _ (re_line_nil _ _) (re_line_needs _ _)
             (fun _ e => e) Hp).
  apply (sub_id_bol (re_line (Lit "##### ")) (header_repl "h5") (is_char "#")
           (is_char "#") _ (re_line_nil _ _) (re_line_needs _ _)
           (fun _ e => e) Hp).
Qed.

Let e := escape_html b.
Let H := code_element lang e.

Lemma language_word : forallb is_word (language lang) = true.
Proof. destruct lang; [reflexivity|exact Hlang]. Qed.

Lemma escaped_forallb (f : ascii -> bool) :
  f "&"%char = true ->
  (forall x, is_word x || is_char ";" x = true -> f x = true) ->
  (forall c, negb (one_of code_marks c) = true ->
             one_of ["&"; "<"; ">"]%char c || f c = true) ->
  forallb f e = true.
Proof.
  intros H1 H2 H3. apply escape_html_forallb; [assumption|assumption|].
  generalize plain_code_marks. apply forallb_forall_impl. exact H3.
Qed.

Lemma code_mark_facts c :
  negb (one_of code_marks c) = true ->
  one_of ["&"; "<"; ">"]%char c || negb (one_of inline_marks c) = true
  /\ one_of ["&"; "<"; ">"]%char c || negb (is_char "|" c) = true
  /\ one_of ["&"; "<"; ">"]%char c || negb (is_char "<" c) = true.
Proof. all_chars c. Qed.

Ltac code_element_forallb f :=
  unfold H, code_element; rewrite !forallb_app;
  rewrite (forallb_forall_impl is_word f (language lang)),
          (escaped_forallb f);
  [reflexivity | reflexivity
  | intros x Hx; now apply word_or_semicolon_facts
  | intros x Hx; now apply code_mark_facts
  | intros x Hx; now apply word_facts
  | exact language_word].

Lemma code_element_no_marks :
  forallb (fun c => negb (one_of inline_marks c)) H = true.
Proof. code_element_forallb (fun c => negb (one_of inline_marks c)). Qed.

Lemma code_element_no_bar : forallb (fun c => negb (is_char "|" c)) H = true.
Proof. code_element_forallb (fun c => negb (is_char "|" c)). Qed.

Lemma escaped_no_lt : forallb (fun c => negb (is_char "<" c)) e = true.
Proof.
  apply escaped_forallb; [reflexivity| |].
  - intros x Hx. now apply word_or_semicolon_facts.
  - intros x Hx. now apply code_mark_facts.
Qed.

Lemma code_element_shape :
  H = "<"%char :: (lit "pre><code class=" ++ [dq] ++ lit "language-"
                   ++ language lang ++ [dq; ">"%char])
                  ++ e ++ lit "</code></pre>".
Proof.
  unfold H, code_element. cbn [lit list_ascii_of_string app].
  do 27 f_equal. now rewrite <- app_assoc.
Qed.

(** The checks at the start of a line and after a line break. *)
Lemma code_element_pairs (P : option ascii -> bool) (F : ascii -> bool) :
  (forall c, P (Some c) = true -> is_char nl c = true) ->
  F "<"%char = false ->
  pairs_ok (guard P F) (Some ">"%char) e = true ->
  pairs_ok (guard P F) None H = true.
Proof.
  intros HP HF He.
  assert (Hno : forall s, forallb no_nl s = true ->
                          forallb (fun c => negb (P (Some c))) s = true).
  { intros s. apply forallb_forall_impl. intros c Hc.
    destruct (P (Some c)) eqn:E; [|reflexivity].
    apply HP in E. unfold no_nl in Hc. now rewrite E in Hc. }
  assert (Hlt : P (Some "<"%char) = false).
  { destruct (P (Some "<"%char)) eqn:E; [|reflexivity]. now apply HP in E. }
  rewrite code_element_shape. cbn [pairs_ok].
  unfold guard at 1. rewrite HF, andb_false_r. cbn [negb andb].
  rewrite pairs_ok_app. apply andb_true_iff. split.
  - apply pairs_ok_no_P; [exact Hlt|]. apply Hno.
    rewrite !forallb_app.
    rewrite (forallb_forall_impl is_word no_nl (language lang));
      [reflexivity| |exact language_word].
    intros c Hc. now apply word_facts.
  - rewrite !lastc_app. cbn [lastc fold_left].
    rewrite pairs_ok_app, He. cbn [andb].
    change (lit "</code></pre>") with ("<"%char :: lit "/code></pre>").
    rewrite pairs_ok_cons.
    unfold guard at 1. rewrite HF, andb_false_r. cbn [negb andb].
    apply pairs_ok_no_P; [exact Hlt|]. apply Hno. reflexivity.
Qed.

Lemma code_element_quiet : quiet H.
Proof.
  repeat split.
  - apply code_element_no_marks.
  - apply no_bar_no_table_line, code_element_no_bar.
  - apply code_element_pairs; [|reflexivity|].
    + intros c Hc. cbn [at_bol andb] in Hc. unfold is_char.
      now rewrite Ascii.eqb_sym.
    + apply (pairs_ok_escape (at_bol true) (at_bol true) line_start_marks
               line_marks) with (prev := None).
      * intros c Hc. cbn [at_bol andb] in Hc. unfold is_char.
        now rewrite Ascii.eqb_sym.
      * auto.
      * reflexivity.
      * intros c. clear. all_chars c.
      * reflexivity.
      * exact plain_code_lines.
  - unfold H, code_element.
    cbn [lit list_ascii_of_string app pairs_ok]. eval_guards.
    rewrite (pairs_ok_guard_skip _ _ None (language lang)); cycle 1.
    { reflexivity. }
    { generalize language_word. apply forallb_forall_impl.
      intros c Hc. now apply word_facts. }
    { reflexivity. }
    cbn [app pairs_ok]. eval_guards.
    rewrite (pairs_ok_guard_skip _ _ None e); cycle 1.
    { reflexivity. }
    { exact escaped_no_lt. }
    { reflexivity. }
    reflexivity.
  - apply code_element_pairs; [|reflexivity|].
    + intros c Hc. exact Hc.
    + apply (pairs_ok_escape (at_bol true) (after_char nl) line_start_marks
               (is_char nl)) with (prev := None).
      * intros c Hc. exact Hc.
      * intros c Hc. cbn [at_bol after_char andb] in *. unfold is_char in Hc.
        now rewrite Ascii.eqb_sym.
      * reflexivity.
      * intros c. clear. all_chars c.
      * reflexivity.
      * exact plain_code_lines.
Qed.

Lemma code_element_end : head_not is_space (rev H).
Proof.
  unfold H, code_element. rewrite !rev_app_distr.
  cbn [lit list_ascii_of_string rev app]. reflexivity.
Qed.

End Fence.

(** C2 (amended).  For every language word (possibly empty) and every body
    that holds no backtick, asterisk, opening square bracket or vertical
    bar and no line that is empty or begins with a hash, a digit, a hyphen,
    a plus sign or an asterisk, the fence becomes exactly the [<pre><code>]
    element whose content is [escape_html] of the body; and unescaping the
    three entities in an escaped text gives the text back, for every
    text. *)
Theorem fence_plain_code_round_trip lang b :
  forallb is_word lang = true -> plain_code b = true ->
  simple_markdown_to_html (fence lang b) = code_element lang (escape_html b)
  /\ unescape_html (escape_html b) = b.
Proof.
  intros Hl Hp. split; [|apply unescape_escape_html].
  rewrite simple_markdown_to_html_stages.
  rewrite (header_passes_fence lang b Hl Hp).
  rewrite code_pass_fence;
    [|exact Hl|apply code_marks_no_tick, plain_code_marks, Hp].
  pose proof (code_element_quiet lang b Hl Hp) as Hq.
  pose proof (code_element_end lang b) as He.
  rewrite (code_element_shape lang b) in *.
  apply later_passes_quiet; [exact Hq|exact He].
Qed.

Lemma fence_plain_code_round_trip_witness :
  simple_markdown_to_html
    (fence (lit "py") (lit "if x < 1 & y > 2:" ++ [nl] ++ lit "    return x"))
  = code_element (lit "py")
      (lit "if x &lt; 1 &amp; y &gt; 2:" ++ [nl] ++ lit "    return x")
  /\ unescape_html
       (lit "if x &lt; 1 &amp; y &gt; 2:" ++ [nl] ++ lit "    return x")
     = lit "if x < 1 & y > 2:" ++ [nl] ++ lit "    return x".
Proof.
  apply (fence_plain_code_round_trip (lit "py")
           (lit "if x < 1 & y > 2:" ++ [nl] ++ lit "    return x"));
    reflexivity.
Defined.

(** C2 as stated fails on a body with a comment line: the header pass
    runs before the code block pass and rewrites that line. *)
Lemma fence_comment_counterexample :
  simple_markdown_to_html (fence [] (lit "# x"))
  = lit "<pre><code class=" ++ [dq] ++ lit "language-text" ++ [dq]
    ++ lit ">&lt;h1 id=" ++ [dq] ++ lit "x" ++ [dq]
    ++ lit "&gt;x&lt;/h1&gt;</code></pre>"
  /\ simple_markdown_to_html (fence [] (lit "# x"))
     <> code_element [] (escape_html (lit "# x")).
Proof. split; [vm_compute; reflexivity|vm_compute; discriminate]. Qed.

End CodeFacts.

(* ------------------------------------------------------------------ *)
(** ** The four copies of the transducer *)

Module CopyFacts.
Import Py Re.

(** C4 (amended).  The copies of [simple_markdown_to_html] in
    utils/generate_kindle.py, utils/generate_html_flexible.py and
    src/generate_html_flexible.py return the same output on every input. *)
Theorem three_copies_agree s :
  Kindle.simple_markdown_to_html s = HtmlFlexibleUtils.simple_markdown_to_html s
  /\ Kindle.simple_markdown_to_html s = HtmlFlexibleSrc.simple_markdown_to_html s.
Proof. split; reflexivity. Qed.

(** C4 as stated fails: the copy in utils/generate_html.py writes a header
    without an id. *)
Lemma generate_html_differs_counterexample :
  GenerateHtml.simple_markdown_to_html (lit "# a") = lit "<h1>a</h1>"
  /\ Kindle.simple_markdown_to_html (lit "# a")
     = lit "<h1 id=" ++ [dq] ++ lit "a" ++ [dq] ++ lit ">a</h1>"
  /\ GenerateHtml.simple_markdown_to_html (lit "# a")
     <> Kindle.simple_markdown_to_html (lit "# a").
Proof.
  repeat split; try (vm_compute; reflexivity). vm_compute. discriminate.
Qed.

End CopyFacts.

(* ------------------------------------------------------------------ *)
(** ** create_master_volume: the order of the chapters *)

Module OrderFacts.
Import Py Os Aux.
Local Open Scope step_scope.

Lemma str_leb_total : forall a b, str_leb a b = false -> str_leb b a = true.
Proof.
  induction a as [|x a IH]; intros [|y b]; cbn [str_leb]; try discriminate;
    try reflexivity.
  destruct (code x <? code y) eqn:E1; [discriminate|].
  destruct (code y <? code x) eqn:E2; [reflexivity|]. apply IH.
Qed.

Lemma entry_leb_total a b : entry_leb a b = false -> entry_leb b a = true.
Proof. apply str_leb_total. Qed.

Lemma insert_perm x l : Permutation (insert x l) (x :: l).
Proof.
  induction l as [|y l IH]; cbn [insert]; [reflexivity|].
  destruct (entry_leb x y); [reflexivity|].
  rewrite IH. apply perm_swap.
Qed.

Lemma sorted_perm l : Permutation (sorted l) l.
Proof.
  induction l as [|x l IH]; cbn [sorted fold_right]; [reflexivity|].
  fold (sorted l). rewrite insert_perm. now constructor.
Qed.

Lemma insert_sorted x l : Sorted entry_le l -> Sorted entry_le (insert x l).
Proof.
  induction 1 as [|y l Hs IH Hd]; cbn [insert].
  - repeat constructor.
  - destruct (entry_leb x y) eqn:E.
    + constructor; [now constructor|]. now constructor.
    + constructor; [exact IH|].
      apply entry_leb_total in E.
      destruct l as [|z l]; cbn [insert].
      * now constructor.
      * destruct (entry_leb x z); constructor; [exact E|].
        now inversion Hd.
Qed.

Lemma sorted_sorted l : Sorted entry_le (sorted l).
Proof.
  induction l as [|x l IH]; cbn [sorted fold_right]; [constructor|].
  now apply insert_sorted.
Qed.

Section Order.
Variable w : world.
Variable files : list entry.

Let first_match := Aux.first_match files.

Let pick (filename : str) (ordered_files : list entry) : step (list entry) :=
  match filter (fun f => str_eqb (e_name f) filename) files with
  | f :: _ => ret (ordered_files ++ [f])
  | [] => print (warning filename) ;; ret ordered_files
  end.

Lemma filter_nil_named name :
  filter (fun f => str_eqb (e_name f) name) files = [] -> named files name = false.
Proof.
  unfold named. induction files as [|f l IH]; cbn [filter existsb]; [reflexivity|].
  destruct (str_eqb (e_name f) name); [discriminate|]. exact IH.
Qed.

Lemma str_eqb_eq a b : str_eqb a b = true <-> a = b.
Proof.
  unfold str_eqb. destruct (list_eq_dec ascii_dec a b); split; congruence.
Qed.

Lemma filter_cons_named name f l :
  filter (fun f => str_eqb (e_name f) name) files = f :: l ->
  named files name = true /\ In f files /\ e_name f = name.
Proof.
  intros E.
  assert (Hin : In f (filter (fun f => str_eqb (e_name f) name) files))
    by (rewrite E; now left).
  apply filter_In in Hin as [Hin Hn]. repeat split.
  - unfold named. apply existsb_exists. now exists f.
  - exact Hin.
  - now apply str_eqb_eq.
Qed.

(** The loop over the order list: every name that matches a file adds the
    first such file, every other name prints a warning. *)
Lemma pick_loop names : forall acc,
  for_each names pick acc
  = (map warning (filter (fun n => negb (named files n)) names), [],
     inr (acc ++ flat_map first_match names)).
Proof.
  induction names as [|n names IH]; intros acc.
  - cbn. now rewrite app_nil_r.
  - cbn [for_each filter flat_map]. unfold pick at 1, first_match at 1, Aux.first_match at 1.
    destruct (filter (fun f => str_eqb (e_name f) n) files) as [|f l] eqn:E.
    + rewrite (filter_nil_named n E). cbn [negb map].
      unfold print, ret, bind. rewrite IH. cbn [app]. reflexivity.
    + destruct (filter_cons_named n f l E) as [-> _]. cbn [negb].
      unfold ret, bind. rewrite IH. cbn [app]. now rewrite <- app_assoc.
Qed.

Lemma first_matches_names names :
  map e_name (flat_map first_match names) = filter (named files) names.
Proof.
  induction names as [|n names IH]; [reflexivity|].
  cbn [flat_map filter]. rewrite map_app, IH. unfold first_match, Aux.first_match.
  destruct (filter (fun f => str_eqb (e_name f) n) files) as [|f l] eqn:E.
  - now rewrite (filter_nil_named n E).
  - destruct (filter_cons_named n f l E) as (-> & _ & Hn).
    cbn [map app]. now rewrite Hn.
Qed.

Lemma first_matches_found names :
  Forall (fun f => In f files) (flat_map first_match names).
Proof.
  induction names as [|n names IH]; [constructor|].
  cbn [flat_map]. apply Forall_app. split; [|exact IH]. unfold first_match, Aux.first_match.
  destruct (filter (fun f => str_eqb (e_name f) n) files) as [|f l] eqn:E.
  - constructor.
  - destruct (filter_cons_named n f l E) as (_ & Hin & _). now repeat constructor.
Qed.

Lemma order_files_result names :
  exists out,
    MasterVolume.order_files files names
    = (map warning (filter (fun n => negb (named files n)) names) ++ out, [],
       inr (flat_map first_match names
            ++ sorted (filter (fun f => negb (listed names f)) files))).
Proof.
  unfold MasterVolume.order_files. fold pick. rewrite pick_loop.
  cbn [bind app]. unfold listed.
  destruct (filter (fun f => negb (existsb (str_eqb (e_name f)) names)) files)
    as [|f l].
  - exists []. cbn [ret sorted fold_right]. now rewrite !app_nil_r.
  - exists [str_of_nat (length (f :: l))
            ++ lit " files not in order file will be added at the end"].
    reflexivity.
Qed.

Lemma filter_unlisted_nil (fs : list entry) :
  filter (fun f => negb (listed [] f)) fs = fs.
Proof.
  induction fs as [|f l IH]; [reflexivity|].
  cbn [filter]. unfold listed at 1. cbn [existsb negb]. now f_equal.
Qed.

Lemma read_order_file_ok p content :
  read_text w p = inr content ->
  MasterVolume.read_order_file w p = ([], [], inr (Some (order_lines content))).
Proof.
  intros Hr. unfold MasterVolume.read_order_file, read. rewrite Hr. reflexivity.
Qed.

(** With an order file that exists and can be read, the chapter files are
    put in this order: for each listed name that matches a discovered
    file, that file, in the order of the list (a name that matches no file
    prints a warning and is skipped); then the discovered files whose names
    are not listed, in sorted order of their names. *)
Lemma chapter_order_sequence (a : MasterVolume.args) p content :
  MasterVolume.given (MasterVolume.order_file a) = Some p ->
  exists_ w p = true ->
  read_text w p = inr content ->
  let names := order_lines content in
  exists chosen rest out,
    MasterVolume.chapter_order w a files
    = (map warning (filter (fun n => negb (named files n)) names) ++ out, [],
       inr (chosen ++ rest))
    /\ map e_name chosen = filter (named files) names
    /\ Forall (fun f => In f files) chosen
    /\ Sorted entry_le rest
    /\ Permutation rest (filter (fun f => negb (listed names f)) files).
Proof.
  intros Ha He Hr names. unfold MasterVolume.chapter_order.
  rewrite Ha, He. cbn [negb].
  rewrite (read_order_file_ok p content Hr). fold names.
  exists (flat_map first_match names),
    (sorted (filter (fun f => negb (listed names f)) files)).
  destruct names as [|n l] eqn:En.
  - exists []. cbn [filter flat_map map app]. repeat split.
    + rewrite filter_unlisted_nil. reflexivity.
    + constructor.
    + apply sorted_sorted.
    + apply sorted_perm.
  - destruct (order_files_result (n :: l)) as [out E].
    exists out. unfold ret at 1, bind at 1. rewrite E. cbn [app].
    repeat split.
    + apply first_matches_names.
    + apply first_matches_found.
    + apply sorted_sorted.
    + apply sorted_perm.
Qed.

End Order.

End OrderFacts.
(* ------------------------------------------------------------------ *)
(** ** Runs of the drivers *)

Module StepFacts.
Import Py Os Aux.
Local Open Scope step_scope.

Lemma for_each_app {A S} (body : A -> S -> step S) l1 : forall l2 st,
  for_each (l1 ++ l2) body st
  = bind (for_each l1 body st) (for_each l2 body).
Proof.
  induction l1 as [|x l1 IH]; intros l2 st; cbn [app for_each].
  - unfold ret, bind. destruct (for_each l2 body st) as [[o wr] r]. reflexivity.
  - destruct (body x st) as [[o wr] [r|st']]; [reflexivity|].
    unfold bind at 1 3. rewrite IH. unfold bind.
    destruct (for_each l1 body st') as [[o1 wr1] [r1|st1]]; [reflexivity|].
    destruct (for_each l2 body st1) as [[o2 wr2] r2].
    now rewrite !app_assoc.
Qed.

Lemma bind_after_lines {A B} lines (c : step A) (k : A -> step B) :
  bind (after_lines lines c) k = after_lines lines (bind c k).
Proof.
  destruct c as [[o wr] [r|a]]; cbn [after_lines bind]; [reflexivity|].
  destruct (k a) as [[o' wr'] r']. cbn [after_lines]. now rewrite app_assoc.
Qed.

Lemma bind_ext {A B} (c : step A) (k k' : A -> step B) :
  (forall a, k a = k' a) -> bind c k = bind c k'.
Proof.
  intros H. destruct c as [[o wr] [r|a]]; cbn [bind]; [reflexivity|].
  now rewrite H.
Qed.

(** A step that only prints. *)
Lemma bind_lines {A B} lines (x : A) (k : A -> step B) :
  bind (lines, [], inr x) k = after_lines lines (k x).
Proof. cbn [bind]. now destruct (k x) as [[o wr] r]. Qed.

Lemma after_lines_app {A} l1 l2 (c : step A) :
  after_lines l1 (after_lines l2 c) = after_lines (l1 ++ l2) c.
Proof. destruct c as [[o wr] r]. cbn [after_lines]. now rewrite app_assoc. Qed.

Lemma after_lines_nil {A} (c : step A) : after_lines [] c = c.
Proof. now destruct c as [[o wr] r]. Qed.

Lemma console_after_lines {A} lines (c : step A) :
  console (after_lines lines c) = lines ++ console c.
Proof. now destruct c as [[o wr] r]. Qed.

Lemma exit_status_after_lines {A} lines (c : step A) :
  exit_status (after_lines lines c) = exit_status c.
Proof. now destruct c as [[o wr] r]. Qed.

Lemma reports_after_lines {A} lines (c : step A) line status :
  reports c line status -> reports (after_lines lines c) line status.
Proof.
  intros [H1 H2]. split.
  - rewrite console_after_lines. apply in_or_app. now right.
  - now rewrite exit_status_after_lines.
Qed.

Lemma match_not_nil {A B} (l : list A) (x y : B) :
  l <> [] -> match l with [] => x | _ :: _ => y end = y.
Proof. destruct l; [congruence|reflexivity]. Qed.

(** A loop whose body, at a file that cannot be read, prints [lines] and
    goes on with the same state. *)
Lemma for_each_skips {A S} (body : A -> S -> step S) lines f :
  (forall st, body f st = (lines, [], inr st)) ->
  forall before rest st,
    for_each (before ++ f :: rest) body st
    = bind (for_each before body st)
        (fun st' => after_lines lines (for_each rest body st')).
Proof.
  intros Hf before rest st. rewrite for_each_app. apply bind_ext.
  intros st'. cbn [for_each]. rewrite Hf. unfold bind.
  destruct (for_each rest body st') as [[o wr] r]. reflexivity.
Qed.

(** A loop whose body, at a file that cannot be read, prints [lines] and
    raises the error. *)
Lemma for_each_raises {A S} (body : A -> S -> step S) lines f e :
  (forall st, body f st = (lines, [], inl (Error e))) ->
  forall before rest st,
    for_each (before ++ f :: rest) body st
    = bind (for_each before body st) (fun _ => (lines, [], inl (Error e))).
Proof.
  intros Hf before rest st. rewrite for_each_app. apply bind_ext.
  intros st'. cbn [for_each]. now rewrite Hf.
Qed.

End StepFacts.

Module ScriptFacts.
Import Py Os Aux StepFacts.
Local Open Scope step_scope.

Section Runs.
Variable w : world.

(** The helpers of the scripts, whatever they compute. *)
Variable ascii_title : str -> str.
Variable ascii_html : str -> str -> str -> str.
Variable ascii_index : list AsciiArt.info -> path -> str.
Variable mermaid_extract : str -> list str.
Variable mermaid_title : str -> str.
Variable mermaid_html : str -> list str -> str -> str.
Variable mermaid_index : path -> list Mermaid.info -> str.
Variable master_title : path -> str.
Variable master_html master_epub :
  list (path * str) -> path -> str -> str -> step path.
Variable master_size : path -> str.
Variable flex_name flex_stem : path -> str.
Variable flex_title : str -> str -> str.
Variable flex_output_dir : HtmlFlexible.args -> path.
Variable flex_separate : HtmlFlexible.args -> path -> list HtmlFlexible.document -> step unit.
Variable flex_combined flex_single : HtmlFlexible.args -> path -> str -> str -> step unit.
Variable flex_hints : list str.
Variable uflex_convert : HtmlFlexibleUtilsScript.args -> str -> str -> step unit.
Variable kindle_epub : list (path * str) -> path -> option str -> str -> step path.
Variable kindle_name : path -> option path -> path.
Variable kindle_title : path -> str -> str.
Variable kindle_traceback : str -> list str.
Variable kindle_help : list str.
Variable kindle_success : path -> list str.
Variable confluence_conversion : str -> path -> step unit.
Variable html_convert : str -> step unit.

Let ascii_file := AsciiArt.convert_file w ascii_title ascii_html.
Let mermaid_file :=
  Mermaid.convert_file w mermaid_extract mermaid_title mermaid_html.
Let ascii_main := AsciiArt.main w ascii_title ascii_html ascii_index.
Let mermaid_main :=
  Mermaid.main w mermaid_extract mermaid_title mermaid_html mermaid_index.
Let master_main :=
  MasterVolume.main w master_title master_html master_epub master_size.
Let flex_main :=
  HtmlFlexible.main w flex_name flex_stem flex_title flex_output_dir
    flex_separate flex_combined flex_single flex_hints.
Let uflex_main := HtmlFlexibleUtilsScript.main w flex_name flex_stem uflex_convert.
Let kindle_main :=
  KindleScript.main w kindle_epub kindle_name kindle_title kindle_traceback
    kindle_help kindle_success.
Let confluence_main := Confluence.main confluence_conversion.
Let html_main := GenerateHtmlScript.main w html_convert.

Ltac here := split; [cbn; auto 10|reflexivity].

Lemma ascii_missing p : exists_ w p = false ->
  forall prog out,
    reports (ascii_main [prog; p; out]) (lit "Input folder not found: " ++ p) 0.
Proof.
  intros Hp prog out. unfold ascii_main, AsciiArt.main,
    AsciiArt.convert_ascii_to_html. rewrite Hp. here.
Qed.

Lemma flex_missing c s : exists_ w (c :: s) = false ->
  forall a,
    HtmlFlexible.input a = Some (c :: s) ->
    mkdir_ w true (flex_output_dir a) = None ->
    reports (flex_main a)
      (if HtmlFlexible.dir a
       then lit "Error: Directory " ++ c :: s ++ lit " does not exist"
       else lit "Error: File " ++ c :: s ++ lit " does not exist") 0.
Proof.
  intros Hp a Hi Hm. unfold flex_main, HtmlFlexible.main,
    HtmlFlexible.read_single_file, HtmlFlexible.read_multiple_files,
    HtmlFlexible.read_multiple_files_separate, mkdir.
  rewrite Hi. cbn [MasterVolume.given]. rewrite Hm, Hp.
  destruct (HtmlFlexible.dir a), (HtmlFlexible.separate a); here.
Qed.

Lemma uflex_missing c s : exists_ w (c :: s) = false ->
  forall a,
    HtmlFlexibleUtilsScript.input a = Some (c :: s) ->
    reports (uflex_main a)
      (if HtmlFlexibleUtilsScript.dir a
       then lit "Error: Directory " ++ c :: s ++ lit " does not exist"
       else lit "Error: File " ++ c :: s ++ lit " does not exist") 0.
Proof.
  intros Hp a Hi. unfold uflex_main, HtmlFlexibleUtilsScript.main,
    HtmlFlexible.read_single_file, HtmlFlexible.read_multiple_files.
  rewrite Hi. cbn [MasterVolume.given]. rewrite Hp.
  destruct (HtmlFlexibleUtilsScript.dir a); here.
Qed.

Lemma mermaid_missing p : exists_ w p = false ->
  forall out,
    mkdir_ w true out = None ->
    reports (mermaid_main p out)
      (lit "Error: Input folder '" ++ p ++ lit "' does not exist") 1.
Proof.
  intros Hp out Hm. unfold mermaid_main, Mermaid.main,
    Mermaid.convert_mermaid_files, mkdir. rewrite Hm, Hp. here.
Qed.

Lemma master_missing_dir p : exists_ w p = false ->
  forall a,
    MasterVolume.dir a = p ->
    reports (master_main a) (lit "Directory not found: " ++ p) 1.
Proof.
  intros Hp a Hd. unfold master_main, MasterVolume.main.
  rewrite Hd, Hp. here.
Qed.

Lemma master_missing_order c s : exists_ w (c :: s) = false ->
  forall a,
    exists_ w (MasterVolume.dir a) = true ->
    is_dir w (MasterVolume.dir a) = true ->
    (forall o, MasterVolume.given (MasterVolume.output a) = Some o ->
               mkdir_ w true o = None) ->
    discovered w a <> [] ->
    MasterVolume.order_file a = Some (c :: s) ->
    reports (master_main a) (lit "Order file not found: " ++ c :: s) 1.
Proof.
  intros Hp a He Hd Hm Hf Ho. unfold master_main, MasterVolume.main.
  rewrite He, Hd. cbn [negb orb].
  match goal with
  | |- context [flat_map ?f ?l] => change (flat_map f l) with (discovered w a)
  end.
  destruct (discovered w a) as [|f files]; [congruence|].
  unfold MasterVolume.chapter_order. rewrite Ho. cbn [MasterVolume.given].
  rewrite Hp. unfold mkdir.
  destruct (MasterVolume.given (MasterVolume.output a)) as [o|] eqn:Eo.
  - rewrite (Hm o eq_refl). here.
  - here.
Qed.

Lemma kindle_missing_file c s : exists_ w (c :: s) = false ->
  forall a,
    MasterVolume.given (KindleScript.dir a) = None ->
    KindleScript.input a = Some (c :: s) ->
    reports (kindle_main a) (lit "File not found: " ++ c :: s) 1.
Proof.
  intros Hp a Hd Hi. unfold kindle_main, KindleScript.main, KindleScript.banner.
  rewrite Hd, Hi. cbn [MasterVolume.given]. rewrite Hp.
  destruct (MasterVolume.given (KindleScript.title a)),
    (MasterVolume.given (KindleScript.output a)); here.
Qed.

Lemma kindle_missing_dir c s : exists_ w (c :: s) = false ->
  forall a,
    KindleScript.dir a = Some (c :: s) ->
    reports (kindle_main a) (lit "Directory not found: " ++ c :: s) 1.
Proof.
  intros Hp a Hd. unfold kindle_main, KindleScript.main, KindleScript.banner,
    KindleScript.process_directory.
  rewrite Hd. cbn [MasterVolume.given]. rewrite Hp.
  destruct (MasterVolume.given (KindleScript.input a)),
    (MasterVolume.given (KindleScript.title a)),
    (MasterVolume.given (KindleScript.output a)); here.
Qed.

Lemma confluence_failing url output auth out wr e :
  confluence_conversion url output = (out, wr, inl (Error e)) ->
  reports (confluence_main url output auth)
    (lit "Error during conversion: " ++ e) 1.
Proof.
  intros H. unfold confluence_main, Confluence.main, Confluence.convert_page,
    try_except. rewrite H. destruct auth.
  - split; [|reflexivity]. cbn. apply in_or_app. right. now left.
  - split; [|reflexivity]. cbn. right. apply in_or_app. right. now left.
Qed.

Lemma read_stage_missing f acc :
  exists_ w (child GenerateHtmlScript.guidelines_dir f) = false ->
  GenerateHtmlScript.read_stage w f acc
  = ([lit "Warning: " ++ f ++ lit " not found"], [], inr acc).
Proof. intros H. unfold GenerateHtmlScript.read_stage. now rewrite H. Qed.

Lemma read_stages_missing names : forall acc,
  (forall f, In f names ->
             exists_ w (child GenerateHtmlScript.guidelines_dir f) = false) ->
  for_each names (GenerateHtmlScript.read_stage w) acc
  = (map (fun f => lit "Warning: " ++ f ++ lit " not found") names, [], inr acc).
Proof.
  induction names as [|f names IH]; intros acc H; [reflexivity|].
  cbn [for_each map]. rewrite read_stage_missing by (apply H; now left).
  rewrite bind_lines, IH by (intros g Hg; apply H; now right). reflexivity.
Qed.

Lemma html_main_missing :
  (forall f, In f GenerateHtmlScript.file_order ->
             exists_ w (child GenerateHtmlScript.guidelines_dir f) = false) ->
  html_main
  = ([lit "Generating Implementation Guidelines HTML...";
      [nl] ++ lit "Reading markdown files..."]
     ++ map (fun f => lit "Warning: " ++ f ++ lit " not found")
          GenerateHtmlScript.file_order
     ++ [lit "No markdown content found!"], [], inr tt).
Proof.
  intros H. unfold html_main, GenerateHtmlScript.main,
    GenerateHtmlScript.read_markdown_files.
  rewrite (read_stages_missing _ [] H). reflexivity.
Qed.

Lemma html_missing :
  (forall f, In f GenerateHtmlScript.file_order ->
             exists_ w (child GenerateHtmlScript.guidelines_dir f) = false) ->
  reports html_main (lit "No markdown content found!") 0
  /\ forall f, In f GenerateHtmlScript.file_order ->
       In (lit "Warning: " ++ f ++ lit " not found") (console html_main).
Proof.
  intros H. rewrite (html_main_missing H). unfold reports, console.
  cbn [fst]. split; [split; [|reflexivity]|].
  - apply in_or_app. right. apply in_or_app. right. now left.
  - intros f Hf. apply in_or_app. right. apply in_or_app. left.
    apply (in_map (fun f => lit "Warning: " ++ f ++ lit " not found")).
    exact Hf.
Qed.


(** C5 (amended).  The loops over the input files of
    convert_mermaid_to_html, convert_ascii_to_html, create_master_volume
    and generate_kindle have partial-failure semantics: a file whose
    reading raises an error is reported on the console and skipped, and the
    loop goes on with the remaining files in the state it had before that
    file.  The loops of generate_html_flexible ([read_multiple_files] and
    [read_multiple_files_separate]) and of utils/generate_html.py
    ([read_markdown_files]) do not catch the error: it ends the loop and is
    raised. *)
Theorem failing_file_is_skipped (f : entry) (e : str) (before rest : list entry) :
  read_text w (e_path f) = inl e ->
  (forall out st,
     for_each (before ++ f :: rest) (mermaid_file out) st
     = bind (for_each before (mermaid_file out) st)
         (fun st' =>
            after_lines
              [lit "Processing: " ++ e_name f;
               lit "Error processing " ++ e_name f ++ lit ": " ++ e]
              (for_each rest (mermaid_file out) st')))
  /\ (forall out st,
        for_each (before ++ f :: rest) (ascii_file out) st
        = bind (for_each before (ascii_file out) st)
            (fun st' =>
               after_lines
                 [lit "Processing: " ++ e_name f;
                  lit "Error processing " ++ e_name f ++ lit ": " ++ e]
                 (for_each rest (ascii_file out) st')))
  /\ (forall st,
        for_each (before ++ f :: rest) (MasterVolume.read_chapter w) st
        = bind (for_each before (MasterVolume.read_chapter w) st)
            (fun st' =>
               after_lines
                 [lit "Warning: Could not read " ++ e_path f ++ lit ": " ++ e]
                 (for_each rest (MasterVolume.read_chapter w) st')))
  /\ (forall st,
        for_each (before ++ f :: rest) (KindleScript.read_chapter w) st
        = bind (for_each before (KindleScript.read_chapter w) st)
            (fun st' =>
               after_lines
                 [lit "Warning: Could not read " ++ e_path f ++ lit ": " ++ e]
                 (for_each rest (KindleScript.read_chapter w) st')))
  /\ (forall st,
        for_each (before ++ f :: rest) (HtmlFlexible.read_into w) st
        = bind (for_each before (HtmlFlexible.read_into w) st)
            (fun _ =>
               ([lit "Reading " ++ e_name f ++ lit "..."], [],
                inl (Error e))))
  /\ (forall st,
        for_each (before ++ f :: rest) (HtmlFlexible.read_document w flex_title) st
        = bind (for_each before (HtmlFlexible.read_document w flex_title) st)
            (fun _ =>
               ([lit "Reading " ++ e_name f ++ lit "..."], [],
                inl (Error e))))
  /\ (forall name names_before names_rest st,
        exists_ w (child GenerateHtmlScript.guidelines_dir name) = true ->
        read_text w (child GenerateHtmlScript.guidelines_dir name) = inl e ->
        for_each (names_before ++ name :: names_rest)
          (GenerateHtmlScript.read_stage w) st
        = bind (for_each names_before (GenerateHtmlScript.read_stage w) st)
            (fun _ =>
               ([lit "Reading " ++ name ++ lit "..."], [], inl (Error e)))).
Proof.
  intros Hf. repeat split; intros.
  - apply for_each_skips. intros [infos n].
    unfold mermaid_file, Mermaid.convert_file, read. now rewrite Hf.
  - apply for_each_skips. intros [infos n].
    unfold ascii_file, AsciiArt.convert_file, read. now rewrite Hf.
  - apply for_each_skips. intros acc.
    unfold MasterVolume.read_chapter, read. now rewrite Hf.
  - apply for_each_skips. intros acc.
    unfold KindleScript.read_chapter, read. now rewrite Hf.
  - apply for_each_raises. intros acc.
    unfold HtmlFlexible.read_into, read. now rewrite Hf.
  - apply for_each_raises. intros acc.
    unfold HtmlFlexible.read_document, read. now rewrite Hf.
  - apply for_each_raises. intros acc.
    unfold GenerateHtmlScript.read_stage, read.
    match goal with H : exists_ _ _ = true |- _ => rewrite H end.
    match goal with H : read_text _ _ = inl _ |- _ => now rewrite H end.
Qed.

End Runs.



Lemma failing_file_is_skipped_witness :
  read_text sample_world (e_path docs_a) = inl (lit "Permission denied")
  /\ for_each ([] ++ docs_a :: [docs_b])
       (MasterVolume.read_chapter sample_world) []
     = bind (for_each [] (MasterVolume.read_chapter sample_world) [])
         (fun st' =>
            after_lines
              [lit "Warning: Could not read docs/a.md: Permission denied"]
              (for_each [docs_b] (MasterVolume.read_chapter sample_world) st'))
  /\ for_each ([] ++ docs_a :: [docs_b])
       (HtmlFlexible.read_into sample_world) []
     = bind (for_each [] (HtmlFlexible.read_into sample_world) [])
         (fun _ =>
            ([lit "Reading a.md..."], [], inl (Error (lit "Permission denied")))).
Proof.
  split; [reflexivity|].
  destruct (failing_file_is_skipped sample_world
              (fun _ => []) (fun _ _ _ => [])
              (fun _ => []) (fun _ => []) (fun _ _ _ => []) (fun _ _ => [])
              docs_a (lit "Permission denied") [] [docs_b] eq_refl)
    as (_ & _ & H3 & _ & H5 & _).
  split; [apply H3|apply H5].
Defined.

(** C5 as stated fails: in a run of convert_mermaid_to_html over a
    directory whose first file cannot be read, the error is caught and
    printed, and the second file is converted. *)
Lemma mermaid_failing_file_counterexample :
  let run :=
    Mermaid.convert_mermaid_files sample_world
      (fun _ => [lit "graph TD"]) (fun _ => lit "Title")
      (fun _ _ _ => lit "<html>") (fun _ _ => lit "<index>")
      (lit "docs") (lit "out") in
  read_text sample_world (e_path docs_a) = inl (lit "Permission denied")
  /\ glob sample_world (lit "docs") "*.md" = [docs_a; docs_b]
  /\ In (lit "Error processing a.md: Permission denied") (console run)
  /\ written run = [(lit "out/b.html", lit "<html>");
                    (lit "out/index.html", lit "<index>")]
  /\ snd run = inr true.
Proof. repeat split; vm_compute; auto 10. Qed.

End ScriptFacts.

(* ------------------------------------------------------------------ *)
(** ** create_master_volume: the chapters of the output *)

Module VolumeFacts.
Import Py Os Aux StepFacts OrderFacts.
Local Open Scope step_scope.

Section Volume.
Variable w : world.
Variable master_title : path -> str.
Variable master_html master_epub :
  list (path * str) -> path -> str -> str -> step path.
Variable master_size : path -> str.

Let master_main :=
  MasterVolume.main w master_title master_html master_epub master_size.
Let write_volume :=
  MasterVolume.write_volume master_html master_epub master_size.

(** The reading loop never raises; it keeps the files that can be read and
    are long enough, in their order. *)
Lemma read_chapter_kept f acc :
  exists lines,
    MasterVolume.read_chapter w f acc = (lines, [], inr (acc ++ readable w f)).
Proof.
  unfold MasterVolume.read_chapter, read, readable.
  destruct (read_text w (e_path f)) as [e|content].
  - eexists. cbn. rewrite app_nil_r. reflexivity.
  - unfold ret at 1. rewrite bind_lines, after_lines_nil.
    destruct (length (strip content) <? 10).
    + eexists. cbn. rewrite app_nil_r. reflexivity.
    + eexists. reflexivity.
Qed.

Lemma read_chapters_kept files : forall acc,
  exists lines,
    for_each files (MasterVolume.read_chapter w) acc
    = (lines, [], inr (acc ++ kept w files)).
Proof.
  induction files as [|f files IH]; intros acc.
  - exists []. cbn. now rewrite app_nil_r.
  - destruct (read_chapter_kept f acc) as [l1 E1].
    destruct (IH (acc ++ readable w f)) as [l2 E2].
    exists (l1 ++ l2). cbn [for_each]. rewrite E1, bind_lines, E2.
    cbn [after_lines kept flat_map]. now rewrite app_assoc.
Qed.

Lemma print_numbered_loop files : forall i,
  exists lines,
    for_each files MasterVolume.print_numbered i
    = (lines, [], inr (i + length files)).
Proof.
  induction files as [|f files IH]; intros i.
  - exists []. cbn. now rewrite Nat.add_0_r.
  - destruct (IH (S i)) as [l E]. eexists.
    cbn [for_each]. unfold MasterVolume.print_numbered at 1, print.
    rewrite bind_lines, bind_after_lines. unfold ret at 1.
    rewrite bind_lines, after_lines_nil, E.
    cbn [after_lines length]. rewrite Nat.add_succ_r. reflexivity.
Qed.


End Volume.



End VolumeFacts.

(* ------------------------------------------------------------------ *)
(** ** create_anchor_id beyond the code points 0..255 *)

Module WideFacts.
Import Py.


End WideFacts.

(* ------------------------------------------------------------------ *)
(** ** What a match of the matcher is *)

Module MatchFacts.
Import Py Re Aux PyFacts ReFacts ListAux.

Lemma star_loop_sound r g
  (IH : forall prev s cs k x, m r prev s cs k = Some x ->
        exists a b cs', s = a ++ b /\ matching r prev a b cs cs'
                        /\ k (lastc prev a) b cs' = Some x) :
  forall fuel prev s cs k x,
  star_loop (m r) g fuel prev s cs k = Some x ->
  exists a b cs', s = a ++ b /\ matching (Star g r) prev a b cs cs'
                  /\ k (lastc prev a) b cs' = Some x.
Proof.
  assert (Hend : forall prev s cs (k : cont) x, k prev s cs = Some x ->
    exists a b cs', s = a ++ b /\ matching (Star g r) prev a b cs cs'
                    /\ k (lastc prev a) b cs' = Some x).
  { intros prev s cs k x Hk. exists [], s, cs.
    split; [reflexivity|]. split; [constructor|exact Hk]. }
  induction fuel as [|fuel IHf]; intros prev s cs k x H.
  - cbn [star_loop] in H. now apply Hend.
  - cbn [star_loop] in H.
    assert (Hmore : forall y,
      m r prev s cs (fun prev' s' cs' =>
        if length s' <? length s
        then star_loop (m r) g fuel prev' s' cs' k else None) = Some y ->
      exists a b cs', s = a ++ b /\ matching (Star g r) prev a b cs cs'
                      /\ k (lastc prev a) b cs' = Some y).
    { intros y Hy. apply IH in Hy as (a1 & b1 & cs1 & -> & Hm1 & Hy).
      destruct (length b1 <? length (a1 ++ b1)); [|discriminate].
      apply IHf in Hy as (a2 & b & cs2 & -> & Hm2 & Hy).
      exists (a1 ++ a2), b, cs2. rewrite app_assoc. split; [reflexivity|].
      split; [now apply M_star_more with cs1|]. now rewrite lastc_app. }
    destruct g.
    + destruct (m r prev s cs _) as [y|] eqn:E.
      * inversion H; subst y. now apply Hmore.
      * now apply Hend.
    + destruct (k prev s cs) as [y|] eqn:E.
      * inversion H; subst y. now apply Hend.
      * now apply Hmore.
Qed.

(** When the matcher succeeds, the pattern matches a first part of the
    text and the continuation has succeeded on the rest. *)
Lemma m_sound r : forall prev s cs k x,
  m r prev s cs k = Some x ->
  exists a b cs', s = a ++ b /\ matching r prev a b cs cs'
                  /\ k (lastc prev a) b cs' = Some x.
Proof.
  induction r as [|p|r1 IH1 r2 IH2|r1 IH1 r2 IH2|g r IH|n r IH|ml|ml];
    intros prev s cs k x H.
  - exists [], s, cs. split; [reflexivity|]. split; [constructor|exact H].
  - destruct s as [|c s]; [discriminate|]. rewrite m_cls in H.
    destruct (p c) eqn:Hp; [|discriminate].
    exists [c], s, cs. split; [reflexivity|]. split; [now constructor|exact H].
  - rewrite m_seq in H. apply IH1 in H as (a1 & b1 & cs1 & -> & Hm1 & H).
    apply IH2 in H as (a2 & b & cs2 & -> & Hm2 & H).
    exists (a1 ++ a2), b, cs2. rewrite app_assoc. split; [reflexivity|].
    split; [now apply M_seq with cs1|]. now rewrite lastc_app.
  - rewrite m_alt in H. destruct (m r1 prev s cs k) as [y|] eqn:E.
    + inversion H; subst y. apply IH1 in E as (a & b & cs' & -> & Hm & E).
      exists a, b, cs'. split; [reflexivity|]. split; [now apply M_alt_l|exact E].
    + apply IH2 in H as (a & b & cs' & -> & Hm & H).
      exists a, b, cs'. split; [reflexivity|]. split; [now apply M_alt_r|exact H].
  - cbn [m] in H. now apply (star_loop_sound r g IH) in H.
  - rewrite m_grp in H. apply IH in H as (a & b & cs' & -> & Hm & H).
    rewrite length_app, Nat.add_sub, firstn_app, firstn_all, Nat.sub_diag,
      firstn_0, app_nil_r in H.
    exists a, b, ((n, a) :: cs'). split; [reflexivity|].
    split; [now constructor|exact H].
  - rewrite m_bol in H. destruct (at_bol ml prev) eqn:E; [|discriminate].
    exists [], s, cs. split; [reflexivity|]. split; [now constructor|exact H].
  - rewrite m_eol in H. destruct (at_eol ml s) eqn:E; [|discriminate].
    exists [], s, cs. split; [reflexivity|]. split; [now constructor|exact H].
Qed.

Lemma match_at_sound r prev s n cs :
  match_at r prev s = Some (n, cs) ->
  exists a b, s = a ++ b /\ n = length a /\ matching r prev a b [] cs.
Proof.
  unfold match_at. intros H.
  destruct (m r prev s [] _) as [[s' cs']|] eqn:E; [|discriminate].
  inversion H; subst n cs'; clear H.
  apply m_sound in E as (a & b & cs' & -> & Hm & E).
  inversion E; subst s' cs'; clear E.
  exists a, b. rewrite length_app, Nat.add_sub. auto.
Qed.

Lemma matching_min_len r prev a b cs cs' :
  matching r prev a b cs cs' -> min_len r <= length a.
Proof.
  induction 1; cbn [min_len length]; rewrite ?length_app; lia.
Qed.

(** The match that [match_at] reports, as a first part of the text. *)
Lemma match_at_split r prev mt rest cs :
  match_at r prev (mt ++ rest) = Some (length mt, cs) ->
  matching r prev mt rest [] cs.
Proof.
  intros H. apply match_at_sound in H as (a & b & E & El & Hm).
  assert (Ea : a = mt).
  { apply (f_equal (firstn (length mt))) in E.
    rewrite firstn_app, firstn_all, Nat.sub_diag, firstn_0, app_nil_r in E.
    rewrite El in E. rewrite firstn_app, firstn_all, Nat.sub_diag, firstn_0,
      app_nil_r in E. now symmetry. }
  subst a. apply app_inv_head in E. now subst b.
Qed.

(** [re.sub] with a pattern that takes at least one character. *)
Lemma sub_rewrites r repl :
  1 <= min_len r ->
  forall n s prev, length s <= n ->
  rewrites r repl prev s (sub_from r repl 0 prev s).
Proof.
  intros Hr. induction n as [|n IH]; intros s prev Hn.
  - destruct s; [|cbn in Hn; lia].
    cbn [sub_from]. destruct (match_at r prev []) as [[k cs]|] eqn:E.
    + apply match_at_sound in E as (a & b & E & _ & Hm).
      apply matching_min_len in Hm. symmetry in E.
      apply app_eq_nil in E as [-> _]. cbn in Hm. lia.
    + constructor.
  - destruct (match_at r prev s) as [[k cs]|] eqn:E.
    + pose proof E as E'.
      apply match_at_sound in E' as (a & b & -> & -> & Hm).
      apply matching_min_len in Hm.
      assert (Ha : a <> []) by (destruct a; [cbn in Hm; lia|discriminate]).
      rewrite (sub_from_match r repl prev a b cs Ha E).
      apply rw_match; [exact Ha|exact E|].
      apply IH. rewrite length_app in Hn. destruct a; [congruence|].
      cbn in Hn. lia.
    + destruct s as [|c s].
      * rewrite sub_from_nil by exact E. constructor.
      * rewrite sub_from_nomatch by exact E. apply rw_keep; [exact E|].
        apply IH. cbn in Hn. lia.
Qed.

(** *** Matches of the parts of the patterns *)

Lemma matching_eps_inv prev a b cs cs' :
  matching Eps prev a b cs cs' -> a = [] /\ cs' = cs.
Proof. intros H. inversion H; subst. auto. Qed.

Lemma matching_cls_inv p prev a b cs cs' :
  matching (Cls p) prev a b cs cs' ->
  exists c, a = [c] /\ p c = true /\ cs' = cs.
Proof. intros H. inversion H; subst. eauto. Qed.

Lemma matching_chr_inv x prev a b cs cs' :
  matching (Chr x) prev a b cs cs' -> a = [x] /\ cs' = cs.
Proof.
  intros H. apply matching_cls_inv in H as (c & -> & Hc & ->).
  apply is_char_eq in Hc. subst. auto.
Qed.

Lemma matching_seq_inv r1 r2 prev a b cs cs' :
  matching (Seq r1 r2) prev a b cs cs' ->
  exists a1 a2 cs1, a = a1 ++ a2 /\ matching r1 prev a1 (a2 ++ b) cs cs1
                    /\ matching r2 (lastc prev a1) a2 b cs1 cs'.
Proof. intros H. inversion H; subst. eauto 7. Qed.

Lemma matching_alt_inv r1 r2 prev a b cs cs' :
  matching (Alt r1 r2) prev a b cs cs' ->
  matching r1 prev a b cs cs' \/ matching r2 prev a b cs cs'.
Proof. intros H. inversion H; subst; auto. Qed.

Lemma matching_grp_inv n r prev a b cs cs' :
  matching (Grp n r) prev a b cs cs' ->
  exists cs1, cs' = (n, a) :: cs1 /\ matching r prev a b cs cs1.
Proof. intros H. inversion H; subst. eauto. Qed.

Lemma matching_bol_inv ml prev a b cs cs' :
  matching (Bol ml) prev a b cs cs' ->
  a = [] /\ cs' = cs /\ at_bol ml prev = true.
Proof. intros H. inversion H; subst. auto. Qed.

Lemma matching_eol_inv ml prev a b cs cs' :
  matching (Eol ml) prev a b cs cs' ->
  a = [] /\ cs' = cs /\ at_eol ml b = true.
Proof. intros H. inversion H; subst. auto. Qed.

Lemma matching_lit d : forall prev a b cs cs',
  matching (Lit_chars d) prev a b cs cs' -> a = d /\ cs' = cs.
Proof.
  induction d as [|c d IH]; intros prev a b cs cs' H.
  - now apply matching_eps_inv in H.
  - destruct d as [|c2 d].
    + now apply matching_chr_inv in H.
    + change (Lit_chars (c :: c2 :: d))
        with (Seq (Chr c) (Lit_chars (c2 :: d))) in H.
      apply matching_seq_inv in H as (a1 & a2 & cs1 & -> & H1 & H2).
      apply matching_chr_inv in H1 as [-> ->].
      apply IH in H2 as [-> ->]. auto.
Qed.

Lemma matching_star_cls g p prev a b cs cs' :
  matching (Star g (Cls p)) prev a b cs cs' -> forallb p a = true /\ cs' = cs.
Proof.
  intros H. remember (Star g (Cls p)) as r eqn:Er.
  induction H; try discriminate.
  - auto.
  - inversion Er; subst.
    apply matching_cls_inv in H as (c & -> & Hc & ->).
    destruct (IHmatching2 eq_refl) as [E ->].
    cbn [app forallb]. rewrite Hc, E. auto.
Qed.

Lemma matching_plus_cls g p prev a b cs cs' :
  matching (Plus g (Cls p)) prev a b cs cs' ->
  forallb p a = true /\ a <> [] /\ cs' = cs.
Proof.
  unfold Plus. intros H.
  apply matching_seq_inv in H as (a1 & a2 & cs1 & -> & H1 & H2).
  apply matching_cls_inv in H1 as (c & -> & Hc & ->).
  apply matching_star_cls in H2 as [E ->]. cbn [app forallb].
  rewrite Hc, E. repeat split. discriminate.
Qed.

End MatchFacts.

(* ------------------------------------------------------------------ *)
(** ** Numbered lines through the passes before the list items *)

Module PlaceFacts.
Import Py Re Aux PyFacts ReFacts PassFacts ListAux MatchFacts Kindle.

Lemma place_run_app q a b : place_run q (a ++ b) = place_run (place_run q a) b.
Proof. apply fold_left_app. Qed.

Lemma place_run_cons q c s : place_run q (c :: s) = place_run (place_step q c) s.
Proof. reflexivity. Qed.

Lemma place_run_lost s : place_run Lost s = Lost.
Proof. induction s as [|c s IH]; [reflexivity|exact IH]. Qed.

Lemma place_step_line_start q c : at_line_start (Some c) (place_step q c).
Proof.
  unfold at_line_start, at_bol. cbn [andb]. intros H.
  apply Ascii.eqb_eq in H. subst c.
  destruct q as [| | |t|]; vm_compute; auto.
Qed.

Lemma at_line_start_run a : forall prev q,
  at_line_start prev q -> at_line_start (lastc prev a) (place_run q a).
Proof.
  induction a as [|c a IH]; intros prev q H; [exact H|].
  cbn [lastc fold_left]. rewrite place_run_cons. apply IH, place_step_line_start.
Qed.

(** At the start of a line, a character that is no digit loses the
    reader. *)
Lemma line_start_lost prev q c s :
  at_line_start prev q -> at_bol true prev = true -> is_digit c = false ->
  place_run q (c :: s) = Lost.
Proof.
  intros H Hb Hc. rewrite place_run_cons.
  destruct (H Hb) as [-> | ->]; cbn [place_step]; [rewrite Hc|];
    apply place_run_lost.
Qed.

Lemma place_run_nl_then q u c v :
  is_digit c = false -> place_run q (u ++ nl :: c :: v) = Lost.
Proof.
  intros Hc. rewrite place_run_app, place_run_cons.
  apply (line_start_lost (Some nl)); [apply place_step_line_start|reflexivity|exact Hc].
Qed.

(** A pass whose replacements move the reader as the matches did, or whose
    matches lose the reader, keeps the place at the end of the text. *)
Lemma rewrites_place r repl :
  (forall prev mt rest cs q,
     match_at r prev (mt ++ rest) = Some (length mt, cs) ->
     at_line_start prev q ->
     place_run q (repl mt cs) = place_run q mt \/ place_run q mt = Lost) ->
  forall prev s out, rewrites r repl prev s out ->
  forall q, at_line_start prev q -> place_run q s <> Lost ->
  place_run q out = place_run q s.
Proof.
  intros Hrepl prev s out H.
  induction H as [prev|prev c s out Hm H IH|prev mt rest cs out Hne Hm H IH];
    intros q Hq Hs.
  - reflexivity.
  - rewrite !place_run_cons. rewrite place_run_cons in Hs.
    apply IH; [apply place_step_line_start|exact Hs].
  - rewrite !place_run_app. rewrite place_run_app in Hs.
    destruct (Hrepl prev mt rest cs q Hm Hq) as [E|E].
    + rewrite E. apply IH; [now apply at_line_start_run|exact Hs].
    + rewrite E, place_run_lost in Hs. congruence.
Qed.

Lemma sub_place r repl s :
  1 <= min_len r ->
  (forall prev mt rest cs q,
     match_at r prev (mt ++ rest) = Some (length mt, cs) ->
     at_line_start prev q ->
     place_run q (repl mt cs) = place_run q mt \/ place_run q mt = Lost) ->
  numbered_lines s -> place_run At_start (sub r repl s) = place_run At_start s.
Proof.
  intros Hr Hrepl Hs. unfold sub.
  apply (rewrites_place r repl Hrepl None s).
  - now apply (sub_rewrites r repl Hr (length s)).
  - intros _. now left.
  - unfold numbered_lines in Hs. intros E. rewrite E in Hs. discriminate.
Qed.

Lemma sub_numbered_lines r repl s :
  1 <= min_len r ->
  (forall prev mt rest cs q,
     match_at r prev (mt ++ rest) = Some (length mt, cs) ->
     at_line_start prev q ->
     place_run q (repl mt cs) = place_run q mt \/ place_run q mt = Lost) ->
  numbered_lines s -> numbered_lines (sub r repl s).
Proof.
  intros Hr Hrepl Hs. unfold numbered_lines.
  rewrite (sub_place r repl s Hr Hrepl Hs). exact Hs.
Qed.

(** *** The place after tags and delimiters *)

Lemma in_text_reset q : in_text (reset q) = in_text q.
Proof. now destruct q. Qed.

Lemma in_text_run_reset q g :
  in_text (place_run (reset q) g)
  = in_text q && in_text (place_run (In_text T_other) g).
Proof.
  destruct q; cbn [reset in_text andb]; try reflexivity;
    now rewrite place_run_lost.
Qed.

Lemma reset_run_reset q g :
  reset (place_run (reset q) g)
  = if in_text q && in_text (place_run (In_text T_other) g)
    then In_text T_other else Lost.
Proof. unfold reset at 1. now rewrite in_text_run_reset. Qed.

Ltac resets := intros [| | |[]|]; reflexivity.

Lemma tick_resets q : place_run q (lit "`") = reset q.
Proof. revert q. resets. Qed.
Lemma code_open_resets q : place_run q (lit "<code>") = reset q.
Proof. revert q. resets. Qed.
Lemma code_close_resets q : place_run q (lit "</code>") = reset q.
Proof. revert q. resets. Qed.
Lemma star3_resets q : place_run q (lit "***") = reset q.
Proof. revert q. resets. Qed.
Lemma star2_resets q : place_run q (lit "**") = reset q.
Proof. revert q. resets. Qed.
Lemma star1_resets q : place_run q (lit "*") = reset q.
Proof. revert q. resets. Qed.
Lemma strong_em_open_resets q : place_run q (lit "<strong><em>") = reset q.
Proof. revert q. resets. Qed.
Lemma strong_em_close_resets q : place_run q (lit "</em></strong>") = reset q.
Proof. revert q. resets. Qed.
Lemma strong_open_resets q : place_run q (lit "<strong>") = reset q.
Proof. revert q. resets. Qed.
Lemma strong_close_resets q : place_run q (lit "</strong>") = reset q.
Proof. revert q. resets. Qed.
Lemma em_open_resets q : place_run q (lit "<em>") = reset q.
Proof. revert q. resets. Qed.
Lemma em_close_resets q : place_run q (lit "</em>") = reset q.
Proof. revert q. resets. Qed.
Lemma bracket_resets q : place_run q (lit "[") = reset q.
Proof. revert q. resets. Qed.
Lemma bracket_paren_resets q : place_run q (lit "](") = reset q.
Proof. revert q. resets. Qed.
Lemma paren_resets q : place_run q (lit ")") = reset q.
Proof. revert q. resets. Qed.
Lemma a_open_resets q :
  place_run (place_run q (lit "<a href=")) [dq] = reset q.
Proof. revert q. resets. Qed.
Lemma a_mid_resets q : place_run (place_run q [dq]) (lit ">") = reset q.
Proof. revert q. resets. Qed.
Lemma a_close_resets q : place_run q (lit "</a>") = reset q.
Proof. revert q. resets. Qed.

(** *** The shapes of the matches *)

Lemma delimited_shape d0 d1 X prev a b cs :
  (forall prev a b cs cs', matching X prev a b cs cs' -> cs' = cs) ->
  matching (Seq (Lit_chars d0) (Seq (Grp 1 X) (Lit_chars d1))) prev a b [] cs ->
  exists g, a = d0 ++ g ++ d1 /\ cs = [(1, g)].
Proof.
  intros HX H.
  apply matching_seq_inv in H as (a1 & a2 & cs1 & -> & H1 & H2).
  apply matching_lit in H1 as [-> ->].
  apply matching_seq_inv in H2 as (g & a3 & cs2 & -> & H2 & H3).
  apply matching_grp_inv in H2 as (cs3 & -> & H2).
  apply HX in H2. subst cs3.
  apply matching_lit in H3 as [-> ->]. now exists g.
Qed.

Lemma plus_cls_caps g p prev a b cs cs' :
  matching (Plus g (Cls p)) prev a b cs cs' -> cs' = cs.
Proof. intros H. now apply matching_plus_cls in H. Qed.

Lemma star_cls_caps g p prev a b cs cs' :
  matching (Star g (Cls p)) prev a b cs cs' -> cs' = cs.
Proof. intros H. now apply matching_star_cls in H. Qed.

(** A delimited stretch that becomes an element. *)
Lemma delimited_place d0 d1 X (open close : string) :
  (forall prev a b cs cs', matching X prev a b cs cs' -> cs' = cs) ->
  (forall q, place_run q d0 = reset q) ->
  (forall q, place_run q d1 = reset q) ->
  (forall q, place_run q (lit open) = reset q) ->
  (forall q, place_run q (lit close) = reset q) ->
  forall prev mt rest cs q,
  match_at (Seq (Lit_chars d0) (Seq (Grp 1 X) (Lit_chars d1))) prev (mt ++ rest)
  = Some (length mt, cs) ->
  at_line_start prev q ->
  place_run q (wrap_group 1 open close mt cs) = place_run q mt
  \/ place_run q mt = Lost.
Proof.
  intros HX H0 H1 Ho Hc prev mt rest cs q Hm _. left.
  apply match_at_split in Hm.
  apply (delimited_shape d0 d1 X _ _ _ _ HX) in Hm as (g & -> & ->).
  unfold wrap_group, group_or_empty. cbn [group Nat.eqb].
  now rewrite !place_run_app, H0, H1, Ho, Hc.
Qed.

Lemma inline_code_numbered s :
  numbered_lines s ->
  numbered_lines (sub re_inline_code (wrap_group 1 "<code>" "</code>") s).
Proof.
  apply sub_numbered_lines; [cbn; lia|].
  apply (delimited_place (lit "`") (lit "`") (Plus true (NotChr "`"))).
  - apply plus_cls_caps.
  - apply tick_resets.
  - apply tick_resets.
  - apply code_open_resets.
  - apply code_close_resets.
Qed.

Lemma emph3_numbered s :
  numbered_lines s ->
  numbered_lines
    (sub (re_emph "***") (wrap_group 1 "<strong><em>" "</em></strong>") s).
Proof.
  apply sub_numbered_lines; [cbn; lia|].
  apply (delimited_place (lit "***") (lit "***") (Star false Dot)).
  - apply star_cls_caps.
  - apply star3_resets.
  - apply star3_resets.
  - apply strong_em_open_resets.
  - apply strong_em_close_resets.
Qed.

Lemma emph2_numbered s :
  numbered_lines s ->
  numbered_lines (sub (re_emph "**") (wrap_group 1 "<strong>" "</strong>") s).
Proof.
  apply sub_numbered_lines; [cbn; lia|].
  apply (delimited_place (lit "**") (lit "**") (Star false Dot)).
  - apply star_cls_caps.
  - apply star2_resets.
  - apply star2_resets.
  - apply strong_open_resets.
  - apply strong_close_resets.
Qed.

Lemma emph1_numbered s :
  numbered_lines s ->
  numbered_lines (sub (re_emph "*") (wrap_group 1 "<em>" "</em>") s).
Proof.
  apply sub_numbered_lines; [cbn; lia|].
  apply (delimited_place (lit "*") (lit "*") (Star false Dot)).
  - apply star_cls_caps.
  - apply star1_resets.
  - apply star1_resets.
  - apply em_open_resets.
  - apply em_close_resets.
Qed.

Lemma link_shape prev a b cs :
  matching re_link prev a b [] cs ->
  exists g1 g2, a = lit "[" ++ g1 ++ lit "](" ++ g2 ++ lit ")"
                /\ cs = [(2, g2); (1, g1)].
Proof.
  unfold re_link. intros H.
  apply matching_seq_inv in H as (a1 & a2 & cs1 & -> & H1 & H2).
  apply matching_chr_inv in H1 as [-> ->].
  apply matching_seq_inv in H2 as (g1 & a3 & cs2 & -> & H2 & H3).
  apply matching_grp_inv in H2 as (cs3 & -> & H2).
  apply plus_cls_caps in H2. subst cs3.
  apply matching_seq_inv in H3 as (a4 & a5 & cs4 & -> & H3 & H4).
  apply (matching_lit (lit "](")) in H3 as [-> ->].
  apply matching_seq_inv in H4 as (g2 & a6 & cs5 & -> & H4 & H5).
  apply matching_grp_inv in H4 as (cs6 & -> & H4).
  apply plus_cls_caps in H4. subst cs6.
  apply matching_chr_inv in H5 as [-> ->].
  now exists g1, g2.
Qed.

Lemma link_numbered s :
  numbered_lines s -> numbered_lines (sub re_link link_repl s).
Proof.
  apply sub_numbered_lines; [cbn; lia|].
  intros prev mt rest cs q Hm _. left.
  apply match_at_split, link_shape in Hm as (g1 & g2 & -> & ->).
  unfold link_repl, group_or_empty. cbn [group Nat.eqb].
  rewrite !place_run_app.
  rewrite a_open_resets, a_mid_resets, a_close_resets, bracket_resets,
    bracket_paren_resets, paren_resets.
  rewrite !reset_run_reset, !in_text_run_reset.
  now rewrite <- !andb_assoc, (andb_comm (in_text (place_run _ g1))).
Qed.

Lemma inline_passes_numbered s :
  numbered_lines s -> numbered_lines (inline_passes s).
Proof.
  intros H. unfold inline_passes. cbv zeta.
  now apply link_numbered, emph1_numbered, emph2_numbered, emph3_numbered,
    inline_code_numbered.
Qed.

(** *** Headers and code blocks find nothing in numbered lines *)

Lemma header_lost d (tag : string) prev mt rest cs q :
  match_at (re_line (Lit_chars ("#"%char :: d))) prev (mt ++ rest)
  = Some (length mt, cs) ->
  at_line_start prev q ->
  place_run q (header_repl tag mt cs) = place_run q mt \/ place_run q mt = Lost.
Proof.
  intros Hm Hq. right. apply match_at_split in Hm. unfold re_line in Hm.
  apply matching_seq_inv in Hm as (a1 & a2 & cs1 & -> & H1 & H2).
  apply matching_bol_inv in H1 as (-> & -> & Hb).
  apply matching_seq_inv in H2 as (a3 & a4 & cs2 & -> & H2 & _).
  apply matching_lit in H2 as [-> _].
  cbn [app]. now apply (line_start_lost prev).
Qed.

Lemma header_passes_numbered s :
  numbered_lines s -> numbered_lines (header_passes s).
Proof.
  intros H. unfold header_passes. cbv zeta.
  apply sub_numbered_lines; [cbn; lia|apply (header_lost (lit "#### "))|].
  apply sub_numbered_lines; [cbn; lia|apply (header_lost (lit "### "))|].
  apply sub_numbered_lines; [cbn; lia|apply (header_lost (lit "## "))|].
  apply sub_numbered_lines; [cbn; lia|apply (header_lost (lit "# "))|].
  apply sub_numbered_lines; [cbn; lia|apply (header_lost (lit " "))|].
  exact H.
Qed.

Lemma code_block_shape prev a b cs :
  matching re_code_block prev a b [] cs ->
  exists u v, a = u ++ nl :: "`"%char :: v.
Proof.
  unfold re_code_block. intros H.
  apply matching_seq_inv in H as (a1 & a2 & cs1 & -> & H1 & H2).
  apply matching_seq_inv in H2 as (w & a3 & cs2 & -> & _ & H3).
  apply matching_seq_inv in H3 as (a4 & a5 & cs3 & -> & _ & H4).
  apply matching_seq_inv in H4 as (g & a6 & cs4 & -> & _ & H5).
  apply matching_seq_inv in H5 as (a7 & a8 & cs5 & -> & H5 & H6).
  apply matching_chr_inv in H5 as [-> _].
  apply (matching_lit (lit "```")) in H6 as [-> _].
  exists (a1 ++ w ++ a4 ++ g), (lit "``"). now rewrite <- !app_assoc.
Qed.

Lemma code_pass_numbered s : numbered_lines s -> numbered_lines (code_pass s).
Proof.
  apply sub_numbered_lines; [cbn; lia|].
  intros prev mt rest cs q Hm _. right.
  apply match_at_split, code_block_shape in Hm as (u & v & ->).
  now apply place_run_nl_then.
Qed.

Lemma before_items_numbered s :
  numbered_lines s ->
  numbered_lines (inline_passes (code_pass (header_passes s))).
Proof.
  intros H.
  now apply inline_passes_numbered, code_pass_numbered, header_passes_numbered.
Qed.

End PlaceFacts.

(* ------------------------------------------------------------------ *)
(** ** Numbered lines and their items *)

Module LineFacts.
Import Py Re Aux PyFacts ReFacts AnchorFacts PassFacts ListAux MatchFacts
  PlaceFacts Kindle.

(** *** Texts without a digit, a period and white space in a row *)

Lemma tail_run_app q a b :
  tail_run q (a ++ b)
  = match tail_run q a with Some q' => tail_run q' b | None => None end.
Proof.
  revert q. induction a as [|c a IH]; intros q; [reflexivity|].
  cbn [app tail_run]. destruct (tail_step q c); [apply IH|reflexivity].
Qed.

Lemma tail_step_other c :
  tail_step T_other c = Some (if is_digit c then T_digit else T_other).
Proof. unfold tail_step. now destruct (is_digit c). Qed.

Lemma tail_run_other s : forall q,
  tail_run q s <> None -> tail_run T_other s <> None.
Proof.
  induction s as [|c s IH]; intros q H; [discriminate|].
  cbn [tail_run] in *. rewrite tail_step_other.
  unfold tail_step in H. destruct (is_digit c); [exact H|].
  destruct q; [exact H| |].
  - destruct (is_char "." c); [now apply IH in H|exact H].
  - destruct (is_space c); [congruence|exact H].
Qed.

Lemma plain_tail_suffix c s : plain_tail (c :: s) -> plain_tail s.
Proof.
  unfold plain_tail. cbn [tail_run]. rewrite tail_step_other.
  apply tail_run_other.
Qed.

Lemma plain_tail_prefix a b : plain_tail (a ++ b) -> plain_tail a.
Proof.
  unfold plain_tail. rewrite tail_run_app.
  destruct (tail_run T_other a); [discriminate|auto].
Qed.

Lemma tail_run_digits d : forall q,
  forallb is_digit d = true -> d <> [] -> tail_run q d = Some T_digit.
Proof.
  induction d as [|c d IH]; intros q Hd Hne; [congruence|].
  cbn [forallb] in Hd. apply andb_true_iff in Hd as [Hc Hd].
  cbn [tail_run]. unfold tail_step. rewrite Hc.
  destruct d as [|c2 d]; [reflexivity|]. now apply IH.
Qed.

Lemma space_not_digit c : is_space c = true -> is_digit c = false.
Proof. all_chars c. Qed.

Lemma period_not_digit c : is_char "." c = true -> is_digit c = false.
Proof. all_chars c. Qed.

Lemma numbered_shape prev a b cs cs' :
  matching re_numbered prev a b cs cs' ->
  exists d c, a = d ++ ["."%char; c] /\ d <> []
              /\ forallb is_digit d = true /\ is_space c = true.
Proof.
  unfold re_numbered. intros H.
  apply matching_seq_inv in H as (d & a2 & cs1 & -> & H1 & H2).
  apply matching_plus_cls in H1 as (Hd & Hne & _).
  apply matching_seq_inv in H2 as (a3 & a4 & cs2 & -> & H2 & H3).
  apply matching_chr_inv in H2 as [-> _].
  apply matching_cls_inv in H3 as (c & -> & Hc & _).
  now exists d, c.
Qed.

Lemma numbered_not_plain prev a b cs cs' q :
  matching re_numbered prev a b cs cs' -> tail_run q (a ++ b) = None.
Proof.
  intros H. apply numbered_shape in H as (d & c & -> & Hne & Hd & Hc).
  rewrite <- app_assoc, tail_run_app, (tail_run_digits d q Hd Hne).
  cbn [app tail_run]. unfold tail_step.
  rewrite (period_not_digit "." eq_refl), (space_not_digit c Hc), Hc.
  reflexivity.
Qed.

(** The test of [wrap_list_items] fails on such a text. *)
Lemma search_plain_tail u : forall prev,
  plain_tail u -> search_from re_numbered prev u = false.
Proof.
  induction u as [|c u IH]; intros prev H.
  - cbn [search_from]. destruct (match_at re_numbered prev []) as [[n cs]|] eqn:E;
      [|reflexivity].
    apply match_at_sound in E as (a & b & E & _ & Hm).
    apply (numbered_not_plain _ _ _ _ _ T_other) in Hm. rewrite <- E in Hm.
    discriminate.
  - cbn [search_from].
    destruct (match_at re_numbered prev (c :: u)) as [[n cs]|] eqn:E.
    + apply match_at_sound in E as (a & b & E & _ & Hm).
      apply (numbered_not_plain _ _ _ _ _ T_other) in Hm. rewrite <- E in Hm.
      now apply H in Hm.
    + apply IH. now apply plain_tail_suffix in H.
Qed.

Lemma no_triple_tail a t : no_triple (a :: t) = true -> no_triple t = true.
Proof.
  cbn [no_triple]. destruct t as [|b [|c t]]; try reflexivity.
  intros H. now apply andb_true_iff in H.
Qed.

Lemma no_triple_run t : forall q,
  no_triple t = true ->
  match q, t with
  | T_digit, b :: c :: _ => is_char "." b && is_space c = false
  | T_period, c :: _ => is_space c = false
  | _, _ => True
  end ->
  tail_run q t <> None.
Proof.
  induction t as [|a t IH]; intros q Ht Hq; [discriminate|].
  pose proof (no_triple_tail a t Ht) as Ht'.
  cbn [tail_run]. unfold tail_step. destruct (is_digit a) eqn:Ha.
  - apply IH; [exact Ht'|]. destruct t as [|b [|c t]]; try exact I.
    cbn [no_triple] in Ht. apply andb_true_iff in Ht as [Ht _].
    rewrite Ha in Ht. cbn [andb] in Ht. now apply negb_true_iff in Ht.
  - destruct q.
    + now apply IH.
    + destruct (is_char "." a) eqn:Hp.
      * apply IH; [exact Ht'|]. destruct t as [|c t]; [exact I|].
        exact Hq.
      * now apply IH.
    + cbv iota beta in Hq. rewrite Hq. now apply IH.
Qed.

Lemma no_triple_plain t : no_triple t = true -> plain_tail t.
Proof. intros H. now apply no_triple_run. Qed.

Lemma numbered_item_ok it : numbered_item it = true -> item_ok it.
Proof.
  unfold numbered_item, item_ok. intros H.
  apply andb_true_iff in H as [H H4]. apply andb_true_iff in H as [H H3].
  apply andb_true_iff in H as [H1 H2].
  repeat split; try assumption.
  - destruct (fst it); [discriminate|discriminate].
  - now apply no_triple_plain.
Qed.

(** *** The reader on the lines of a list *)

Lemma place_run_digits d : forall q,
  q = At_start \/ q = In_number ->
  forallb is_digit d = true -> d <> [] -> place_run q d = In_number.
Proof.
  induction d as [|c d IH]; intros q Hq Hd Hne; [congruence|].
  cbn [forallb] in Hd. apply andb_true_iff in Hd as [Hc Hd].
  rewrite place_run_cons.
  assert (E : place_step q c = In_number).
  { destruct Hq as [-> | ->]; cbn [place_step]; now rewrite Hc. }
  rewrite E. destruct d as [|c2 d]; [reflexivity|].
  apply IH; [now right|exact Hd|discriminate].
Qed.

Lemma place_run_text x : forall q,
  forallb no_nl x = true ->
  place_run (In_text q) x
  = match tail_run q x with Some q' => In_text q' | None => Lost end.
Proof.
  induction x as [|c x IH]; intros q Hx; [reflexivity|].
  cbn [forallb] in Hx. apply andb_true_iff in Hx as [Hc Hx].
  rewrite place_run_cons. cbn [place_step tail_run].
  unfold no_nl in Hc. apply negb_true_iff in Hc. rewrite Hc.
  destruct (tail_step q c); [now apply IH|apply place_run_lost].
Qed.

Lemma item_line_run it :
  item_ok it -> in_text (place_run At_start (item_line it)) = true.
Proof.
  intros (Hne & Hd & Hx & Ht). unfold item_line.
  rewrite !place_run_app, (place_run_digits _ At_start (or_introl eq_refl) Hd Hne).
  change (place_run In_number (lit ". ")) with (In_text T_other).
  rewrite (place_run_text _ _ Hx).
  destruct (tail_run T_other (snd it)); [reflexivity|congruence].
Qed.

Lemma place_run_in_text_nl q s :
  in_text q = true -> place_run q (nl :: s) = place_run At_start s.
Proof. destruct q; try discriminate. reflexivity. Qed.

(** A list of items is a text of numbered lines. *)
Lemma numbered_list_lines items :
  items <> [] -> Forall item_ok items -> numbered_lines (numbered_list items).
Proof.
  unfold numbered_lines, numbered_list.
  induction items as [|it items IH]; intros Hne H; [congruence|].
  inversion H as [|? ? Hit Hrest]; subst.
  destruct items as [|it2 items].
  - cbn [map join]. now apply item_line_run.
  - cbn [map]. rewrite join_cons_ne by discriminate.
    rewrite place_run_app. cbn [app].
    rewrite place_run_in_text_nl by now apply item_line_run.
    apply IH; [discriminate|exact Hrest].
Qed.

(** *** The lines of a text that the reader accepts *)

Lemma number_split s :
  in_text (place_run In_number s) = true ->
  exists d s1, s = d ++ "."%char :: s1 /\ forallb is_digit d = true
               /\ in_text (place_run After_period s1) = true.
Proof.
  induction s as [|c s IH]; intros H; [discriminate|].
  rewrite place_run_cons in H. cbn [place_step] in H.
  destruct (is_digit c) eqn:Hc.
  - destruct (IH H) as (d & s1 & -> & Hd & H1).
    exists (c :: d), s1. cbn [forallb app]. now rewrite Hc, Hd.
  - destruct (is_char "." c) eqn:Hp.
    + apply is_char_eq in Hp. subst c. now exists [], s.
    + rewrite place_run_lost in H. discriminate.
Qed.

Lemma text_split s : forall q,
  in_text (place_run (In_text q) s) = true ->
  exists x rest, s = x ++ rest /\ forallb no_nl x = true
                 /\ tail_run q x <> None
                 /\ (rest = [] \/ exists s', rest = nl :: s'
                       /\ in_text (place_run At_start s') = true).
Proof.
  induction s as [|c s IH]; intros q H.
  - exists [], []. repeat split; [discriminate|now left].
  - rewrite place_run_cons in H. cbn [place_step] in H.
    destruct (is_char nl c) eqn:Hc.
    + apply is_char_eq in Hc. subst c. exists [], (nl :: s).
      repeat split; [discriminate|]. right. now exists s.
    + destruct (tail_step q c) as [q'|] eqn:Eq.
      * destruct (IH q' H) as (x & rest & -> & Hx & Ht & Hrest).
        exists (c :: x), rest. cbn [forallb tail_run]. unfold no_nl at 1.
        rewrite Hc, Eq. cbn [negb andb]. auto.
      * rewrite place_run_lost in H. discriminate.
Qed.

Lemma line_split s :
  in_text (place_run At_start s) = true ->
  exists it rest, s = item_line it ++ rest /\ item_ok it
    /\ (rest = [] \/ exists s', rest = nl :: s'
          /\ in_text (place_run At_start s') = true).
Proof.
  intros H. destruct s as [|c s]; [discriminate|].
  rewrite place_run_cons in H. cbn [place_step] in H.
  destruct (is_digit c) eqn:Hc; [|rewrite place_run_lost in H; discriminate].
  apply number_split in H as (d & s1 & -> & Hd & H).
  destruct s1 as [|c1 s1]; [discriminate|].
  rewrite place_run_cons in H. cbn [place_step] in H.
  destruct (is_char " " c1) eqn:Hs; [|rewrite place_run_lost in H; discriminate].
  apply is_char_eq in Hs. subst c1.
  apply text_split in H as (x & rest & -> & Hx & Ht & Hrest).
  exists (c :: d, x), rest. unfold item_line, item_ok. cbn [fst snd].
  split; [now rewrite <- !app_assoc|]. split; [|exact Hrest].
  repeat split; try assumption; [discriminate|].
  cbn [forallb]. now rewrite Hc.
Qed.

Lemma item_line_nonempty it : item_ok it -> 1 <= length (item_line it).
Proof.
  intros (Hne & _). unfold item_line. rewrite length_app.
  destruct (fst it); [congruence|cbn; lia].
Qed.

(** A text of numbered lines is a list of items. *)
Lemma numbered_lines_items n : forall s,
  length s <= n -> numbered_lines s ->
  exists items, items <> [] /\ Forall item_ok items /\ s = numbered_list items.
Proof.
  unfold numbered_lines.
  induction n as [|n IH]; intros s Hn H.
  - destruct s; [discriminate|cbn in Hn; lia].
  - apply line_split in H as (it & rest & -> & Hit & [->|(s' & -> & H)]).
    + exists [it]. split; [discriminate|]. split; [now constructor|].
      unfold numbered_list. cbn [map join]. apply app_nil_r.
    + pose proof (item_line_nonempty it Hit) as Hl.
      rewrite length_app in Hn. cbn [length] in Hn.
      destruct (IH s' ltac:(lia) H) as (items & Hne & Hall & ->).
      exists (it :: items). split; [discriminate|]. split; [now constructor|].
      unfold numbered_list. cbn [map].
      rewrite join_cons_ne; [reflexivity|]. now destruct items.
Qed.

End LineFacts.

(* ------------------------------------------------------------------ *)
(** ** A numbered list through the transducer *)

Module ListFacts.
Import Py Re Aux PyFacts ReFacts AnchorFacts PassFacts QuietFacts HeaderFacts
  ListAux MatchFacts PlaceFacts LineFacts Kindle.

Lemma firstn_app_len (a b : str) :
  firstn (length (a ++ b) - length b) (a ++ b) = a.
Proof.
  now rewrite length_app, Nat.add_sub, firstn_app, firstn_all, Nat.sub_diag,
    firstn_0, app_nil_r.
Qed.

(** *** The pass over the numbered items *)

(** [^(\d+)\. (.*?)$] on a numbered line. *)
Lemma match_numbered_item prev c d x rest :
  at_bol true prev = true -> is_digit c = true -> forallb is_digit d = true ->
  forallb no_nl x = true -> at_eol true rest = true ->
  match_at re_numbered_item prev ((c :: d) ++ lit ". " ++ x ++ rest)
  = Some (length ((c :: d) ++ lit ". " ++ x), [(2, x); (1, c :: d)]).
Proof.
  intros Hb Hc Hd Hx Hr. unfold match_at, re_numbered_item, Plus. unlit.
  cbn [app]. step_m. rewrite Hb, Hc.
  rewrite (greedy_run is_digit d (Some c) ("."%char :: " "%char :: x ++ rest) []
             _ (rest, [(2, x); (1, c :: d)]) Hd eq_refl).
  - f_equal. f_equal. cbn [length]. rewrite !length_app. cbn [length].
    rewrite !length_app. lia.
  - run_m.
    rewrite (lazy_run _ x _ rest _ _ (rest, [(2, x); (1, c :: d)]) Hx).
    + reflexivity.
    + intros a1 c' a2 E. run_m. cbn [at_eol].
      now rewrite (in_middle_no_nl x a1 a2 c' Hx E).
    + run_m. rewrite Hr. rewrite firstn_app_len.
      change (c :: d ++ "."%char :: " "%char :: x ++ rest)
        with ((c :: d) ++ "."%char :: " "%char :: x ++ rest).
      now rewrite firstn_app_len.
Qed.

Lemma match_item_line prev it rest :
  at_bol true prev = true -> item_ok it -> at_eol true rest = true ->
  match_at re_numbered_item prev (item_line it ++ rest)
  = Some (length (item_line it), [(2, snd it); (1, fst it)]).
Proof.
  intros Hb (Hne & Hd & Hx & _) Hr. destruct it as [[|c d] x]; [easy|].
  unfold item_line. cbn [fst snd] in *. rewrite <- !app_assoc.
  cbn [forallb] in Hd. apply andb_true_iff in Hd as [Hc Hd].
  now apply match_numbered_item.
Qed.

Lemma item_line_not_nil it : item_ok it -> item_line it <> [].
Proof.
  intros (Hne & _). unfold item_line. destruct (fst it); [congruence|discriminate].
Qed.

Lemma numbered_item_at_nl prev s :
  match_at re_numbered_item prev (nl :: s) = None.
Proof.
  apply re_numbered_item_needs. unfold guard.
  change (is_digit nl) with false. now rewrite andb_false_r.
Qed.

(** Every numbered line becomes a list item without its number. *)
Lemma numbered_pass_items items : forall prev,
  at_bol true prev = true -> Forall item_ok items -> items <> [] ->
  sub_from re_numbered_item (wrap_group 2 "<li>" "</li>") 0 prev
    (numbered_list items)
  = join [nl] (map li (map snd items)).
Proof.
  unfold numbered_list.
  induction items as [|it items IH]; intros prev Hb H Hne; [congruence|].
  inversion H as [|? ? Hit Hrest]; subst.
  pose proof (item_line_not_nil it Hit) as Hl.
  destruct items as [|it2 items].
  - cbn [map join]. rewrite <- (app_nil_r (item_line it)).
    rewrite (sub_from_match _ _ prev (item_line it) [] _ Hl
               (match_item_line prev it [] Hb Hit eq_refl)).
    rewrite sub_from_nil by apply re_numbered_item_nil.
    now rewrite app_nil_r.
  - cbn [map]. rewrite (join_cons_ne [nl] (item_line it)) by discriminate.
    rewrite (join_cons_ne [nl] (li (snd it))) by discriminate.
    change (item_line it2 :: map item_line items)
      with (map item_line (it2 :: items)).
    change (li (snd it2) :: map li (map snd items))
      with (map li (map snd (it2 :: items))).
    set (rest := join [nl] (map item_line (it2 :: items))).
    cbn [app].
    rewrite (sub_from_match _ _ prev (item_line it) (nl :: rest) _ Hl
               (match_item_line prev it (nl :: rest) Hb Hit eq_refl)).
    rewrite sub_from_nomatch by apply numbered_item_at_nl.
    unfold rest. rewrite (IH (Some nl) eq_refl Hrest) by discriminate.
    reflexivity.
Qed.

(** *** Lines that begin with a tag *)

Lemma tag_first_lt prev : tag_first prev "<" = true.
Proof.
  unfold tag_first, guard. change (negb (is_char "<" "<")) with false.
  now rewrite andb_false_r.
Qed.

Lemma pairs_ok_tag prev t :
  forallb no_nl ("<"%char :: t) = true ->
  pairs_ok tag_first prev ("<"%char :: t) = true.
Proof.
  intros H. rewrite pairs_ok_cons, tag_first_lt. cbn [andb].
  cbn [forallb] in H. apply andb_true_iff in H as [_ H].
  apply pairs_ok_no_P; [reflexivity|].
  revert H. apply forallb_forall_impl. intros x. apply at_bol_no_nl.
Qed.

Lemma pairs_ok_relax P F prev prev' s :
  P prev' = false ->
  pairs_ok (guard P F) prev s = true -> pairs_ok (guard P F) prev' s = true.
Proof.
  intros Hp. destruct s as [|c s]; [reflexivity|]. rewrite !pairs_ok_cons.
  intros H. apply andb_true_iff in H as [_ H]. rewrite H.
  unfold guard. now rewrite Hp.
Qed.

Lemma li_no_nl x : forallb no_nl x = true -> forallb no_nl (li x) = true.
Proof. intros H. unfold li. now rewrite !forallb_app, H. Qed.

Lemma lastc_li prev x : lastc prev (li x) = Some ">"%char.
Proof. unfold li. now rewrite !lastc_app. Qed.

Lemma pairs_ok_li prev x :
  forallb no_nl x = true -> pairs_ok tag_first prev (li x) = true.
Proof.
  intros H. apply (pairs_ok_tag prev (lit "li>" ++ x ++ lit "</li>")).
  now apply (li_no_nl x).
Qed.

Lemma li_lines_tag_first xs : forall prev,
  Forall (fun x => forallb no_nl x = true) xs ->
  pairs_ok tag_first prev (join [nl] (map li xs)) = true.
Proof.
  induction xs as [|x xs IH]; intros prev H; [reflexivity|].
  inversion H as [|? ? Hx Hxs]; subst.
  destruct xs as [|x2 xs].
  - cbn [map join]. now apply pairs_ok_li.
  - cbn [map]. rewrite join_cons_ne by discriminate.
    rewrite pairs_ok_app. cbn [app]. rewrite pairs_ok_cons, lastc_li.
    rewrite (pairs_ok_li prev x Hx).
    change (li x2 :: map li xs) with (map li (x2 :: xs)).
    rewrite (IH (Some nl) Hxs). reflexivity.
Qed.

Lemma lastc_li_lines xs : forall prev,
  xs <> [] -> lastc prev (join [nl] (map li xs)) = Some ">"%char.
Proof.
  induction xs as [|x xs IH]; intros prev Hne; [congruence|].
  destruct xs as [|x2 xs].
  - cbn [map join]. apply lastc_li.
  - cbn [map]. rewrite join_cons_ne by discriminate.
    rewrite lastc_app. cbn [app]. apply IH. discriminate.
Qed.

Lemma bullet_not_lt c :
  (is_char "-" c || is_char "*" c || is_char "+" c) = true ->
  negb (is_char "<" c) = true.
Proof. all_chars c. Qed.

Lemma bullet_pass_tag_first s :
  pairs_ok tag_first None s = true ->
  sub re_bullet_item (wrap_group 1 "<li>" "</li>") s = s.
Proof.
  intros H. unfold re_bullet_item.
  apply (sub_id_bol _ _ _ (fun c => negb (is_char "<" c)) s
           (re_line_nil _ _) (re_line_needs _ _) bullet_not_lt H).
Qed.

(** *** The wrapping of the items *)

Lemma tail_run_li x q : plain_tail x -> tail_run q (li x) = Some T_other.
Proof.
  unfold plain_tail, li. intros H.
  assert (E : tail_run q (lit "<li>") = Some T_other)
    by (destruct q; reflexivity).
  rewrite tail_run_app, E. cbv beta iota. rewrite tail_run_app.
  destruct (tail_run T_other x) as [t|]; [|congruence].
  destruct t; reflexivity.
Qed.

Lemma li_lines_plain_tail xs : forall q,
  Forall plain_tail xs -> tail_run q (join [nl] (map li xs)) <> None.
Proof.
  induction xs as [|x xs IH]; intros q H; [discriminate|].
  inversion H as [|? ? Hx Hxs]; subst.
  destruct xs as [|x2 xs].
  - cbn [map join]. now rewrite tail_run_li.
  - cbn [map]. rewrite join_cons_ne by discriminate.
    rewrite tail_run_app, tail_run_li by assumption.
    cbv beta iota. cbn [app].
    change (li x2 :: map li xs) with (map li (x2 :: xs)).
    apply (IH T_other Hxs).
Qed.

(** Two replacements that agree on the matches found in a text give the
    same result. *)
Lemma sub_from_repl_ext r repl1 repl2 (Q : str -> Prop) :
  (forall c s, Q (c :: s) -> Q s) ->
  (forall prev s n cs, Q s -> match_at r prev s = Some (n, cs) ->
     repl1 (firstn n s) cs = repl2 (firstn n s) cs) ->
  forall s k prev, Q s ->
  sub_from r repl1 k prev s = sub_from r repl2 k prev s.
Proof.
  intros Hsuf Hrepl. induction s as [|c s IH]; intros k prev HQ.
  - destruct k; [|reflexivity]. cbn [sub_from].
    destruct (match_at r prev []) as [[n cs]|] eqn:E; [|reflexivity].
    now rewrite (Hrepl prev [] n cs HQ E).
  - pose proof (Hsuf c s HQ) as HQ'.
    destruct k as [|k]; [|cbn [sub_from]; now apply IH].
    cbn [sub_from].
    destruct (match_at r prev (c :: s)) as [[n cs]|] eqn:E.
    + rewrite (Hrepl prev (c :: s) n cs HQ E). f_equal.
      destruct n; [f_equal|]; now apply IH.
    + f_equal. now apply IH.
Qed.

Lemma list_items_group prev a b cs :
  matching re_list_items prev a b [] cs ->
  group_or_empty 1 cs = a /\ exists u, a = lit "<li>" ++ u.
Proof.
  unfold re_list_items. intros H.
  apply matching_grp_inv in H as (cs1 & -> & H).
  split; [reflexivity|].
  apply matching_seq_inv in H as (a1 & a2 & cs2 & -> & H1 & _).
  apply (matching_lit (lit "<li>")) in H1 as [-> _]. now exists a2.
Qed.

(** In a text without a digit followed by a period and white space the
    items are wrapped in [<ul>] and never in [<ol>]. *)
Lemma wrap_pass_ul h :
  plain_tail h -> wrap_pass h = sub re_list_items ul_wrap h.
Proof.
  intros H. unfold wrap_pass, sub.
  apply (sub_from_repl_ext _ _ _ plain_tail plain_tail_suffix); [|exact H].
  intros prev s n cs Hs Hm.
  apply match_at_sound in Hm as (a & b & -> & -> & Hm).
  apply list_items_group in Hm as [Hg _].
  unfold wrap_list_items, ul_wrap. cbv zeta. rewrite Hg.
  unfold search. rewrite search_plain_tail; [reflexivity|].
  now apply plain_tail_prefix in Hs.
Qed.

(** *** The text after the wrapping *)

Lemma ul_wrap_match prev mt rest cs :
  match_at re_list_items prev (mt ++ rest) = Some (length mt, cs) ->
  ul_wrap mt cs = lit "<ul>" ++ mt ++ lit "</ul>".
Proof.
  intros H. apply match_at_split, list_items_group in H as [Hg _].
  unfold ul_wrap. now rewrite Hg.
Qed.

Lemma wrap_tag_first prev s out :
  rewrites re_list_items ul_wrap prev s out ->
  pairs_ok tag_first prev s = true -> pairs_ok tag_first prev out = true.
Proof.
  induction 1 as [prev|prev c s out Hm H IH|prev mt rest cs out Hne Hm H IH];
    intros Hs.
  - reflexivity.
  - rewrite pairs_ok_cons in *. apply andb_true_iff in Hs as [-> Hs]. auto.
  - rewrite (ul_wrap_match _ _ _ _ Hm). rewrite pairs_ok_app in Hs.
    apply andb_true_iff in Hs as [H1 H2]. specialize (IH H2).
    rewrite <- !app_assoc, !pairs_ok_app, !andb_true_iff. repeat split.
    + apply (pairs_ok_tag prev (lit "ul>") eq_refl).
    + apply (pairs_ok_relax _ _ prev); [reflexivity|exact H1].
    + apply (pairs_ok_tag _ (lit "/ul>") eq_refl).
    + apply (pairs_ok_relax _ _ (lastc prev mt)); [reflexivity|exact IH].
Qed.

Lemma wrap_head prev s out :
  rewrites re_list_items ul_wrap prev ("<"%char :: s) out ->
  exists out', out = "<"%char :: out'.
Proof.
  intros H. inversion H as [|? ? ? ? ? ?|? mt rest cs out0 Hne Hm Hr E]; subst.
  - eauto.
  - rewrite (ul_wrap_match _ _ _ _ Hm). cbn [lit list_ascii_of_string app]. eauto.
Qed.

Lemma wrap_no_space_last prev s out :
  rewrites re_list_items ul_wrap prev s out ->
  forall p p', (no_space_before p -> no_space_before p') ->
  no_space_before (lastc p s) -> no_space_before (lastc p' out).
Proof.
  induction 1 as [prev|prev c s out Hm H IH|prev mt rest cs out Hne Hm H IH];
    intros p p' Hp Hs.
  - now apply Hp.
  - cbn [lastc fold_left] in *. now apply (IH (Some c) (Some c)).
  - rewrite (ul_wrap_match _ _ _ _ Hm). rewrite lastc_app in Hs.
    rewrite <- !app_assoc, !lastc_app.
    apply (IH (lastc p mt)); [|exact Hs]. intros _. reflexivity.
Qed.

Lemma lastc_rev s : forall prev,
  match rev s with
  | c :: _ => lastc prev s = Some c
  | [] => lastc prev s = prev
  end.
Proof.
  intros prev. destruct (rev s) as [|c l] eqn:E.
  - apply (f_equal (@rev ascii)) in E. rewrite rev_involutive in E. now subst.
  - apply (f_equal (@rev ascii)) in E. rewrite rev_involutive in E. subst s.
    cbn [rev]. now rewrite lastc_app.
Qed.

Lemma no_space_last_rev s :
  no_space_before (lastc None s) -> head_not is_space (rev s).
Proof.
  intros H. pose proof (lastc_rev s None) as E.
  destruct (rev s) as [|c l]; [exact I|]. rewrite E in H. exact H.
Qed.

(** *** The passes after the wrapping *)

Lemma lstrip_by_last f a c :
  f c = false -> exists u, lstrip_by f (a ++ [c]) = u ++ [c].
Proof.
  intros Hc. induction a as [|x a [u IH]]; cbn [app lstrip_by].
  - rewrite Hc. now exists [].
  - destruct (f x); [now exists u|now exists (x :: a)].
Qed.

Lemma strip_tag l : exists u, strip ("<"%char :: l) = "<"%char :: u.
Proof.
  unfold strip, strip_by, rstrip_by.
  rewrite (lstrip_by_head is_space "<" l eq_refl). cbn [rev].
  destruct (lstrip_by_last is_space (rev l) "<" eq_refl) as [u ->].
  rewrite rev_app_distr. cbn [rev app]. now exists (rev u).
Qed.

Lemma tag_line_no_table l : tag_line l -> is_table_line l = false.
Proof.
  intros [->|[u ->]]; [reflexivity|]. unfold is_table_line.
  destruct (strip_tag u) as [v ->].
  change (startswith (lit "|") ("<"%char :: v)) with false.
  now rewrite andb_false_r.
Qed.

Lemma tag_first_head prev c :
  at_bol true prev = true -> is_char nl c = false ->
  tag_first prev c = true -> c = "<"%char.
Proof.
  unfold tag_first, guard. intros -> _ H. cbn [andb] in H.
  rewrite negb_involutive in H. apply is_char_eq in H. now symmetry.
Qed.

Lemma tag_first_lines s : forall prev,
  pairs_ok tag_first prev s = true ->
  Forall tag_line (tl (split nl s))
  /\ (at_bol true prev = true -> tag_line (hd [] (split nl s))).
Proof.
  induction s as [|c s IH]; intros prev H.
  - cbn [split tl hd]. split; [constructor|]. intros _. now left.
  - rewrite pairs_ok_cons in H. apply andb_true_iff in H as [Hc Hs].
    cbn [split]. destruct (Ascii.eqb nl c) eqn:E.
    + apply Ascii.eqb_eq in E. subst c. cbn [tl hd].
      destruct (IH (Some nl) Hs) as [H1 H2]. specialize (H2 eq_refl).
      split; [|intros _; now left].
      pose proof (split_nonempty nl s) as Hne.
      destruct (split nl s) as [|l ls]; [congruence|].
      cbn [tl hd] in *. now constructor.
    + destruct (IH (Some c) Hs) as [H1 _].
      pose proof (split_nonempty nl s) as Hne.
      destruct (split nl s) as [|l ls]; [congruence|].
      cbn [tl hd] in *. split; [exact H1|].
      intros Hb. right. exists l. f_equal.
      now apply (tag_first_head prev).
Qed.

Lemma tag_first_no_table s :
  pairs_ok tag_first None s = true ->
  Forall (fun l => is_table_line l = false) (split nl s).
Proof.
  intros H. destruct (tag_first_lines s None H) as [H1 H2].
  specialize (H2 eq_refl). pose proof (split_nonempty nl s) as Hne.
  destruct (split nl s) as [|l ls]; [congruence|]. cbn [tl hd] in *.
  constructor; [now apply tag_line_no_table|].
  revert H1. apply Forall_impl. apply tag_line_no_table.
Qed.

Lemma tag_first_no_blank prev c :
  tag_first prev c = true ->
  guard (after_char nl) (is_char nl) prev c = true.
Proof.
  unfold tag_first, guard. intros H.
  destruct (is_char nl c) eqn:Ec; [|now rewrite andb_false_r].
  apply is_char_eq in Ec. subst c.
  destruct prev as [p|]; [|reflexivity]. cbn [after_char].
  destruct (is_char nl p) eqn:Ep; [|reflexivity].
  apply is_char_eq in Ep. subst p. discriminate H.
Qed.

Lemma gt_not_lt c : is_char ">" c = true -> negb (is_char "<" c) = true.
Proof. all_chars c. Qed.

Lemma dash_not_lt c : is_char "-" c = true -> negb (is_char "<" c) = true.
Proof. all_chars c. Qed.

(** A text whose lines begin with tags and that does not end with white
    space goes through the last passes as it is. *)
Lemma block_passes_tag_first s :
  pairs_ok tag_first None ("<"%char :: s) = true ->
  head_not is_space (rev ("<"%char :: s)) ->
  block_passes ("<"%char :: s) = "<"%char :: s.
Proof.
  intros Hp Hr. unfold block_passes. cbv zeta.
  rewrite (sub_id_bol (re_line (Lit "> ")) _ (is_char ">")
             (fun c => negb (is_char "<" c)) _
             (re_line_nil _ _) (re_line_needs _ _) gt_not_lt Hp).
  rewrite (sub_id_bol re_rule _ (is_char "-")
             (fun c => negb (is_char "<" c)) _
             re_rule_nil re_rule_needs dash_not_lt Hp).
  rewrite convert_tables_id by now apply tag_first_no_table.
  rewrite (split_blank_id _ None).
  - cbn [map join]. now apply convert_paragraph_id.
  - revert Hp. apply pairs_ok_weaken. apply tag_first_no_blank.
Qed.

(** *** A match at the first item *)

Lemma lazy_finds p a : forall prev b cs k,
  forallb p a = true -> (exists y, k (lastc prev a) b cs = Some y) ->
  exists x, lazy p prev (a ++ b) cs k = Some x.
Proof.
  induction a as [|c a IH]; intros prev b cs k Ha [y Hk].
  - cbn [app lastc fold_left] in *. exists y. destruct b; cbn [lazy]; now rewrite Hk.
  - cbn [app lazy]. destruct (k prev (c :: a ++ b) cs) as [x|]; [now exists x|].
    cbn [forallb] in Ha. apply andb_true_iff in Ha as [-> Ha].
    apply (IH (Some c) b cs k Ha). now exists y.
Qed.

Lemma star_greedy_finds body fuel prev s cs (k : cont) :
  (forall p s' cs', exists y, k p s' cs' = Some y) ->
  exists x, star_loop body true fuel prev s cs k = Some x.
Proof.
  intros Hk. destruct fuel as [|fuel]; cbn [star_loop]; [apply Hk|].
  destruct (body prev s cs _) as [x|]; [now exists x|apply Hk].
Qed.

(** The wrapping pattern matches where an item begins. *)
Lemma match_first_item prev x rest :
  exists n cs, match_at re_list_items prev (li x ++ rest) = Some (n, cs).
Proof.
  assert (H : exists y, m re_list_items prev (li x ++ rest) []
                          (fun _ s' cs => Some (s', cs)) = Some y).
  { unfold re_list_items, li. unlit. rewrite <- !app_assoc. cbn [app]. run_m.
    apply lazy_finds; [now apply forallb_forall|].
    cbn [app]. run_m. cbn [m]. apply star_greedy_finds.
    intros p s' cs'. eauto. }
  destruct H as [[s' cs] H]. unfold match_at. rewrite H. eauto.
Qed.

Lemma li_lines_head x xs :
  exists rest, join [nl] (map li (x :: xs)) = li x ++ rest.
Proof.
  destruct xs as [|x2 xs].
  - exists []. cbn [map join]. now rewrite app_nil_r.
  - cbn [map]. rewrite join_cons_ne by discriminate. eauto.
Qed.

Section Items.
Variable items : list (str * str).
Hypothesis Hne : items <> [].
Hypothesis Hitems : forallb numbered_item items = true.

Let input := numbered_list items.
Let inline := inline_passes (code_pass (header_passes input)).

Lemma items_ok : Forall item_ok items.
Proof.
  apply Forall_forall. intros it Hin. apply numbered_item_ok.
  rewrite forallb_forall in Hitems. now apply Hitems.
Qed.

Lemma inline_items :
  exists converted, converted <> [] /\ Forall item_ok converted
                    /\ inline = numbered_list converted.
Proof.
  apply (numbered_lines_items (length inline)); [lia|].
  apply before_items_numbered, numbered_list_lines; [exact Hne|exact items_ok].
Qed.

End Items.

Section Converted.
Variable converted : list (str * str).
Hypothesis Hne : converted <> [].
Hypothesis Hok : Forall item_ok converted.

Let texts := map snd converted.
Let lines := join [nl] (map li texts).
Let wrapped := sub re_list_items ul_wrap lines.

Lemma texts_no_nl : Forall (fun x => forallb no_nl x = true) texts.
Proof.
  unfold texts. apply Forall_map. revert Hok. apply Forall_impl.
  now intros it (_ & _ & H & _).
Qed.

Lemma texts_plain_tail : Forall plain_tail texts.
Proof.
  unfold texts. apply Forall_map. revert Hok. apply Forall_impl.
  now intros it (_ & _ & _ & H).
Qed.

Lemma texts_not_nil : texts <> [].
Proof. unfold texts. now destruct converted. Qed.

Lemma item_passes_converted : item_passes (numbered_list converted) = lines.
Proof.
  unfold item_passes. cbv zeta. unfold sub at 2.
  rewrite (numbered_pass_items converted None eq_refl Hok Hne).
  apply bullet_pass_tag_first, li_lines_tag_first, texts_no_nl.
Qed.

Lemma wrap_pass_lines : wrap_pass lines = wrapped.
Proof. apply wrap_pass_ul. apply (li_lines_plain_tail texts T_other texts_plain_tail). Qed.

Lemma wrapped_rewrites : rewrites re_list_items ul_wrap None lines wrapped.
Proof.
  unfold wrapped, sub.
  apply sub_rewrites with (n := length lines); [cbn; lia|lia].
Qed.

Lemma wrapped_head : exists rest, wrapped = lit "<ul><li>" ++ rest.
Proof.
  pose proof texts_not_nil as Ht. unfold wrapped, lines.
  destruct texts as [|x xs]; [congruence|].
  destruct (li_lines_head x xs) as [rest ->].
  destruct (match_first_item None x rest) as (n & cs & Hm).
  pose proof Hm as Hm'.
  apply match_at_sound in Hm' as (a & b & E & -> & Hs).
  apply list_items_group in Hs as [_ [u Hu]].
  rewrite E in *. unfold sub.
  rewrite (sub_from_match _ _ None a b cs); [|subst a; discriminate|exact Hm].
  rewrite (ul_wrap_match _ _ _ _ Hm). subst a.
  rewrite <- !app_assoc. cbn [lit list_ascii_of_string app]. eauto.
Qed.

Lemma block_passes_wrapped : block_passes wrapped = wrapped.
Proof.
  destruct wrapped_head as [rest E]. rewrite E.
  cbn [lit list_ascii_of_string app].
  change ("<"%char :: "u"%char :: "l"%char :: ">"%char :: "<"%char
          :: "l"%char :: "i"%char :: ">"%char :: rest)
    with (lit "<ul><li>" ++ rest).
  rewrite <- E. clear E rest.
  assert (Hl : pairs_ok tag_first None lines = true)
    by apply li_lines_tag_first, texts_no_nl.
  pose proof (wrap_tag_first _ _ _ wrapped_rewrites Hl) as Hw.
  assert (Hs : head_not is_space (rev wrapped)).
  { apply no_space_last_rev.
    apply (wrap_no_space_last _ _ _ wrapped_rewrites None None); [auto|].
    unfold lines. now rewrite (lastc_li_lines texts None texts_not_nil). }
  destruct wrapped_head as [rest E]. rewrite E in *.
  now apply block_passes_tag_first.
Qed.

End Converted.



End ListFacts.

(* ------------------------------------------------------------------ *)
(** ** More about strings *)

Module StrFacts.
Import Py Re Aux PyFacts ReFacts AnchorFacts PassFacts.

Lemma forallb_all (f : ascii -> bool) s :
  (forall c, f c = true) -> forallb f s = true.
Proof. intros H. induction s as [|c s IH]; [reflexivity|]. cbn. now rewrite H. Qed.

Lemma forallb_rev (f : ascii -> bool) s : forallb f (rev s) = forallb f s.
Proof.
  induction s as [|c s IH]; [reflexivity|].
  cbn [rev forallb]. rewrite forallb_app, IH. cbn [forallb].
  now rewrite andb_true_r, andb_comm.
Qed.

Lemma lstrip_by_forallb f (g : ascii -> bool) s :
  forallb g s = true -> forallb g (lstrip_by f s) = true.
Proof.
  intros H. destruct (lstrip_by_sub f s) as (a & E & _).
  rewrite E, forallb_app in H. now apply andb_true_iff in H.
Qed.

Lemma strip_by_forallb f (g : ascii -> bool) s :
  forallb g s = true -> forallb g (strip_by f s) = true.
Proof.
  intros H. unfold strip_by, rstrip_by.
  rewrite forallb_rev. apply lstrip_by_forallb. rewrite forallb_rev.
  now apply lstrip_by_forallb.
Qed.

Lemma strip_by_idem f s : strip_by f (strip_by f s) = strip_by f s.
Proof.
  destruct (strip_by_decomp f s) as (a & b & _ & H1 & H2).
  now apply strip_by_id.
Qed.

Lemma skipn_forallb (g : ascii -> bool) n s :
  forallb g s = true -> forallb g (skipn n s) = true.
Proof.
  intros H. rewrite <- (firstn_skipn n s), forallb_app in H.
  now apply andb_true_iff in H.
Qed.

Lemma firstn_Forall {A} (P : A -> Prop) n (l : list A) :
  Forall P l -> Forall P (firstn n l).
Proof.
  intros H. rewrite <- (firstn_skipn n l) in H. now apply Forall_app in H.
Qed.

(** The lines of a text hold no line break. *)
Lemma split_lines sep s :
  Forall (fun l => forallb (fun c => negb (is_char sep c)) l = true) (split sep s).
Proof.
  induction s as [|c s IH]; cbn [split].
  - now repeat constructor.
  - destruct (Ascii.eqb sep c) eqn:E; [now constructor|].
    destruct (split sep s) as [|l ls]; [now repeat constructor; cbn; unfold is_char; rewrite E|].
    inversion IH; subst. constructor; [|assumption].
    cbn [forallb]. unfold is_char at 1. now rewrite E.
Qed.

Lemma split_app_sep sep l r :
  forallb (fun c => negb (is_char sep c)) l = true ->
  split sep (l ++ sep :: r) = l :: split sep r.
Proof.
  induction l as [|c l IH]; cbn [app forallb split].
  - intros _. now rewrite Ascii.eqb_refl.
  - intros H. apply andb_true_iff in H as [Hc Hl].
    apply negb_true_iff in Hc. unfold is_char in Hc. now rewrite Hc, IH.
Qed.

(** Splitting the joined lines gives the lines back. *)
Lemma split_join sep lines :
  lines <> [] ->
  Forall (fun l => forallb (fun c => negb (is_char sep c)) l = true) lines ->
  split sep (join [sep] lines) = lines.
Proof.
  induction lines as [|l lines IH]; intros Hne H; [congruence|].
  inversion H as [|? ? Hl Hls]; subst.
  destruct lines as [|l2 lines].
  - cbn [join]. now apply split_no_sep.
  - rewrite join_cons_ne by discriminate. cbn [app].
    rewrite split_app_sep by assumption. f_equal.
    apply IH; [discriminate|assumption].
Qed.

Lemma startswith_split p : forall s,
  startswith p s = true -> exists b, s = p ++ b.
Proof.
  induction p as [|a p IH]; intros s H; [now exists s|].
  destruct s as [|c s]; [discriminate|]. rewrite startswith_cons in H.
  apply andb_true_iff in H as [E H]. apply Ascii.eqb_eq in E. subst c.
  destruct (IH s H) as [b ->]. now exists b.
Qed.

Lemma contains_split p : forall s,
  contains p s = true -> exists a b, s = a ++ p ++ b.
Proof.
  induction s as [|c s IH]; intros H.
  - cbn [contains] in H. rewrite orb_false_r in H.
    apply startswith_split in H as [b E]. now exists [], b.
  - rewrite contains_cons in H. apply orb_true_iff in H as [H|H].
    + apply startswith_split in H as [b E]. now exists [], b.
    + destruct (IH H) as (a & b & ->). now exists (c :: a), b.
Qed.

Lemma lstrip_by_nil f s : lstrip_by f s = [] -> forallb f s = true.
Proof.
  induction s as [|c s IH]; [reflexivity|]. cbn [lstrip_by forallb].
  destruct (f c); [exact IH|discriminate].
Qed.

(** A text whose last character is no white space does not become empty
    by stripping. *)
Lemma strip_by_not_nil f s c r :
  rev s = c :: r -> f c = false -> strip_by f s <> [].
Proof.
  intros E Hc. unfold strip_by, rstrip_by.
  destruct (lstrip_by_sub f s) as (a & Ea & Ha).
  destruct (rev (lstrip_by f s)) as [|x r'] eqn:Eu.
  - apply (f_equal (@rev ascii)) in Eu. rewrite rev_involutive in Eu.
    cbn [rev] in Eu. apply lstrip_by_nil in Eu.
    rewrite <- forallb_rev, E in Eu. cbn [forallb] in Eu.
    rewrite Hc in Eu. discriminate.
  - assert (Ex : x = c).
    { rewrite Ea, rev_app_distr, Eu in E. cbn [app] in E. congruence. }
    rewrite Ex, lstrip_by_head by exact Hc.
    intros Hn. apply (f_equal (@rev ascii)) in Hn.
    rewrite rev_involutive in Hn. discriminate.
Qed.

End StrFacts.

(* ------------------------------------------------------------------ *)
(** ** Escaping, tables and paragraphs *)

Module TextFacts.
Import Py Re Markup Aux PyFacts ReFacts AnchorFacts PassFacts QuietFacts
  CodeFacts StrFacts Kindle.

(** X1.  [escape_html] loses nothing: two texts with the same escaped form are
    the same text. *)
Theorem escape_html_injective a b : escape_html a = escape_html b -> a = b.
Proof.
  intros H. rewrite <- (unescape_escape_html a), <- (unescape_escape_html b).
  now rewrite H.
Qed.

Lemma escape_html_injective_witness :
  escape_html (lit "a<b") = escape_html (lit "a<b") /\ lit "a<b" = lit "a<b".
Proof.
  split; [reflexivity|].
  apply (escape_html_injective (lit "a<b") (lit "a<b")). reflexivity.
Defined.

Lemma no_angle_word x : is_word x || is_char ";" x = true -> no_angle x = true.
Proof. all_chars x. Qed.

Lemma no_angle_or c : one_of ["&"; "<"; ">"]%char c || no_angle c = true.
Proof. all_chars c. Qed.

(** X2.  The escaped text holds no angle bracket. *)
Theorem escape_html_no_angle b : forallb no_angle (escape_html b) = true.
Proof.
  apply escape_html_forallb; [reflexivity|apply no_angle_word|].
  apply forallb_all, no_angle_or.
Qed.

Lemma passed_lines_app a b :
  passed_lines (a ++ b) = passed_lines a ++ passed_lines b.
Proof. apply flat_map_app. Qed.

Lemma passed_lines_row h l : passed_lines (row h l) = [].
Proof.
  unfold row. rewrite !passed_lines_app. cbn [passed_lines flat_map app].
  rewrite app_nil_r. induction (cells l) as [|c cs IH]; [reflexivity|exact IH].
Qed.

Lemma passed_lines_loop lines : forall in_table,
  passed_lines (convert_tables_loop in_table lines)
  = filter (fun l => negb (is_table_line l)) lines.
Proof.
  induction lines as [|l lines IH]; intros in_table.
  - now destruct in_table.
  - cbn [convert_tables_loop filter].
    destruct (is_table_line l); cbn [negb].
    + destruct in_table; cbn [negb].
      * destruct (is_separator l); rewrite ?passed_lines_app, ?passed_lines_row;
          apply IH.
      * destruct (match lines with [] => false | next :: _ => is_separator next end).
        -- rewrite !passed_lines_app, passed_lines_row. cbn [passed_lines flat_map app].
           apply IH.
        -- rewrite passed_lines_app. cbn [passed_lines flat_map app].
           destruct (is_separator l); rewrite ?passed_lines_app, ?passed_lines_row;
             apply IH.
    + rewrite !passed_lines_app. cbn [passed_lines flat_map app].
      rewrite IH. now destruct in_table.
Qed.


(** X4.  A text without a vertical bar goes through [convert_tables] as it
    is. *)
Theorem convert_tables_without_bar html :
  forallb (fun c => negb (is_char "|" c)) html = true ->
  convert_tables html = html.
Proof. intros H. now apply convert_tables_id, no_bar_no_table_line. Qed.

Lemma convert_tables_without_bar_witness :
  forallb (fun c => negb (is_char "|" c)) (lit "a" ++ [nl] ++ lit "b") = true
  /\ convert_tables (lit "a" ++ [nl] ++ lit "b") = lit "a" ++ [nl] ++ lit "b".
Proof.
  split; [reflexivity|]. apply convert_tables_without_bar. reflexivity.
Defined.

Lemma strip_idem s : strip (strip s) = strip s.
Proof. apply strip_by_idem. Qed.

Lemma strip_paragraph s : strip (lit "<p>" ++ s ++ lit "</p>") = lit "<p>" ++ s ++ lit "</p>".
Proof.
  apply strip_by_id; [reflexivity|].
  now rewrite !rev_app_distr.
Qed.

(** X5.  Converting a converted paragraph changes nothing. *)
Theorem convert_paragraph_idempotent para :
  convert_paragraph (convert_paragraph para) = convert_paragraph para.
Proof.
  unfold convert_paragraph at 2 3. cbv zeta.
  pose proof (strip_idem para) as Hp. set (p := strip para) in *.
  destruct (negb match p with [] => true | _ :: _ => false end
            && negb (startswith (lit "<") p)
            && negb (startswith (lit "<!--") p) && negb (is_html_block p)) eqn:C.
  - destruct (negb (contains_block_elements p)) eqn:D.
    + apply (convert_paragraph_id (lit "p>" ++ p ++ lit "</p>")).
      change ("<"%char :: lit "p>" ++ p ++ lit "</p>")
        with (lit "<p>" ++ p ++ lit "</p>").
      now rewrite !rev_app_distr.
    + unfold convert_paragraph. cbv zeta. now rewrite Hp, C, D.
  - unfold convert_paragraph. cbv zeta. now rewrite Hp, C.
Qed.

End TextFacts.

(* ------------------------------------------------------------------ *)
(** ** Titles, tables of contents, diagrams and ASCII art *)

Module TitleFacts.
Import Py Re ReMore Aux PyFacts ReFacts AnchorFacts PassFacts QuietFacts
  HeaderFacts ListAux MatchFacts StrFacts TextFacts.

(** *** The title of a Mermaid document *)

Lemma find_line_no_nl f content line :
  find f (split nl content) = Some line -> forallb no_nl line = true.
Proof.
  intros H. apply find_some in H as [Hin _].
  pose proof (split_lines nl content) as Hl.
  rewrite Forall_forall in Hl. now apply Hl.
Qed.

(** X6.  The title that [extract_title_from_markdown] of the Mermaid converter
    returns is one line without white space at its ends. *)
Theorem mermaid_title_clean content :
  strip (MermaidText.extract_title_from_markdown content)
  = MermaidText.extract_title_from_markdown content
  /\ forallb no_nl (MermaidText.extract_title_from_markdown content) = true.
Proof.
  unfold MermaidText.extract_title_from_markdown. cbv zeta.
  destruct (find _ (split nl content)) as [line|] eqn:E.
  - split; [apply strip_idem|].
    apply strip_by_forallb, skipn_forallb. now apply find_line_no_nl in E.
  - split; reflexivity.
Qed.

(** *** The title of a document in generate_html_flexible *)

Lemma first_title_some lines t :
  FlexibleText.first_title lines = Some t ->
  exists line rest, In line lines /\ strip line = "#"%char :: " "%char :: rest
                    /\ rest <> [] /\ t = strip rest.
Proof.
  induction lines as [|l lines IH]; [discriminate|].
  cbn [FlexibleText.first_title]. cbv zeta.
  destruct (startswith (lit "# ") (strip l) && (2 <? length (strip l))) eqn:C.
  - intros H. inversion H; subst t; clear H.
    apply andb_true_iff in C as [C1 C2].
    apply startswith_split in C1 as [rest E]. apply Nat.ltb_lt in C2.
    exists l, rest. rewrite E in C2. rewrite E.
    split; [now left|]. split; [reflexivity|]. split; [|reflexivity].
    intros ->. cbn in C2. lia.
  - intros H. destruct (IH H) as (line & rest & Hin & Hr).
    exists line, rest. split; [now right|exact Hr].
Qed.

(** X7.  When [extract_title_from_markdown] of generate_html_flexible finds a
    title, the title is not empty, is one line and has no white space at
    its ends. *)
Theorem flexible_title_not_empty content t :
  FlexibleText.extract_title_from_markdown content = Some t ->
  t <> [] /\ strip t = t /\ forallb no_nl t = true.
Proof.
  unfold FlexibleText.extract_title_from_markdown. cbv zeta. intros H.
  apply first_title_some in H as (line & rest & Hin & E & Hne & ->).
  split; [|split; [apply strip_idem|]].
  - destruct (strip_by_decomp is_space line) as (a & b & _ & _ & Hlast).
    fold (strip line) in Hlast. rewrite E in Hlast. cbn [rev] in Hlast.
    destruct (rev rest) as [|c r] eqn:Er.
    + apply (f_equal (@rev ascii)) in Er. rewrite rev_involutive in Er.
      cbn [rev] in Er. congruence.
    + cbn [app] in Hlast. now apply (strip_by_not_nil is_space rest c r).
  - apply strip_by_forallb.
    assert (Hl : forallb no_nl line = true).
    { pose proof (split_lines nl (strip content)) as Hs.
      apply (firstn_Forall _ 20) in Hs. rewrite Forall_forall in Hs.
      now apply Hs. }
    apply (strip_by_forallb is_space) in Hl. fold (strip line) in Hl.
    rewrite E in Hl. cbn [forallb] in Hl.
    apply andb_true_iff in Hl as [_ Hl]. now apply andb_true_iff in Hl.
Qed.

Lemma flexible_title_not_empty_witness :
  FlexibleText.extract_title_from_markdown (lit " # Guide " ++ [nl] ++ lit "text")
  = Some (lit "Guide")
  /\ lit "Guide" <> [] /\ strip (lit "Guide") = lit "Guide"
  /\ forallb no_nl (lit "Guide") = true.
Proof.
  split; [reflexivity|].
  apply (flexible_title_not_empty (lit " # Guide " ++ [nl] ++ lit "text")).
  reflexivity.
Defined.

(** *** The cleaning of ASCII art *)

Lemma pop_blank_suffix l : exists a, l = a ++ AsciiText.pop_blank l.
Proof.
  induction l as [|x l [a IH]]; [now exists []|].
  cbn [AsciiText.pop_blank]. destruct (AsciiText.blank x).
  - exists (x :: a). cbn [app]. now f_equal.
  - now exists [].
Qed.

Lemma pop_blank_head l :
  match AsciiText.pop_blank l with
  | x :: _ => AsciiText.blank x = false
  | [] => True
  end.
Proof.
  induction l as [|x l IH]; [exact I|].
  cbn [AsciiText.pop_blank]. destruct (AsciiText.blank x) eqn:E; [exact IH|exact E].
Qed.

Lemma pop_blank_Forall (P : str -> Prop) l :
  Forall P l -> Forall P (AsciiText.pop_blank l).
Proof.
  intros H. destruct (pop_blank_suffix l) as [a E]. rewrite E in H.
  now apply Forall_app in H.
Qed.

(** X8.  What [clean_ascii_content] returns neither begins nor ends with a
    blank line. *)
Theorem clean_ascii_no_blank_ends content :
  let lines := split nl (AsciiText.clean_ascii_content content) in
  AsciiText.clean_ascii_content content = []
  \/ (AsciiText.blank (hd [] lines) = false
      /\ AsciiText.blank (last lines []) = false).
Proof.
  unfold AsciiText.clean_ascii_content. cbv zeta.
  set (c2 := sub AsciiText.re_fence_close _ _).
  pose proof (split_lines nl c2) as Hl.
  apply pop_blank_Forall in Hl.
  pose proof (pop_blank_head (split nl c2)) as Hh.
  set (l1 := AsciiText.pop_blank (split nl c2)) in *.
  apply Forall_rev, pop_blank_Forall in Hl.
  pose proof (pop_blank_head (rev l1)) as Ht.
  destruct (pop_blank_suffix (rev l1)) as [a Ea].
  set (p := AsciiText.pop_blank (rev l1)) in *.
  destruct p as [|x p'] eqn:Ep; [now left|]. right.
  rewrite split_join.
  - apply (f_equal (@rev str)) in Ea.
    rewrite rev_involutive, rev_app_distr in Ea. cbn [rev] in *.
    split.
    + destruct (rev p') as [|y r].
      * cbn [app hd]. exact Ht.
      * cbn [app hd]. cbn [app] in Ea. rewrite Ea in Hh. exact Hh.
    + now rewrite last_last.
  - cbn [rev]. now destruct (rev p').
  - now apply Forall_rev.
Qed.

(** *** The diagrams of a Mermaid document *)

Lemma lazy_first p : forall s prev cs k x,
  lazy p prev s cs k = Some x ->
  exists a b, s = a ++ b /\ forallb p a = true
    /\ k (lastc prev a) b cs = Some x
    /\ forall a1 c a2, a = a1 ++ c :: a2 ->
          k (lastc prev a1) (c :: a2 ++ b) cs = None.
Proof.
  induction s as [|c s IH]; intros prev cs k x H.
  - cbn [lazy] in H. destruct (k prev [] cs) as [y|] eqn:E; [|discriminate].
    exists [], []. split; [reflexivity|]. split; [reflexivity|].
    split; [cbn; congruence|].
    intros a1 c a2 Ha. now destruct a1.
  - cbn [lazy] in H. destruct (k prev (c :: s) cs) as [y|] eqn:E.
    + exists [], (c :: s). split; [reflexivity|]. split; [reflexivity|].
      split; [cbn; congruence|].
      intros a1 c' a2 Ha. now destruct a1.
    + destruct (p c) eqn:Hc; [|discriminate].
      apply IH in H as (a & b & -> & Ha & Hk & Hmin).
      exists (c :: a), b. cbn [forallb app]. rewrite Hc, Ha.
      split; [reflexivity|]. split; [reflexivity|].
      split; [exact Hk|].
      intros a1 c' a2 E'. destruct a1 as [|c1 a1]; cbn [app] in E'.
      * inversion E'; subst. exact E.
      * inversion E'; subst. apply (Hmin a1 c' a2 eq_refl).
Qed.

Lemma m_seq_sound r1 r2 prev s cs k x :
  m (Seq r1 r2) prev s cs k = Some x ->
  exists a b cs', s = a ++ b /\ matching r1 prev a b cs cs'
                  /\ m r2 (lastc prev a) b cs' k = Some x.
Proof. rewrite m_seq. apply m_sound. Qed.

(** The text that a lazy group takes before a closing mark holds no such
    mark. *)
Lemma lazy_group_first tail mark0 mark prev s cs x :
  (forall prev' rest cs',
     m tail prev' ((mark0 :: mark) ++ rest) cs' (fun _ s' cs => Some (s', cs))
     <> None) ->
  (forall prev' a b cs1 cs2, matching tail prev' a b cs1 cs2 -> cs2 = cs1) ->
  m (Seq (Grp 1 (Star false DotAll)) tail) prev s cs
    (fun _ s' cs => Some (s', cs)) = Some x ->
  exists g, snd x = (1, g) :: cs /\ contains (mark0 :: mark) g = false.
Proof.
  intros Htail Hcaps H. rewrite m_seq, m_grp in H. unfold DotAll in H.
  rewrite m_star_lazy_cls in H.
  apply lazy_first in H as (g & b & -> & _ & Hk & Hmin).
  rewrite ListFacts.firstn_app_len in Hk.
  apply m_sound in Hk as (a' & b' & cs' & _ & Hm & Hk).
  apply Hcaps in Hm. subst cs'. inversion Hk; subst x; clear Hk.
  exists g. split; [reflexivity|].
  destruct (contains (mark0 :: mark) g) eqn:C; [|reflexivity].
  apply contains_split in C as (a1 & a2 & ->).
  specialize (Hmin a1 mark0 (mark ++ a2) eq_refl).
  exfalso. revert Hmin.
  replace (mark0 :: (mark ++ a2) ++ b) with ((mark0 :: mark) ++ a2 ++ b)
    by (cbn [app]; now rewrite <- app_assoc).
  apply Htail.
Qed.

Lemma findall_in r : forall s k prev d,
  In d (findall_from r k prev s) ->
  exists prev' s' n cs, match_at r prev' s' = Some (n, cs)
                        /\ d = group_or_empty 1 cs.
Proof.
  induction s as [|c s IH]; intros k prev d H.
  - destruct k; [|destruct H]. cbn [findall_from] in H.
    destruct (match_at r prev []) as [[n cs]|] eqn:E; [|destruct H].
    destruct H as [<-|H]; [eauto 6|]. now destruct n.
  - destruct k as [|k]; [|cbn [findall_from] in H; now apply IH in H].
    cbn [findall_from] in H.
    destruct (match_at r prev (c :: s)) as [[n cs]|] eqn:E.
    + destruct H as [<-|H]; [eauto 6|].
      destruct n; now apply IH in H.
    + now apply IH in H.
Qed.

Definition fence_mark : str := nl :: lit "```".

Lemma mermaid_tail_caps prev a b cs1 cs2 :
  matching (Seq (Chr nl) (Lit "```")) prev a b cs1 cs2 -> cs2 = cs1.
Proof.
  intros H. apply matching_seq_inv in H as (a1 & a2 & cs' & -> & H1 & H2).
  apply matching_chr_inv in H1 as [_ ->].
  now apply (matching_lit (lit "```")) in H2.
Qed.

Lemma mermaid_crlf_tail_caps prev a b cs1 cs2 :
  matching (Seq (Opt (Chr MermaidText.cr)) (Seq (Chr nl) (Lit "```")))
    prev a b cs1 cs2 -> cs2 = cs1.
Proof.
  intros H. apply matching_seq_inv in H as (a1 & a2 & cs' & -> & H1 & H2).
  apply mermaid_tail_caps in H2. subst cs2.
  unfold Opt in H1. apply matching_alt_inv in H1 as [H1|H1].
  - now apply matching_chr_inv in H1.
  - now apply matching_eps_inv in H1.
Qed.

Lemma match_mermaid_group prev s n cs :
  match_at MermaidText.re_mermaid prev s = Some (n, cs) ->
  contains fence_mark (group_or_empty 1 cs) = false.
Proof.
  unfold match_at. intros H.
  destruct (m MermaidText.re_mermaid prev s [] _) as [[s' cs']|] eqn:E;
    [|discriminate].
  inversion H; subst; clear H. unfold MermaidText.re_mermaid in E.
  apply m_seq_sound in E as (a1 & b1 & cs1 & -> & _ & E).
  apply m_seq_sound in E as (a2 & b2 & cs2 & -> & _ & E).
  apply (lazy_group_first _ nl (lit "```")) in E as (g & Eg & Hg).
  - cbn [snd] in Eg. subst cs. exact Hg.
  - intros prev' rest cs'. unlit. cbn [app]. run_m. discriminate.
  - apply mermaid_tail_caps.
Qed.

Lemma match_mermaid_crlf_group prev s n cs :
  match_at MermaidText.re_mermaid_crlf prev s = Some (n, cs) ->
  contains fence_mark (group_or_empty 1 cs) = false.
Proof.
  unfold match_at. intros H.
  destruct (m MermaidText.re_mermaid_crlf prev s [] _) as [[s' cs']|] eqn:E;
    [|discriminate].
  inversion H; subst; clear H. unfold MermaidText.re_mermaid_crlf in E.
  apply m_seq_sound in E as (a1 & b1 & cs1 & -> & _ & E).
  apply m_seq_sound in E as (a2 & b2 & cs2 & -> & _ & E).
  apply m_seq_sound in E as (a3 & b3 & cs3 & -> & _ & E).
  apply (lazy_group_first _ nl (lit "```")) in E as (g & Eg & Hg).
  - cbn [snd] in Eg. subst cs. exact Hg.
  - intros prev' rest cs'. unfold MermaidText.cr. unlit. cbn [app]. run_m.
    discriminate.
  - apply mermaid_crlf_tail_caps.
Qed.

(** X9.  No diagram that [extract_mermaid_from_markdown] returns holds a line
    break followed by three backticks: a diagram ends at the first closing
    fence. *)
Theorem mermaid_diagram_without_fence content d :
  In d (MermaidText.extract_mermaid_from_markdown content) ->
  contains (nl :: lit "```") d = false.
Proof.
  unfold MermaidText.extract_mermaid_from_markdown, findall.
  destruct (findall_from MermaidText.re_mermaid 0 None content) as [|d1 l1] eqn:E1.
  - destruct (findall_from MermaidText.re_mermaid_crlf 0 None content)
      as [|d2 l2] eqn:E2; [intros []|].
    rewrite <- E2. intros H.
    apply findall_in in H as (prev & s & n & cs & Hm & ->).
    now apply match_mermaid_crlf_group in Hm.
  - rewrite <- E1. intros H.
    apply findall_in in H as (prev & s & n & cs & Hm & ->).
    now apply match_mermaid_group in Hm.
Qed.

Lemma mermaid_diagram_without_fence_witness :
  In (lit "graph TD")
    (MermaidText.extract_mermaid_from_markdown
       (lit "```mermaid" ++ [nl] ++ lit "graph TD" ++ [nl] ++ lit "```"))
  /\ contains (nl :: lit "```") (lit "graph TD") = false.
Proof.
  split; [now left|].
  apply (mermaid_diagram_without_fence
           (lit "```mermaid" ++ [nl] ++ lit "graph TD" ++ [nl] ++ lit "```")).
  now left.
Defined.

(** *** The headers of the table of contents *)

Lemma matching_upto n c : forall prev a b cs cs',
  matching (Upto n (Chr c)) prev a b cs cs' -> length a <= n /\ cs' = cs.
Proof.
  induction n as [|n IH]; intros prev a b cs cs' H; cbn [Upto] in H.
  - apply matching_eps_inv in H as [-> ->]. auto.
  - apply matching_alt_inv in H as [H|H].
    + apply matching_seq_inv in H as (a1 & a2 & cs1 & -> & H1 & H2).
      apply matching_chr_inv in H1 as [-> ->].
      apply IH in H2 as [Hl ->]. cbn [app length]. split; [lia|reflexivity].
    + apply matching_eps_inv in H as [-> ->]. cbn. split; [lia|reflexivity].
Qed.

Lemma toc_header_shape prev a b cs :
  matching KindleToc.re_toc_header prev a b [] cs ->
  exists h t, cs = [(2, t); (1, h)] /\ 1 <= length h <= 6
              /\ forallb no_nl t = true.
Proof.
  unfold KindleToc.re_toc_header. intros H.
  apply matching_seq_inv in H as (a1 & a2 & cs1 & -> & H1 & H2).
  apply matching_bol_inv in H1 as (_ & -> & _).
  apply matching_seq_inv in H2 as (h & a3 & cs2 & -> & H2 & H3).
  apply matching_grp_inv in H2 as (cs3 & -> & H2).
  apply matching_seq_inv in H2 as (h1 & h2 & cs4 & -> & H21 & H22).
  apply matching_chr_inv in H21 as [-> ->].
  apply matching_upto in H22 as [Hl ->].
  apply matching_seq_inv in H3 as (sp & a4 & cs5 & -> & H3 & H4).
  apply matching_plus_cls in H3 as (_ & _ & ->).
  apply matching_seq_inv in H4 as (t & a5 & cs6 & -> & H4 & H5).
  apply matching_grp_inv in H4 as (cs7 & -> & H4).
  apply matching_plus_cls in H4 as (Ht & _ & ->).
  apply matching_eol_inv in H5 as (_ & -> & _).
  exists ("#"%char :: h2), t. cbn [app length]. repeat split; [lia|lia|exact Ht].
Qed.

(** X10.  Every header that [extract_headers_for_toc] lists has a level from 1
    to 6, a title of one line without white space at its ends, and the
    anchor that [create_anchor_id] makes of this title. *)
Theorem toc_header_levels content level title anchor :
  In (level, title, anchor) (KindleToc.extract_headers_for_toc content) ->
  1 <= level <= 6
  /\ strip title = title
  /\ forallb no_nl title = true
  /\ anchor = Kindle.create_anchor_id title.
Proof.
  unfold KindleToc.extract_headers_for_toc. intros H.
  apply in_flat_map in H as (line & _ & H).
  unfold KindleToc.header_of_line in H.
  destruct (match_at KindleToc.re_toc_header None line) as [[n cs]|] eqn:E;
    [|destruct H].
  apply match_at_sound in E as (a & b & _ & _ & Hm).
  apply toc_header_shape in Hm as (h & t & -> & Hl & Ht).
  cbv zeta in H. destruct H as [H|[]]. inversion H; subst; clear H.
  unfold group_or_empty. cbn [group Nat.eqb].
  repeat split; try apply Hl; [apply strip_idem|].
  now apply strip_by_forallb.
Qed.

Lemma toc_header_levels_witness :
  In (2, lit "Setup", lit "setup")
    (KindleToc.extract_headers_for_toc
       (lit "text" ++ [nl] ++ lit "##  Setup "))
  /\ 1 <= 2 <= 6
  /\ strip (lit "Setup") = lit "Setup"
  /\ forallb no_nl (lit "Setup") = true
  /\ lit "setup" = Kindle.create_anchor_id (lit "Setup").
Proof.
  split; [now left|].
  apply (toc_header_levels (lit "text" ++ [nl] ++ lit "##  Setup ")).
  now left.
Defined.

End TitleFacts.
